(** * Request gateway of the Chrome AI Assistant backend

    A shallow embedding of [backend/middleware/validation.js],
    [backend/middleware/auth.js] and of the middleware chains registered in
    [backend/routes/*.js], followed by the properties of the schema
    validator, the key resolver, the authenticator, the sliding-window
    rate limiter and the route chain.

    Conventions of the embedding:
    - a JavaScript string is a Rocq [string]; each character stands for one
      UTF-16 code unit below 256, so [String.length] is [.length];
    - [Date.now()] and every timestamp is an integer number of
      milliseconds, a [Z];
    - logging (winston) has no influence on the outcome of a middleware and
      is left out;
    - an Express middleware either calls [next()] or answers through
      [res.status(..).json(..)]: it returns an [Outcome]. *)

From Stdlib Require Import ZArith QArith Ascii String Floats.SpecFloat.
From stdpp Require Import base strings list gmap pretty.

Set Warnings "-register-all".

Local Open Scope string_scope.
Local Open Scope Z_scope.
Local Open Scope list_scope.

(** ** JavaScript values and strings *)

Module Js.

(** Values that [JSON.parse] and the query parser can deliver, with the
    functions found on [Object.prototype]. A number is a binary float;
    an object is the list of its own properties. *)
Inductive Value : Type :=
| VUndefined
| VNull
| VBool (b : bool)
| VNum (x : spec_float)
| VStr (s : string)
| VArr (items : list Value)
| VObj (props : list (string * Value))
| VFun.

(** [typeof v] *)
Definition typeof (v : Value) : string :=
  match v with
  | VUndefined => "undefined"
  | VNull => "object"
  | VBool _ => "boolean"
  | VNum _ => "number"
  | VStr _ => "string"
  | VArr _ => "object"
  | VObj _ => "object"
  | VFun => "function"
  end.

(** [Array.isArray(v)] *)
Definition isArray (v : Value) : bool :=
  match v with VArr _ => true | _ => false end.

(** [isNaN(x)] for a number [x]. *)
Definition isNaN (x : spec_float) : bool :=
  match x with S754_nan => true | _ => false end.

(** [Number.isInteger(v)]: [v] is a number, it is finite, and
    [floor(v) === v]. The float [m * 2^e] with [e < 0] is its own floor
    exactly when [2^(-e)] divides [m]. *)
Definition Number_isInteger (v : Value) : bool :=
  match v with
  | VNum (S754_zero _) => true
  | VNum (S754_finite _ m e) =>
      (0 <=? e) || (Z.pos m mod 2 ^ (- e) =? 0)
  | _ => false
  end.

(** Own property lookup in a property list (first binding wins). *)
Fixpoint own (props : list (string * Value)) (k : string) : option Value :=
  match props with
  | [] => None
  | (k', v) :: rest => if String.eqb k' k then Some v else own rest k
  end.

(** The properties every plain object inherits from [Object.prototype]. *)
Definition Object_prototype_keys : list string :=
  [ "constructor"; "__defineGetter__"; "__defineSetter__"; "hasOwnProperty";
    "__lookupGetter__"; "__lookupSetter__"; "isPrototypeOf";
    "propertyIsEnumerable"; "toString"; "valueOf"; "__proto__";
    "toLocaleString" ].

Definition inherited (k : string) : bool :=
  existsb (String.eqb k) Object_prototype_keys.

(** [o[k]] for a plain object [o]: an own property, else the inherited
    one ([__proto__] is [Object.prototype], an object without further own
    data; the others are functions), else [undefined]. *)
Definition get (props : list (string * Value)) (k : string) : Value :=
  match own props k with
  | Some v => v
  | None =>
      if String.eqb k "__proto__" then VObj []
      else if inherited k then VFun else VUndefined
  end.

(** [k in o] for a plain object [o]. *)
Definition has_property (props : list (string * Value)) (k : string) : bool :=
  match own props k with
  | Some _ => true
  | None => inherited k
  end.

(** White space and line terminators, as [String.prototype.trim] and the
    class [\s] see them (code units below 256). *)
Definition is_space (c : ascii) : bool :=
  let n := nat_of_ascii c in
  ((9 <=? n) && (n <=? 13))%nat || (n =? 32)%nat || (n =? 160)%nat.

Fixpoint trim_start (s : string) : string :=
  match s with
  | String c rest => if is_space c then trim_start rest else s
  | EmptyString => EmptyString
  end.

Fixpoint string_rev_onto (acc s : string) : string :=
  match s with
  | String c rest => string_rev_onto (String c acc) rest
  | EmptyString => acc
  end.

Definition string_rev (s : string) : string := string_rev_onto "" s.

(** [s.trim()] *)
Definition trim (s : string) : string :=
  string_rev (trim_start (string_rev (trim_start s))).

Fixpoint drop_chars (n : nat) (s : string) : string :=
  match n, s with
  | O, _ => s
  | S n', String _ rest => drop_chars n' rest
  | S _, EmptyString => EmptyString
  end.

(** [s.replace(pat, '')] with a string pattern: the first occurrence of
    [pat] in [s], wherever it is, is removed. *)
Fixpoint replace_first (pat s : string) : string :=
  if String.prefix pat s then drop_chars (String.length pat) s
  else match s with
       | String c rest => String c (replace_first pat rest)
       | EmptyString => EmptyString
       end.

(** [s.length] *)
Definition strlen (s : string) : Z := Z.of_nat (String.length s).

End Js.

(** ** Regular expressions

    The literal [emailRegex] of validation.js is embedded as a syntax tree
    and run by derivatives. Patterns that a schema carries as strings go
    through the host's [RegExp] constructor, which is a parameter of the
    validator (see [Host] below). *)

Module Regex.

Inductive re : Type :=
| Void
| Eps
| Class (p : ascii -> bool)
| Cat (r1 r2 : re)
| Alt (r1 r2 : re)
| Star (r : re).

Definition Plus (r : re) : re := Cat r (Star r).

Fixpoint nullable (r : re) : bool :=
  match r with
  | Void => false
  | Eps => true
  | Class _ => false
  | Cat r1 r2 => nullable r1 && nullable r2
  | Alt r1 r2 => nullable r1 || nullable r2
  | Star _ => true
  end.

Fixpoint deriv (c : ascii) (r : re) : re :=
  match r with
  | Void => Void
  | Eps => Void
  | Class p => if p c then Eps else Void
  | Cat r1 r2 =>
      if nullable r1 then Alt (Cat (deriv c r1) r2) (deriv c r2)
      else Cat (deriv c r1) r2
  | Alt r1 r2 => Alt (deriv c r1) (deriv c r2)
  | Star r1 => Cat (deriv c r1) (Star r1)
  end.

(** [/^r$/.test(s)]: the whole of [s] is in the language of [r]. *)
Fixpoint matches (r : re) (s : string) : bool :=
  match s with
  | EmptyString => nullable r
  | String c rest => matches (deriv c r) rest
  end.

Definition chr (a : ascii) : re := Class (Ascii.eqb a).

End Regex.

(** ** Express: requests, responses and middleware chains *)

Module Express.

(** [req.auth], as the authenticators write it. *)
Record Auth : Type := {
  apiKey : option string;
  authenticated : bool;
  timestamp : option Z
}.

(** The parts of [req] that the gateway reads or writes. The body parser
    delivers [req.body] as an object. *)
Record Request : Type := {
  headers : gmap string string;
  query : list (string * Js.Value);
  body : list (string * Js.Value);
  ip : string;
  auth : option Auth
}.

Definition set_auth (a : Auth) (req : Request) : Request :=
  {| headers := headers req; query := query req; body := body req;
     ip := ip req; auth := Some a |}.

(** The JSON bodies the gateway answers with; [D] is the type of the
    entries of [details]. *)
Record Reply (D : Type) : Type := {
  success : bool;
  error : string;
  message : string;
  details : option (list D);
  retryAfter : option Z
}.
Arguments success {D}.
Arguments error {D}.
Arguments message {D}.
Arguments details {D}.
Arguments retryAfter {D}.

(** What a middleware does with a request: [next()] with the request as
    it now is, or [res.status(code).json(reply)]. *)
Inductive Outcome (D : Type) : Type :=
| Next (req : Request)
| Respond (code : Z) (reply : Reply D).
Arguments Next {D}.
Arguments Respond {D}.

(** Express runs the handlers of a route in the order of registration;
    each runs only if the one before called [next()]. *)
Fixpoint run {D : Type} (chain : list (Request -> Outcome D)) (req : Request)
  : Outcome D :=
  match chain with
  | [] => Next req
  | m :: rest =>
      match m req with
      | Next req' => run rest req'
      | Respond code reply => Respond code reply
      end
  end.

End Express.

(** ** validation.js *)

Module Validation.
Import Js Express.

(** What the validator takes from the JavaScript host: the [RegExp]
    constructor, which throws a [SyntaxError] on a pattern that is not a
    regular expression ([None]), [RegExp.prototype.test], and whether
    [new URL(s)] succeeds. *)
Record Host : Type := {
  regexp : Type;
  RegExp_new : string -> option regexp;
  RegExp_test : regexp -> string -> bool;
  URL_new : string -> bool
}.

(** One entry of a schema object; an absent property is [None]. *)
Record FieldSchema : Type := {
  type : option string;
  required : bool;
  minLength : option Z;
  maxLength : option Z;
  pattern : option string;
  format : option string;
  minItems : option Z;
  maxItems : option Z;
  requiredFields : option (list string)
}.

(** [Object.entries(schema)] *)
Definition Schema : Type := list (string * FieldSchema).

(** The objects pushed onto [errors], one constructor per [code]. *)
Inductive ValidationError : Type :=
| RequiredField (fieldName : string)
| InvalidType (fieldName expected actual : string)
| MinLength (fieldName : string) (bound actualLength : Z)
| MaxLength (fieldName : string) (bound actualLength : Z)
| InvalidPattern (fieldName pat : string)
| InvalidUrl (fieldName : string)
| InvalidEmail (fieldName : string)
| MinItems (fieldName : string) (bound actualItems : Z)
| MaxItems (fieldName : string) (bound actualItems : Z)
| RequiredObjectField (fieldName requiredField : string).

Definition code (e : ValidationError) : string :=
  match e with
  | RequiredField _ => "REQUIRED_FIELD"
  | InvalidType _ _ _ => "INVALID_TYPE"
  | MinLength _ _ _ => "MIN_LENGTH"
  | MaxLength _ _ _ => "MAX_LENGTH"
  | InvalidPattern _ _ => "INVALID_PATTERN"
  | InvalidUrl _ => "INVALID_URL"
  | InvalidEmail _ => "INVALID_EMAIL"
  | MinItems _ _ _ => "MIN_ITEMS"
  | MaxItems _ _ _ => "MAX_ITEMS"
  | RequiredObjectField _ _ => "REQUIRED_OBJECT_FIELD"
  end.

Definition field (e : ValidationError) : string :=
  match e with
  | RequiredField f | InvalidType f _ _ | MinLength f _ _ | MaxLength f _ _
  | InvalidPattern f _ | InvalidUrl f | InvalidEmail f | MinItems f _ _
  | MaxItems f _ _ => f
  | RequiredObjectField f sub => f +:+ "." +:+ sub
  end.

Definition message (e : ValidationError) : string :=
  match e with
  | RequiredField f => f +:+ " is required"
  | InvalidType f t _ => f +:+ " must be of type " +:+ t
  | MinLength f b _ =>
      f +:+ " must be at least " +:+ pretty b +:+ " characters long"
  | MaxLength f b _ =>
      f +:+ " must be no more than " +:+ pretty b +:+ " characters long"
  | InvalidPattern f _ => f +:+ " format is invalid"
  | InvalidUrl f => f +:+ " must be a valid URL"
  | InvalidEmail f => f +:+ " must be a valid email address"
  | MinItems f b _ => f +:+ " must contain at least " +:+ pretty b +:+ " items"
  | MaxItems f b _ =>
      f +:+ " must contain no more than " +:+ pretty b +:+ " items"
  | RequiredObjectField f sub => sub +:+ " is required in " +:+ f
  end.

(** [validateType(value, expectedType)] *)
Definition validateType (value : Value) (expectedType : string) : bool :=
  if String.eqb expectedType "string" then String.eqb (typeof value) "string"
  else if String.eqb expectedType "number" then
    match value with VNum x => negb (isNaN x) | _ => false end
  else if String.eqb expectedType "boolean" then
    String.eqb (typeof value) "boolean"
  else if String.eqb expectedType "array" then isArray value
  else if String.eqb expectedType "object" then
    String.eqb (typeof value) "object"
    && negb (match value with VNull => true | _ => false end)
    && negb (isArray value)
  else if String.eqb expectedType "integer" then Number_isInteger value
  else if String.eqb expectedType "float" then
    match value with VNum x => negb (isNaN x) | _ => false end
  else true.

(** The class [[^\s@]]. *)
Definition not_space_or_at (c : ascii) : bool :=
  negb (is_space c || Ascii.eqb c "@").

(** [/^[^\s@]+@[^\s@]+\.[^\s@]+$/] *)
Definition emailRegex : Regex.re :=
  Regex.Cat (Regex.Plus (Regex.Class not_space_or_at))
    (Regex.Cat (Regex.chr "@")
       (Regex.Cat (Regex.Plus (Regex.Class not_space_or_at))
          (Regex.Cat (Regex.chr ".")
             (Regex.Plus (Regex.Class not_space_or_at))))).

Definition isValidEmail (email : string) : bool :=
  Regex.matches emailRegex email.

(** The result of running code that may throw. *)
Inductive Completion (A : Type) : Type :=
| Normal (a : A)
| Thrown.
Arguments Normal {A}.
Arguments Thrown {A}.

(** JavaScript truthiness of an optional string: present and not empty.
    An optional numeric bound [b] is truthy when it is present and not
    zero, written [negb (b =? 0)] under its [Some] below. *)
Definition truthy_str (s : option string) : bool :=
  match s with Some t => negb (String.eqb t "") | None => false end.

Definition is_type (fs : FieldSchema) (t : string) : bool :=
  match type fs with Some t' => String.eqb t' t | None => false end.

Section WithHost.

Variable host : Host.

(** [isValidUrl(string)]: the [try] around [new URL] turns a throw into
    [false]. *)
Definition isValidUrl (s : string) : bool := URL_new host s.

(** The string-specific block of the loop body, for a string [value]. *)
Definition string_checks (fieldName : string) (fs : FieldSchema)
  (value : string) : Completion (list ValidationError) :=
  let min_errors :=
    match minLength fs with
    | Some b =>
        if negb (b =? 0) && (strlen value <? b)
        then [MinLength fieldName b (strlen value)] else []
    | None => []
    end in
  let max_errors :=
    match maxLength fs with
    | Some b =>
        if negb (b =? 0) && (b <? strlen value)
        then [MaxLength fieldName b (strlen value)] else []
    | None => []
    end in
  let format_errors :=
    (if match format fs with Some f => String.eqb f "url" | None => false end
        && negb (isValidUrl value)
     then [InvalidUrl fieldName] else [])
    ++ (if match format fs with Some f => String.eqb f "email" | None => false end
           && negb (isValidEmail value)
        then [InvalidEmail fieldName] else []) in
  if truthy_str (pattern fs) then
    match RegExp_new host (default "" (pattern fs)) with
    | None => Thrown
    | Some r =>
        Normal (min_errors ++ max_errors
                ++ (if RegExp_test host r value then []
                    else [InvalidPattern fieldName (default "" (pattern fs))])
                ++ format_errors)
    end
  else Normal (min_errors ++ max_errors ++ format_errors).

(** The array-specific block, for an array of [n] items. *)
Definition array_checks (fieldName : string) (fs : FieldSchema) (n : Z)
  : list ValidationError :=
  (match minItems fs with
   | Some b =>
       if negb (b =? 0) && (n <? b) then [MinItems fieldName b n] else []
   | None => []
   end)
  ++ (match maxItems fs with
      | Some b =>
          if negb (b =? 0) && (b <? n) then [MaxItems fieldName b n] else []
      | None => []
      end).

(** The object-specific block, for a plain object with properties
    [props]. *)
Definition object_checks (fieldName : string) (fs : FieldSchema)
  (props : list (string * Value)) : list ValidationError :=
  match requiredFields fs with
  | Some names =>
      flat_map (fun requiredField =>
                  if has_property props requiredField then []
                  else [RequiredObjectField fieldName requiredField]) names
  | None => []
  end.

(** One turn of the loop over the schema: the errors it pushes, or the
    exception it raises. The object block is entered for plain objects
    only: [null] and arrays have failed [validateType] before. *)
Definition validate_field (fieldName : string) (fs : FieldSchema)
  (value : Value) : Completion (list ValidationError) :=
  if required fs
     && match value with
        | VUndefined | VNull | VStr EmptyString => true
        | _ => false
        end
  then Normal [RequiredField fieldName]
  else if negb (required fs)
          && match value with VUndefined | VNull => true | _ => false end
  then Normal []
  else if truthy_str (type fs)
          && negb (validateType value (default "" (type fs)))
  then Normal [InvalidType fieldName (default "" (type fs)) (typeof value)]
  else
    match
      match value with
      | VStr s => if is_type fs "string" then string_checks fieldName fs s
                  else Normal []
      | _ => Normal []
      end
    with
    | Thrown => Thrown
    | Normal string_errors =>
        Normal (string_errors
                ++ match value with
                   | VArr items =>
                       if is_type fs "array"
                       then array_checks fieldName fs (Z.of_nat (length items))
                       else []
                   | _ => []
                   end
                ++ match value with
                   | VObj props =>
                       if is_type fs "object"
                       then object_checks fieldName fs props
                       else []
                   | _ => []
                   end)
    end.

(** The loop [for (const [fieldName, fieldSchema] of Object.entries(schema))]
    with its accumulator [errors]. *)
Fixpoint validate_loop (errors : list ValidationError) (schema : Schema)
  (body : list (string * Value)) : Completion (list ValidationError) :=
  match schema with
  | [] => Normal errors
  | (fieldName, fs) :: rest =>
      match validate_field fieldName fs (get body fieldName) with
      | Thrown => Thrown
      | Normal pushed => validate_loop (errors ++ pushed) rest body
      end
  end.

Definition validate (schema : Schema) (body : list (string * Value))
  : Completion (list ValidationError) :=
  validate_loop [] schema body.

(** [validateRequest(schema)]: the middleware. An exception inside the
    [try] is answered with status 500. *)
Definition validateRequest (schema : Schema) (req : Request)
  : Outcome ValidationError :=
  match validate schema (body req) with
  | Normal errors =>
      if (0 <? Z.of_nat (length errors))
      then Respond 400
             {| success := false; error := "Validation failed";
                Express.message := "Request validation failed";
                details := Some errors; retryAfter := None |}
      else Next req
  | Thrown =>
      Respond 500
        {| success := false; error := "Validation error";
           Express.message := "Internal validation error";
           details := None; retryAfter := None |}
  end.

End WithHost.

End Validation.

(** ** auth.js *)

Module Auth.
Import Js Express.

(** The two variables of [process.env] that auth.js reads. *)
Record Env : Type := {
  NODE_ENV : option string;
  API_KEY : option string
}.

(** Truthiness of an environment variable: set and not empty. *)
Definition env_set (v : option string) : bool :=
  match v with Some s => negb (String.eqb s "") | None => false end.

(** [process.env.NODE_ENV === 'development'] *)
Definition development (env : Env) : bool :=
  match NODE_ENV env with
  | Some s => String.eqb s "development"
  | None => false
  end.

(** [req.headers[name]] *)
Definition header (req : Request) (name : string) : Value :=
  match headers req !! name with Some s => VStr s | None => VUndefined end.

(** The array [locations] of [getApiKeyFromRequest]. *)
Definition locations (req : Request) : list Value :=
  [ header req "x-api-key";
    match headers req !! "authorization" with
    | Some s => VStr (replace_first "Bearer " s)
    | None => VUndefined
    end;
    header req "api-key";
    get (query req) "apiKey";
    get (body req) "apiKey" ].

(** The test [key && typeof key === 'string' && key.trim().length > 0]. *)
Definition usable (key : Value) : bool :=
  match key with
  | VStr s => negb (String.eqb s "") && (0 <? strlen (trim s))
  | _ => false
  end.

(** The loop [for (const key of locations)]; [None] is [null]. *)
Fixpoint first_usable (keys : list Value) : option string :=
  match keys with
  | [] => None
  | key :: rest =>
      if usable key
      then match key with VStr s => Some (trim s) | _ => None end
      else first_usable rest
  end.

Definition getApiKeyFromRequest (req : Request) : option string :=
  first_usable (locations req).

(** [isValidApiKey(apiKey)] *)
Definition isValidApiKey (env : Env) (apiKey : Value) : bool :=
  match apiKey with
  | VStr k =>
      if String.eqb k "" then false
      else if env_set (API_KEY env)
      then String.eqb k (default "" (API_KEY env))
      else if development env then 8 <=? strlen k
      else false
  | _ => false
  end.

Definition reply {D : Type} (err msg : string) : Reply D :=
  {| success := false; error := err; message := msg;
     details := None; retryAfter := None |}.

(** [authenticateRequest(req, res, next)] at time [now]. No statement of
    its [try] block throws on a [Request], so the 500 answer of the
    [catch] never arises. *)
Definition authenticateRequest {D : Type} (env : Env) (now : Z)
  (req : Request) : Outcome D :=
  if development env && negb (env_set (API_KEY env)) then Next req
  else
    match getApiKeyFromRequest req with
    | None =>
        Respond 401
          (reply "Authentication required"
                 "API key is required for this endpoint")
    | Some k =>
        if String.eqb k "" then
          Respond 401
            (reply "Authentication required"
                   "API key is required for this endpoint")
        else if negb (isValidApiKey env (VStr k)) then
          Respond 401
            (reply "Invalid API key" "The provided API key is invalid")
        else
          Next (set_auth {| apiKey := Some k; authenticated := true;
                            timestamp := Some now |} req)
    end.

(** [optionalAuthenticate(req, res, next)] at time [now]. *)
Definition optionalAuthenticate {D : Type} (env : Env) (now : Z)
  (req : Request) : Outcome D :=
  match getApiKeyFromRequest req with
  | Some k =>
      if negb (String.eqb k "") && isValidApiKey env (VStr k)
      then Next (set_auth {| apiKey := Some k; authenticated := true;
                             timestamp := Some now |} req)
      else Next (set_auth {| apiKey := None; authenticated := false;
                             timestamp := Some now |} req)
  | None =>
      Next (set_auth {| apiKey := None; authenticated := false;
                        timestamp := Some now |} req)
  end.

(** *** createApiKeyRateLimit

    The closure keeps [requests], a [Map] from key to timestamps; one call
    of the middleware is a step from one map to the next. *)

(** [timestamps.filter(ts => ts > windowStart)] *)
Definition recent (windowStart : Z) (timestamps : list Z) : list Z :=
  filter (fun ts => windowStart < ts) timestamps.

(** One turn of the clean-up loop, on the entry [key], [timestamps]. *)
Definition cleanup_entry (windowStart : Z) (key : string)
  (timestamps : list Z) (requests : gmap string (list Z))
  : gmap string (list Z) :=
  let validTimestamps := recent windowStart timestamps in
  if (Z.of_nat (length validTimestamps) =? 0) then delete key requests
  else <[key := validTimestamps]> requests.

(** The loop [for (const [key, timestamps] of requests.entries())], which
    updates [requests] while it visits each of its entries once. *)
Definition cleanup (windowStart : Z) (requests : gmap string (list Z))
  : gmap string (list Z) :=
  map_fold (cleanup_entry windowStart) requests requests.

(** [req.auth?.apiKey || req.ip] *)
Definition limit_key (req : Request) : string :=
  match auth req with
  | Some a =>
      match apiKey a with
      | Some k => if String.eqb k "" then ip req else k
      | None => ip req
      end
  | None => ip req
  end.

(** [Math.ceil(windowMs / 1000)] and [Math.round(windowMs / 1000)] for an
    integer [windowMs]. *)
Definition ceil_seconds (windowMs : Z) : Z := - ((- windowMs) / 1000).
Definition round_seconds (windowMs : Z) : Z := (windowMs + 500) / 1000.

(** The middleware returned by [createApiKeyRateLimit(windowMs,
    maxRequests)], called at time [now] with the map [requests]: the map
    it leaves and what it does with the request. *)
Definition rateLimit {D : Type} (windowMs maxRequests : Z) (now : Z)
  (requests : gmap string (list Z)) (req : Request)
  : gmap string (list Z) * Outcome D :=
  let apiKey := limit_key req in
  let windowStart := now - windowMs in
  let requests1 := cleanup windowStart requests in
  let keyRequests := default [] (requests1 !! apiKey) in
  let recentRequests := recent windowStart keyRequests in
  if (maxRequests <=? Z.of_nat (length recentRequests)) then
    (requests1,
     Respond 429
       {| success := false; error := "Rate limit exceeded";
          message := "Too many requests. Limit: " +:+ pretty maxRequests
                     +:+ " per " +:+ pretty (round_seconds windowMs)
                     +:+ " seconds";
          details := None;
          retryAfter := Some (ceil_seconds windowMs) |})
  else
    (<[apiKey := recentRequests ++ [now]]> requests1, Next req).

End Auth.

(** ** Routes *)

Module Routes.
Import Js Express Validation Auth.

(** [ocrSchema] of routes/ocr.js *)
Definition ocrSchema : Schema :=
  [ ("image", {| type := Some "string"; required := true;
                 minLength := Some 1; maxLength := None; pattern := None;
                 format := None; minItems := None; maxItems := None;
                 requiredFields := None |});
    ("url", {| type := Some "string"; required := false;
               minLength := None; maxLength := None; pattern := None;
               format := Some "url"; minItems := None; maxItems := None;
               requiredFields := None |});
    ("language", {| type := Some "string"; required := false;
                    minLength := None; maxLength := None;
                    pattern := Some "^[a-z]{2,3}(-[A-Z]{2})?$";
                    format := None; minItems := None; maxItems := None;
                    requiredFields := None |});
    ("options", {| type := Some "object"; required := false;
                   minLength := None; maxLength := None; pattern := None;
                   format := None; minItems := None; maxItems := None;
                   requiredFields := None |}) ].

(** [pdfExtractSchema] of routes/pdf.js *)
Definition pdfExtractSchema : Schema :=
  [ ("pdfData", {| type := Some "string"; required := true;
                   minLength := Some 1; maxLength := None; pattern := None;
                   format := None; minItems := None; maxItems := None;
                   requiredFields := None |});
    ("url", {| type := Some "string"; required := false;
               minLength := None; maxLength := None; pattern := None;
               format := Some "url"; minItems := None; maxItems := None;
               requiredFields := None |});
    ("options", {| type := Some "object"; required := false;
                   minLength := None; maxLength := None; pattern := None;
                   format := None; minItems := None; maxItems := None;
                   requiredFields := None |}) ].

(** The handlers registered ahead of the business logic by
    [router.post(path, authenticateRequest, validateRequest(schema), ...)],
    in routes/ocr.js, routes/pdf.js and routes/ai.js alike. *)
Definition guards (host : Host) (env : Env) (now : Z) (schema : Schema)
  : list (Request -> Outcome ValidationError) :=
  [ authenticateRequest env now; validateRequest host schema ].

(** What a request meets before the route's own handler. *)
Definition enter (host : Host) (env : Env) (now : Z) (schema : Schema)
  (req : Request) : Outcome ValidationError :=
  run (guards host env now schema) req.

End Routes.

(** ** A reference host

    The theorems below hold for every [Host]. The closed examples need one:
    [RefHost.host] reads a fragment of the pattern syntax (literal
    characters, [.], [|], groups, character classes with ranges and
    negation, the postfix operators [*], [+], [?] and [{n}], [{n,}],
    [{n,m}] with an optional lazy mark, [^] in front and [$] at the end)
    and searches by derivatives. On that fragment it answers as the
    JavaScript constructor does, which rejects an unclosed or unopened
    group, an unclosed class, a range or a count out of order and a
    repetition of nothing; no example uses a pattern outside the
    fragment. For [new URL(s)] it has the test for a scheme, without which
    the constructor throws; the examples give it no other string to
    judge. *)

Module RefHost.
Import Regex.

(** Where the reader is inside a character class: at its start, after a
    range, after a single character, or after a character and a dash. *)
Inductive ClassPos : Type :=
| Fresh
| NoPrev
| Prev (c : ascii)
| Dash (c : ascii).

(** Outside a class and a count, inside a class (negated or not, with the
    characters collected so far), or inside the braces of a count. *)
Inductive Mode : Type :=
| Plain
| InClass (negated : bool) (set : ascii -> bool) (pos : ClassPos)
| InCount (lo : option nat) (comma : bool) (hi : option nat).

(** The state of the one-pass reader: what may precede a match of the
    current alternative of the whole pattern (nothing after [^], anything
    otherwise), the alternatives and the sequence read so far in the
    current group, the last atom, which may still take a postfix operator,
    with the number of marks it has taken, the enclosing groups, and the
    mode. *)
Record Reader : Type := {
  lead : re;
  alts : option re;
  seq : re;
  last : option (re * nat);
  outer : list (option re * re);
  mode : Mode
}.

Definition close_seq (st : Reader) : re :=
  match last st with
  | Some (a, _) => Cat (seq st) a
  | None => seq st
  end.

Definition close_alt (st : Reader) : re :=
  match alts st with
  | Some a => Alt a (close_seq st)
  | None => close_seq st
  end.

Definition any : re := Star (Class (fun _ => true)).

(** An alternative of the whole pattern, as what the whole subject must
    match: the alternative between what may precede and what may follow
    it. *)
Definition close_top (st : Reader) (follow : re) : re :=
  let alt := Cat (lead st) (Cat (close_seq st) follow) in
  match alts st with
  | Some a => Alt a alt
  | None => alt
  end.

Definition push_atom (a : re) (st : Reader) : Reader :=
  {| lead := lead st; alts := alts st; seq := close_seq st;
     last := Some (a, O); outer := outer st; mode := Plain |}.

Definition set_last (a : re) (marks : nat) (st : Reader) : Reader :=
  {| lead := lead st; alts := alts st; seq := seq st;
     last := Some (a, marks); outer := outer st; mode := Plain |}.

Definition set_mode (m : Mode) (st : Reader) : Reader :=
  {| lead := lead st; alts := alts st; seq := seq st; last := last st;
     outer := outer st; mode := m |}.

Definition is_digit (c : ascii) : bool :=
  let n := nat_of_ascii c in ((48 <=? n) && (n <=? 57))%nat.

Definition literal (c : ascii) : bool :=
  let n := nat_of_ascii c in
  (is_digit c || (65 <=? n) && (n <=? 90)
   || (97 <=? n) && (n <=? 122) || (n =? 32) || (n =? 45) || (n =? 95)
   || (n =? 64))%nat.

(** [.] matches any character but a line terminator. *)
Definition dot (c : ascii) : bool :=
  let n := nat_of_ascii c in negb ((n =? 10) || (n =? 13))%nat.

Definition in_range (lo hi c : ascii) : bool :=
  ((nat_of_ascii lo <=? nat_of_ascii c)
   && (nat_of_ascii c <=? nat_of_ascii hi))%nat.

Definition add (set : ascii -> bool) (more : ascii -> bool) (c : ascii)
  : bool :=
  set c || more c.

Fixpoint power (r : re) (n : nat) : re :=
  match n with
  | O => Eps
  | S n' => Cat r (power r n')
  end.

(** [r{lo,hi}], and [r{lo,}] when [hi] is [None]. *)
Definition repeat (r : re) (lo : nat) (hi : option nat) : re :=
  match hi with
  | Some h => Cat (power r lo) (power (Alt Eps r) (h - lo))
  | None => Cat (power r lo) (Star r)
  end.

(** One character inside a class. *)
Definition step_class (negated : bool) (set : ascii -> bool) (pos : ClassPos)
  (c : ascii) (st : Reader) : option Reader :=
  if Ascii.eqb c "]" then
    let set' := match pos with
                | Dash _ => add set (Ascii.eqb "-")
                | _ => set
                end in
    Some (push_atom (Class (fun a => xorb negated (set' a))) st)
  else if Ascii.eqb c "^" && match pos with Fresh => true | _ => false end
  then Some (set_mode (InClass true set NoPrev) st)
  else if literal c || Ascii.eqb c "." || Ascii.eqb c "^" then
    match pos with
    | Dash lo =>
        if (nat_of_ascii lo <=? nat_of_ascii c)%nat
        then Some (set_mode (InClass negated (add set (in_range lo c)) NoPrev)
                     st)
        else None
    | Prev p =>
        if Ascii.eqb c "-" then Some (set_mode (InClass negated set (Dash p)) st)
        else Some (set_mode (InClass negated (add set (Ascii.eqb c)) (Prev c))
                     st)
    | _ =>
        Some (set_mode (InClass negated (add set (Ascii.eqb c)) (Prev c)) st)
    end
  else None.

Definition digit_value (c : ascii) : nat := (nat_of_ascii c - 48)%nat.

Definition push_digit (n : option nat) (c : ascii) : option nat :=
  Some (10 * default O n + digit_value c)%nat.

(** One character inside the braces of a count. *)
Definition step_count (lo : option nat) (comma : bool) (hi : option nat)
  (c : ascii) (st : Reader) : option Reader :=
  if is_digit c then
    if comma then Some (set_mode (InCount lo true (push_digit hi c)) st)
    else Some (set_mode (InCount (push_digit lo c) false None) st)
  else if Ascii.eqb c "," then
    match lo, comma with
    | Some _, false => Some (set_mode (InCount lo true None) st)
    | _, _ => None
    end
  else if Ascii.eqb c "}" then
    match lo, last st with
    | Some n, Some (a, O) =>
        match comma, hi with
        | false, _ => Some (set_last (repeat a n (Some n)) 1%nat st)
        | true, None => Some (set_last (repeat a n None) 1%nat st)
        | true, Some h =>
            if (n <=? h)%nat then Some (set_last (repeat a n (Some h)) 1%nat st)
            else None
        end
    | _, _ => None
    end
  else None.

(** One character outside classes and counts. *)
Definition step_plain (c : ascii) (st : Reader) : option Reader :=
  if Ascii.eqb c "(" then
    Some {| lead := lead st; alts := None; seq := Eps; last := None;
            outer := (alts st, close_seq st) :: outer st; mode := Plain |}
  else if Ascii.eqb c ")" then
    match outer st with
    | [] => None
    | (a, s) :: rest =>
        Some {| lead := lead st; alts := a; seq := s;
                last := Some (close_alt st, O); outer := rest;
                mode := Plain |}
    end
  else if Ascii.eqb c "|" then
    match outer st with
    | [] =>
        Some {| lead := any; alts := Some (close_top st any); seq := Eps;
                last := None; outer := []; mode := Plain |}
    | _ =>
        Some {| lead := lead st; alts := Some (close_alt st); seq := Eps;
                last := None; outer := outer st; mode := Plain |}
    end
  else if Ascii.eqb c "*" then
    match last st with
    | Some (a, O) => Some (set_last (Star a) 1%nat st)
    | _ => None
    end
  else if Ascii.eqb c "+" then
    match last st with
    | Some (a, O) => Some (set_last (Plus a) 1%nat st)
    | _ => None
    end
  else if Ascii.eqb c "?" then
    match last st with
    | Some (a, O) => Some (set_last (Alt Eps a) 1%nat st)
    | Some (a, S O) => Some (set_last a 2%nat st)
    | _ => None
    end
  else if Ascii.eqb c "{" then
    match last st with
    | Some (_, O) => Some (set_mode (InCount None false None) st)
    | _ => None
    end
  else if Ascii.eqb c "[" then
    Some (set_mode (InClass false (fun _ => false) Fresh) st)
  else if Ascii.eqb c "." then Some (push_atom (Class dot) st)
  else if literal c then Some (push_atom (chr c) st)
  else None.

Definition step (c : ascii) (st : Reader) : option Reader :=
  match mode st with
  | Plain => step_plain c st
  | InClass negated set pos => step_class negated set pos c st
  | InCount lo comma hi => step_count lo comma hi c st
  end.

(** The pattern ends well outside every group, class and count; [follow]
    is what may follow a match of its last alternative. *)
Definition finish (st : Reader) (follow : re) : option re :=
  match outer st, mode st with
  | [], Plain => Some (close_top st follow)
  | _, _ => None
  end.

(** Reads the pattern up to its end; a final [$] is the end anchor. *)
Fixpoint read (s : string) (st : Reader) : option re :=
  match s with
  | EmptyString => finish st any
  | String c rest =>
      if Ascii.eqb c "$" && String.eqb rest "" then finish st Eps
      else
        match step c st with
        | Some st' => read rest st'
        | None => None
        end
  end.

Definition start (lead : re) : Reader :=
  {| lead := lead; alts := None; seq := Eps; last := None; outer := [];
     mode := Plain |}.

(** [new RegExp(pattern)], as the regular expression that the whole
    subject must match for [test] to hold; a [^] in front is the start
    anchor of the first alternative. *)
Definition compile (pat : string) : option re :=
  match pat with
  | String c rest =>
      if Ascii.eqb c "^" then read rest (start Eps) else read pat (start any)
  | EmptyString => read pat (start any)
  end.

(** Whether [s] begins with a URL scheme and a colon, which [new URL(s)]
    requires of a string given without a base. *)
Fixpoint scheme_rest (s : string) : bool :=
  match s with
  | String c rest =>
      if Ascii.eqb c ":" then true
      else
        let n := nat_of_ascii c in
        ((48 <=? n) && (n <=? 57) || (65 <=? n) && (n <=? 90)
         || (97 <=? n) && (n <=? 122) || (n =? 43) || (n =? 45)
         || (n =? 46))%nat
        && scheme_rest rest
  | EmptyString => false
  end.

Definition has_scheme (s : string) : bool :=
  match s with
  | String c rest =>
      let n := nat_of_ascii c in
      ((65 <=? n) && (n <=? 90) || (97 <=? n) && (n <=? 122))%nat
      && scheme_rest rest
  | EmptyString => false
  end.

Definition host : Validation.Host :=
  {| Validation.regexp := re;
     Validation.RegExp_new := compile;
     Validation.RegExp_test := matches;
     Validation.URL_new := has_scheme |}.

End RefHost.

(** ** The language of a regular expression *)

Module RegexLang.
Import Regex.

(** [lang r s]: the string [s] belongs to the language of [r]. *)
Inductive lang : re -> string -> Prop :=
| lang_eps : lang Eps ""
| lang_class (p : ascii -> bool) (c : ascii) :
    p c = true -> lang (Class p) (String c "")
| lang_cat (r1 r2 : re) (s1 s2 : string) :
    lang r1 s1 -> lang r2 s2 -> lang (Cat r1 r2) (s1 +:+ s2)
| lang_alt_l (r1 r2 : re) (s : string) : lang r1 s -> lang (Alt r1 r2) s
| lang_alt_r (r1 r2 : re) (s : string) : lang r2 s -> lang (Alt r1 r2) s
| lang_star_nil (r : re) : lang (Star r) ""
| lang_star_app (r : re) (s1 s2 : string) :
    lang r s1 -> lang (Star r) s2 -> lang (Star r) (s1 +:+ s2).

(** Every character of [s] passes [p]. *)
Fixpoint all_chars (p : ascii -> bool) (s : string) : bool :=
  match s with
  | EmptyString => true
  | String c rest => p c && all_chars p rest
  end.

(** [c] is not the character [sep]. *)
Definition not_char (sep c : ascii) : bool := negb (Ascii.eqb c sep).

(** The expression of a literal text. *)
Fixpoint lit (w : string) : re :=
  match w with
  | EmptyString => Eps
  | String c rest => Cat (chr c) (lit rest)
  end.

End RegexLang.

(** ** The specification's vocabulary

    Definitions that follow the words of the specification, to be compared
    with the code above. *)

Module Spec.
Import Js Express Validation Auth.

(** The rational value of a finite float. *)
Definition SF2Q (x : spec_float) : option Q :=
  match x with
  | S754_zero _ => Some 0%Q
  | S754_finite s m e =>
      let n := if s then Z.neg m else Z.pos m in
      Some (match e with
            | Zneg p => (n # (2 ^ p)%positive)%Q
            | _ => inject_Z (n * 2 ^ e)
            end)
  | _ => None
  end.

(** "a whole number" *)
Definition whole_number (v : Value) : Prop :=
  exists x q z, v = VNum x /\ SF2Q x = Some q /\ (q == inject_Z z)%Q.

(** "a finite, non-NaN numeric value" *)
Definition finite_number (v : Value) : Prop :=
  exists x q, v = VNum x /\ SF2Q x = Some q.

(** A numeric value that is not NaN; it may be infinite. *)
Definition number_not_nan (v : Value) : Prop :=
  exists x, v = VNum x /\ x <> S754_nan.

(** *** The key resolver, in the specification's words *)

(** "a [Bearer ] prefix stripped" *)
Definition strip_prefix (pre s : string) : string :=
  if String.prefix pre s then drop_chars (String.length pre) s else s.

(** "A candidate is accepted only if it is a string and its trimmed form
    has length > 0; the trimmed form is returned." *)
Definition accepted (candidate : Value) : option string :=
  match candidate with
  | VStr s => if (0 <? strlen (trim s)) then Some (trim s) else None
  | _ => None
  end.

(** The five locations, in the fixed priority order. *)
Definition candidates (req : Request) : list Value :=
  [ header req "x-api-key";
    match headers req !! "authorization" with
    | Some s => VStr (strip_prefix "Bearer " s)
    | None => VUndefined
    end;
    header req "api-key";
    get (query req) "apiKey";
    get (body req) "apiKey" ].

(** "stopping at first non-empty result" *)
Definition first_accepted (cands : list Value) : option string :=
  head (omap accepted cands).

Definition resolveKey (req : Request) : option string :=
  first_accepted (candidates req).

(** *** The admission pipeline, in the specification's words

    "Validate, then Authenticate, then Rate-limit", the first failure
    ending the chain. The limiter is the one of auth.js with its map. *)
Definition admission (host : Host) (env : Env) (windowMs maxRequests : Z)
  (now : Z) (schema : Schema) (requests : gmap string (list Z))
  (req : Request) : gmap string (list Z) * Outcome ValidationError :=
  match validateRequest host schema req with
  | Respond c r => (requests, Respond c r)
  | Next req1 =>
      match authenticateRequest env now req1 with
      | Respond c r => (requests, Respond c r)
      | Next req2 => rateLimit windowMs maxRequests now requests req2
      end
  end.

(** *** Rate window entries *)

(** "timestamps older than [now - windowMs] dropped ..., and the key is
    removed entirely once its timestamp list is empty": what is left of
    one entry, [None] when the key goes. *)
Definition pruned (windowStart : Z) (timestamps : list Z)
  : option (list Z) :=
  let validTimestamps := recent windowStart timestamps in
  if (Z.of_nat (length validTimestamps) =? 0) then None
  else Some validTimestamps.

(** The timestamps of a key that count against the limit at [now]. *)
Definition counted (windowMs now : Z) (requests : gmap string (list Z))
  (key : string) : list Z :=
  recent (now - windowMs) (default [] (requests !! key)).

(** *** What it is for a payload to satisfy a rule *)

(** A field is missing when it is [undefined] or [null]; a required field
    is missing as well when it is the empty string. *)
Definition missing (fs : FieldSchema) (v : Value) : Prop :=
  v = VUndefined \/ v = VNull \/ (required fs = true /\ v = VStr "").

Definition at_least (bound : option Z) (n : Z) : Prop :=
  forall b, bound = Some b -> b <= n.

Definition at_most (bound : option Z) (n : Z) : Prop :=
  forall b, bound = Some b -> n <= b.

(** The empty pattern matches every string. *)
Definition matches_pattern (host : Host) (fs : FieldSchema) (s : string)
  : Prop :=
  forall p, pattern fs = Some p -> p <> "" ->
    exists r, RegExp_new host p = Some r /\ RegExp_test host r s = true.

(** "a permissive single-@ pattern": a local part, an [@], a domain, a
    dot and a tail, each part not empty and without white space or
    [@]. *)
Definition email_part (w : string) : Prop :=
  w <> ""
  /\ RegexLang.all_chars
       (fun c => negb (is_space c) && negb (Ascii.eqb c "@")) w = true.

Definition email_shaped (s : string) : Prop :=
  exists local domain tail,
    s = local +:+ "@" +:+ domain +:+ "." +:+ tail
    /\ email_part local /\ email_part domain /\ email_part tail.

(** "accepts any syntactically valid absolute URL": what the host's
    parser accepts. *)
Definition well_formatted (host : Host) (fs : FieldSchema) (s : string)
  : Prop :=
  (format fs = Some "url" -> URL_new host s = true)
  /\ (format fs = Some "email" -> email_shaped s).

(** "[kind]: one of {string, number, boolean, array, object, integer,
    float}" *)
Definition kinds : list string :=
  [ "string"; "number"; "boolean"; "array"; "object"; "integer"; "float" ].

(** The value [v] is of the kind [t]. A string, a boolean, an array and
    an object are what their names say; "integer requires a whole
    number"; a number and a float are any number but NaN (with the
    infinities: the reading of the numeric kinds that the code supports).
    No value is of a kind outside the seven. *)
Definition of_kind (t : string) (v : Value) : Prop :=
  (t = "string" /\ exists s, v = VStr s)
  \/ (t = "number" /\ number_not_nan v)
  \/ (t = "boolean" /\ exists b, v = VBool b)
  \/ (t = "array" /\ exists items, v = VArr items)
  \/ (t = "object" /\ exists props, v = VObj props)
  \/ (t = "integer" /\ whole_number v)
  \/ (t = "float" /\ number_not_nan v).

(** A missing field satisfies an optional rule only. A field that is there
    must be of the rule's kind and meet the constraints that go with that
    kind. *)
Definition satisfies (host : Host) (fs : FieldSchema) (v : Value) : Prop :=
  (missing fs v -> required fs = false)
  /\ (~ missing fs v ->
      (forall t, type fs = Some t -> of_kind t v)
      /\ (forall s, v = VStr s -> type fs = Some "string" ->
            at_least (minLength fs) (strlen s)
            /\ at_most (maxLength fs) (strlen s)
            /\ matches_pattern host fs s
            /\ well_formatted host fs s)
      /\ (forall items, v = VArr items -> type fs = Some "array" ->
            at_least (minItems fs) (Z.of_nat (length items))
            /\ at_most (maxItems fs) (Z.of_nat (length items)))
      /\ (forall props names, v = VObj props -> type fs = Some "object" ->
            requiredFields fs = Some names ->
            forall name, In name names -> has_property props name = true)).

(** "missing + required: REQUIRED_FIELD, stop further checks for that
    field. Missing + optional: skip. Present: kind check first; kind
    mismatch: INVALID_TYPE and skip remaining checks for that field. Kind
    match: apply length/pattern/format/item-count/subfield checks as
    applicable, each independently appended to the error list."

    [owed host name fs v e]: by these words the rule [fs] of the field
    [name] owes the error [e] to the value [v]. The empty pattern matches
    every string. *)
Definition owed (host : Host) (name : string) (fs : FieldSchema)
  (v : Value) (e : ValidationError) : Prop :=
  match e with
  | RequiredField f => f = name /\ required fs = true /\ missing fs v
  | InvalidType f expected actual =>
      f = name /\ ~ missing fs v /\ type fs = Some expected
      /\ ~ of_kind expected v /\ actual = typeof v
  | MinLength f b n =>
      f = name /\ ~ missing fs v /\ type fs = Some "string"
      /\ minLength fs = Some b
      /\ exists s, v = VStr s /\ n = strlen s /\ n < b
  | MaxLength f b n =>
      f = name /\ ~ missing fs v /\ type fs = Some "string"
      /\ maxLength fs = Some b
      /\ exists s, v = VStr s /\ n = strlen s /\ b < n
  | InvalidPattern f p =>
      f = name /\ ~ missing fs v /\ type fs = Some "string"
      /\ pattern fs = Some p /\ p <> ""
      /\ exists s r, v = VStr s /\ RegExp_new host p = Some r
                     /\ RegExp_test host r s = false
  | InvalidUrl f =>
      f = name /\ ~ missing fs v /\ type fs = Some "string"
      /\ format fs = Some "url"
      /\ exists s, v = VStr s /\ URL_new host s = false
  | InvalidEmail f =>
      f = name /\ ~ missing fs v /\ type fs = Some "string"
      /\ format fs = Some "email"
      /\ exists s, v = VStr s /\ ~ email_shaped s
  | MinItems f b n =>
      f = name /\ type fs = Some "array" /\ minItems fs = Some b
      /\ exists items, v = VArr items /\ n = Z.of_nat (length items) /\ n < b
  | MaxItems f b n =>
      f = name /\ type fs = Some "array" /\ maxItems fs = Some b
      /\ exists items, v = VArr items /\ n = Z.of_nat (length items) /\ b < n
  | RequiredObjectField f sub =>
      f = name /\ type fs = Some "object"
      /\ exists props names,
           v = VObj props /\ requiredFields fs = Some names
           /\ In sub names /\ has_property props sub = false
  end.

(** Every pattern of the schema is a regular expression for the host. *)
Definition patterns_compile (host : Host) (schema : Schema) : Prop :=
  forall name fs p, In (name, fs) schema -> pattern fs = Some p ->
    p <> "" -> exists r, RegExp_new host p = Some r.

(** No upper bound of the schema is zero. *)
Definition upper_bounds_nonzero (schema : Schema) : Prop :=
  forall name fs, In (name, fs) schema ->
    maxLength fs <> Some 0 /\ maxItems fs <> Some 0.

(** Every kind that the schema names is one of the seven. *)
Definition kinds_known (schema : Schema) : Prop :=
  forall name fs t, In (name, fs) schema -> type fs = Some t -> In t kinds.

End Spec.


(** ** Successive calls of one limiter *)

Module Traffic.
Import Js Express Auth Spec.

(** The calls that reach one limiter, each with the time at which it
    arrives. The map of the closure goes from one call to the next. *)
Fixpoint serve {D : Type} (windowMs maxRequests : Z)
  (requests : gmap string (list Z)) (calls : list (Z * Request))
  : gmap string (list Z) * list (Outcome D) :=
  match calls with
  | [] => (requests, [])
  | (now, req) :: rest =>
      let step := rateLimit windowMs maxRequests now requests req in
      let later := serve windowMs maxRequests step.1 rest in
      (later.1, step.2 :: later.2)
  end.

(** The calls that were let through, with their time and their key. *)
Fixpoint grants {D : Type} (calls : list (Z * Request))
  (outcomes : list (Outcome D)) : list (Z * string) :=
  match calls, outcomes with
  | (now, req) :: calls', Next _ :: outcomes' =>
      (now, limit_key req) :: grants calls' outcomes'
  | _ :: calls', _ :: outcomes' => grants calls' outcomes'
  | _, _ => []
  end.

(** The clock does not run backwards from [t0] on. *)
Fixpoint monotone (t0 : Z) (calls : list (Z * Request)) : Prop :=
  match calls with
  | [] => True
  | (now, _) :: rest => t0 <= now /\ monotone now rest
  end.

(** The times in [log] at which [key] was let through. *)
Definition times_of (key : string) (log : list (Z * string)) : list Z :=
  map fst (filter (fun e => e.2 = key) log).

(** The guarantee of the window, on a log of grants: whenever a call was
    let through, fewer than [maxRequests] earlier grants of its key lay
    within the window that ends at it. *)
Definition within_limit (windowMs maxRequests : Z) (log : list (Z * string))
  : Prop :=
  forall before t k after,
    log = before ++ (t, k) :: after ->
    Z.of_nat (length (recent (t - windowMs) (times_of k before)))
    < maxRequests.

(** The map agrees with the log of grants on every window that ends at
    [t0] or later. *)
Definition agrees (windowMs t0 : Z) (requests : gmap string (list Z))
  (log : list (Z * string)) : Prop :=
  forall k now, t0 <= now ->
    counted windowMs now requests k
    = recent (now - windowMs) (times_of k log).

End Traffic.

(** ** What justifies an error of the validator *)

Module Errors.
Import Js Express Validation.

(** The error [e] is owed to the rule [fs] of the field [name], whose
    value in the payload is [v]: the rule asks for what the error says,
    and the value fails it by the figures that the error carries. *)
Definition justified (host : Host) (name : string) (fs : FieldSchema)
  (v : Value) (e : ValidationError) : Prop :=
  match e with
  | RequiredField f =>
      f = name /\ required fs = true
      /\ (v = VUndefined \/ v = VNull \/ v = VStr "")
  | InvalidType f expected actual =>
      f = name /\ type fs = Some expected /\ actual = typeof v
      /\ validateType v expected = false
  | MinLength f b n =>
      f = name /\ type fs = Some "string" /\ minLength fs = Some b
      /\ exists s, v = VStr s /\ n = strlen s /\ n < b
  | MaxLength f b n =>
      f = name /\ type fs = Some "string" /\ maxLength fs = Some b
      /\ exists s, v = VStr s /\ n = strlen s /\ b < n
  | InvalidPattern f p =>
      f = name /\ type fs = Some "string" /\ pattern fs = Some p
      /\ exists s r, v = VStr s /\ RegExp_new host p = Some r
                     /\ RegExp_test host r s = false
  | InvalidUrl f =>
      f = name /\ type fs = Some "string" /\ format fs = Some "url"
      /\ exists s, v = VStr s /\ URL_new host s = false
  | InvalidEmail f =>
      f = name /\ type fs = Some "string" /\ format fs = Some "email"
      /\ exists s, v = VStr s /\ isValidEmail s = false
  | MinItems f b n =>
      f = name /\ type fs = Some "array" /\ minItems fs = Some b
      /\ exists items, v = VArr items /\ n = Z.of_nat (length items) /\ n < b
  | MaxItems f b n =>
      f = name /\ type fs = Some "array" /\ maxItems fs = Some b
      /\ exists items, v = VArr items /\ n = Z.of_nat (length items) /\ b < n
  | RequiredObjectField f sub =>
      f = name /\ type fs = Some "object"
      /\ exists props names,
           v = VObj props /\ requiredFields fs = Some names
           /\ In sub names /\ has_property props sub = false
  end.

(** The rule [fs] makes the loop body throw on the value [v]. *)
Definition throws_on (host : Host) (fs : FieldSchema) (v : Value) : Prop :=
  exists s p,
    v = VStr s /\ (required fs = false \/ s <> "")
    /\ type fs = Some "string" /\ pattern fs = Some p /\ p <> ""
    /\ RegExp_new host p = None.

(** The five kinds that describe the shape of a value. *)
Definition shape_kinds : list string :=
  [ "string"; "number"; "boolean"; "array"; "object" ].

End Errors.

(** ** validation.js: what goes to the log *)

Module Sanitize.
Import Js.

(** JavaScript truthiness. *)
Definition truthy (v : Value) : bool :=
  match v with
  | VUndefined | VNull => false
  | VBool b => b
  | VNum (S754_zero _) | VNum S754_nan => false
  | VNum _ => true
  | VStr s => negb (String.eqb s "")
  | VArr _ | VObj _ | VFun => true
  end.

(** [o[k] = v] on a plain object: the property is overwritten where it
    stands, or added at the end. *)
Fixpoint set (props : list (string * Value)) (k : string) (v : Value)
  : list (string * Value) :=
  match props with
  | [] => [(k, v)]
  | (k', v') :: rest =>
      if String.eqb k' k then (k, v) :: rest else (k', v') :: set rest k v
  end.

Definition sensitiveFields : list string :=
  [ "apiKey"; "password"; "token"; "secret"; "key" ].

(** One turn of the loop over [sensitiveFields]. *)
Definition redact (sanitized : list (string * Value)) (field : string)
  : list (string * Value) :=
  if truthy (get sanitized field)
  then set sanitized field (VStr "[REDACTED]")
  else sanitized.

(** [sanitizeRequestBody(body)]; the copy [{ ...body }] has the
    properties of [body]. *)
Definition sanitizeRequestBody (body : list (string * Value))
  : list (string * Value) :=
  fold_left redact sensitiveFields body.

End Sanitize.

(** ** validation.js: customValidators *)

Module CustomValidators.
Import Js Regex RegexLang.

Definition is_alpha (c : ascii) : bool :=
  let n := nat_of_ascii c in
  ((65 <=? n) && (n <=? 90) || (97 <=? n) && (n <=? 122))%nat.

Definition is_alnum (c : ascii) : bool :=
  let n := nat_of_ascii c in
  (is_alpha c || (48 <=? n) && (n <=? 57))%nat.

(** The class [[A-Za-z0-9+/=]]. *)
Definition is_base64_char (c : ascii) : bool :=
  is_alnum c || Ascii.eqb c "+" || Ascii.eqb c "/" || Ascii.eqb c "=".

(** [base64DataUrlRegex]: between [^] and [$], the text [data:], a letter
    and any number of letters and digits, a slash, one or more letters and
    digits, the text [;base64,] and one or more characters of the class
    above. *)
Definition base64DataUrlRegex : re :=
  Cat (lit "data:")
    (Cat (Cat (Cat (Class is_alpha) (Star (Class is_alnum)))
            (Cat (chr "/") (Cat (Class is_alnum) (Star (Class is_alnum)))))
       (Cat (lit ";base64,") (Plus (Class is_base64_char)))).

Definition image_formats : list string :=
  [ "png"; "jpeg"; "jpg"; "gif"; "webp"; "bmp" ].

(** [imageDataUrlRegex]: between [^] and [$], the text [data:image/], one
    of [png], [jpeg], [jpg], [gif], [webp], [bmp], the text [;base64,] and
    one or more characters of the class above. *)
Definition imageDataUrlRegex : re :=
  Cat (lit "data:image/")
    (Cat (Alt (lit "png")
            (Alt (lit "jpeg")
               (Alt (lit "jpg") (Alt (lit "gif") (Alt (lit "webp") (lit "bmp"))))))
       (Cat (lit ";base64,") (Plus (Class is_base64_char)))).

(** [pdfDataUrlRegex]: between [^] and [$], the text
    [data:application/pdf;base64,] and one or more characters of the class
    above. *)
Definition pdfDataUrlRegex : re :=
  Cat (lit "data:application/pdf;base64,") (Plus (Class is_base64_char)).

(** [customValidators.isBase64DataUrl(value, type)]; the second argument
    is not used. *)
Definition isBase64DataUrl (value type : Value) : bool :=
  match value with
  | VStr s => matches base64DataUrlRegex s
  | _ => false
  end.

(** [customValidators.isImageDataUrl(value)] *)
Definition isImageDataUrl (value : Value) : bool :=
  match value with
  | VStr s => matches imageDataUrlRegex s
  | _ => false
  end.

(** [customValidators.isPdfDataUrl(value)] *)
Definition isPdfDataUrl (value : Value) : bool :=
  match value with
  | VStr s => matches pdfDataUrlRegex s
  | _ => false
  end.

End CustomValidators.

(** ** Strings in the route handlers *)

Module Text.
Import Js.

(** [s.split(sep)] for a separator of one character: the pieces between
    the separators, at least one. *)
Fixpoint split (sep : ascii) (s : string) : list string :=
  match s with
  | EmptyString => [EmptyString]
  | String c rest =>
      if Ascii.eqb c sep then EmptyString :: split sep rest
      else match split sep rest with
           | piece :: pieces => String c piece :: pieces
           | [] => [String c EmptyString]
           end
  end.

(** [pieces.join(sep)] *)
Fixpoint join (sep : string) (pieces : list string) : string :=
  match pieces with
  | [] => EmptyString
  | [piece] => piece
  | piece :: rest => piece +:+ sep +:+ join sep rest
  end.

(** [s.substring(0, n)] for an integer [n]: a negative [n] counts as 0
    and one beyond the end as the length. *)
Fixpoint take_chars (n : nat) (s : string) : string :=
  match n, s with
  | S n', String c rest => String c (take_chars n' rest)
  | _, _ => EmptyString
  end.

Definition substring0 (s : string) (n : Z) : string :=
  take_chars (Z.to_nat n) s.

(** [s.replace(/\s+/g, ' ')]: every run of white space becomes one
    space, written where the run ends. *)
Fixpoint collapse (s : string) : string :=
  match s with
  | EmptyString => EmptyString
  | String c rest =>
      if is_space c then
        match rest with
        | String c' _ =>
            if is_space c' then collapse rest else String " " (collapse rest)
        | EmptyString => String " " EmptyString
        end
      else String c (collapse rest)
  end.

Definition newline : ascii := "010"%char.

(** [line.length > 0] *)
Definition nonempty (line : string) : bool := 0 <? strlen line.

(** [cleanExtractedText(text)] of routes/ocr.js and routes/pdf.js, on
    the string the recogniser returns; [!text] holds of the empty
    string. *)
Definition cleanExtractedText (text : string) : string :=
  if String.eqb text "" then ""
  else
    trim (collapse
            (join (String newline "")
               (List.filter nonempty (map trim (split newline text))))).

(** [s] without the white space at its end: the second half of
    [trim]. *)
Definition trim_end (s : string) : string :=
  string_rev (trim_start (string_rev s)).

(** The pieces of [s] between the characters that pass [p]. *)
Fixpoint fields (p : ascii -> bool) (s : string) : list string :=
  match s with
  | EmptyString => [EmptyString]
  | String c rest =>
      if p c then EmptyString :: fields p rest
      else match fields p rest with
           | piece :: pieces => String c piece :: pieces
           | [] => [String c EmptyString]
           end
  end.

(** The words of [s]: its pieces between white-space characters that are
    not empty. *)
Definition words (s : string) : list string :=
  List.filter nonempty (fields is_space s).

(** A word: not empty and without white space. *)
Definition is_word (w : string) : bool :=
  nonempty w && RegexLang.all_chars (fun c => negb (is_space c)) w.

End Text.

(** ** The first steps of the route handlers *)

Module Handlers.
Import Js Text.

(** What a handler has in hand once it has looked at the data URL of the
    body: the answer 400 with its [error] and [message], or the value of
    [base64Data], which is [undefined] ([None]) when the URL has no
    comma. *)
Inductive Prelude : Type :=
| BadFormat (error message : string)
| Base64Data (data : option string).

(** [POST /ocr]: the test [image.startsWith('data:image/')] and
    [image.split(',')[1]]. *)
Definition ocr_prelude (image : string) : Prelude :=
  if negb (String.prefix "data:image/" image)
  then BadFormat "Invalid image format"
         "Image must be a valid data URL starting with data:image/"
  else Base64Data (nth_error (split "," image) 1).

(** [POST /pdf/extract]: the test
    [pdfData.startsWith('data:application/pdf;base64,')] and
    [pdfData.split(',')[1]]. *)
Definition pdf_prelude (pdfData : string) : Prelude :=
  if negb (String.prefix "data:application/pdf;base64," pdfData)
  then BadFormat "Invalid PDF format"
         "PDF data must be a valid base64 data URL starting with data:application/pdf;base64,"
  else Base64Data (nth_error (split "," pdfData) 1).

End Handlers.

(** ** chrome-extension/popup.js: the history of the assistant *)

Module Popup.
Import Js Text.

(** An entry of [this.history]; [id] is [Date.now()] and [timestamp] the
    time of [new Date()], both in milliseconds. *)
Record HistoryItem : Type := {
  id : Z;
  question : string;
  answer : string;
  timestamp : Z
}.

(** [addToHistory(question, answer)] as a step on [this.history], at the
    clock readings [now] and [stamp]. *)
Definition addToHistory (now stamp : Z) (question answer : string)
  (history : list HistoryItem) : list HistoryItem :=
  let historyItem :=
    {| id := now; question := question; answer := answer;
       timestamp := stamp |} in
  let history := historyItem :: history in
  if 50 <? Z.of_nat (length history) then take 50 history else history.

(** [this.history.find(h => h.id === itemId)] of [loadHistoryItem]. *)
Definition find_item (itemId : Z) (history : list HistoryItem)
  : option HistoryItem :=
  List.find (fun h => id h =? itemId) history.

(** [truncateText(text, maxLength)] *)
Definition truncateText (text : string) (maxLength : Z) : string :=
  if strlen text <=? maxLength then text
  else substring0 text maxLength +:+ "...".

(** What [renderHistory] shows of a history that is not empty: for each
    of the first ten entries its [data-id] and the two lines of text. *)
Definition rendered (history : list HistoryItem)
  : list (Z * string * string) :=
  map (fun item => (id item, truncateText (question item) 60,
                    truncateText (answer item) 80))
      (take 10 history).

(** One call of [addToHistory]: the two clock readings and the two
    arguments. *)
Record Call : Type := {
  call_now : Z;
  call_stamp : Z;
  call_question : string;
  call_answer : string
}.

Definition item_of (c : Call) : HistoryItem :=
  {| id := call_now c; question := call_question c;
     answer := call_answer c; timestamp := call_stamp c |}.

(** The history after the calls [calls], made in that order. *)
Definition after_calls (history : list HistoryItem) (calls : list Call)
  : list HistoryItem :=
  fold_left
    (fun h c =>
       addToHistory (call_now c) (call_stamp c) (call_question c)
         (call_answer c) h)
    calls history.

(** The body [sendToBackend] posts to [/ask-ai] from [askAI]: the
    trimmed question, the page content and [window.location.href]. *)
Definition ask_body (question : string) (pageContent : list (string * Value))
  (href : string) : list (string * Value) :=
  [ ("question", VStr question); ("context", VObj pageContent);
    ("url", VStr href) ].

(** The popup sets the header [Content-Type] only, and posts to
    [backendUrl] followed by the path: the request has none of the
    headers the key resolver reads, and no [apiKey] in its query. *)
Definition carries_no_key (req : Express.Request) : Prop :=
  Express.headers req !! "x-api-key" = None
  /\ Express.headers req !! "authorization" = None
  /\ Express.headers req !! "api-key" = None
  /\ get (Express.query req) "apiKey" = VUndefined.

End Popup.

(** ** routes/ai.js: the page content in the prompt *)

Module AskAI.
Import Js Text Validation.

(** [askAISchema] of routes/ai.js *)
Definition askAISchema : Schema :=
  [ ("question", {| type := Some "string"; required := true;
                    minLength := Some 1; maxLength := Some 2000;
                    pattern := None; format := None; minItems := None;
                    maxItems := None; requiredFields := None |});
    ("context", {| type := Some "object"; required := false;
                   minLength := None; maxLength := None; pattern := None;
                   format := None; minItems := None; maxItems := None;
                   requiredFields := None |});
    ("url", {| type := Some "string"; required := false;
               minLength := None; maxLength := None; pattern := None;
               format := Some "url"; minItems := None; maxItems := None;
               requiredFields := None |});
    ("selectedText", {| type := Some "string"; required := false;
                        minLength := None; maxLength := Some 5000;
                        pattern := None; format := None; minItems := None;
                        maxItems := None; requiredFields := None |}) ].

Definition maxContextLength : Z := 8000.

(** [truncatedText], from [context.textContent] when it is a string. *)
Definition truncatedText (textContent : string) : string :=
  if maxContextLength <? strlen textContent
  then substring0 textContent maxContextLength +:+ "..."
  else textContent.

End AskAI.

(** ** index.js: the origins CORS lets in *)

Module Cors.
Import Js Text.

(** [s.includes(c)] for a character [c]. *)
Fixpoint includes (c : ascii) (s : string) : bool :=
  match s with
  | EmptyString => false
  | String x rest => Ascii.eqb x c || includes c rest
  end.

(** [process.env.ALLOWED_ORIGINS?.split(',') || [...]]; the argument is
    the variable, [None] when it is not set. *)
Definition allowedOrigins (ALLOWED_ORIGINS : option string) : list string :=
  match ALLOWED_ORIGINS with
  | Some s => split "," s
  | None => [ "http://localhost:3000"; "chrome-extension://*" ]
  end.

(** The function given to [allowedOrigins.some]. *)
Definition origin_matches (origin allowedOrigin : string) : bool :=
  if includes "*" allowedOrigin
  then String.prefix (replace_first "*" allowedOrigin) origin
  else String.eqb origin allowedOrigin.

(** [corsOptions.origin(origin, callback)]: [true] for
    [callback(null, true)] and [false] for the callback with the error
    [Not allowed by CORS]. [None] is a request without [Origin]. *)
Definition origin_allowed (ALLOWED_ORIGINS : option string)
  (origin : option string) : bool :=
  match origin with
  | None => true
  | Some o =>
      if String.eqb o "" then true
      else existsb (origin_matches o) (allowedOrigins ALLOWED_ORIGINS)
  end.

End Cors.

(** ** routes/ocr.js: the batch route *)

Module Batch.
Import Js Text.

(** What happens to one image between [Buffer.from] and the end of
    [Tesseract.recognize]: a text with its confidence, an exception whose
    [message] the [catch] reads, or a thrown [null] or [undefined], on
    which reading [error.message] throws in its turn and the promise is
    rejected. *)
Inductive Recognition : Type :=
| Recognised (text : string) (confidence : Value)
| Failed (message : Value)
| FailedBadly (reason : Value).

(** An entry of [results] in the answer. *)
Record BatchItem : Type := {
  index : option nat;
  success : bool;
  text : option string;
  confidence : option Value;
  error : option Value
}.

(** An entry of what [Promise.allSettled] returns. *)
Inductive Settled : Type :=
| Fulfilled (value : BatchItem)
| Rejected (reason : Value).

Record Summary : Type := {
  total : Z;
  successful : Z;
  failed : Z
}.

(** The answer of the route: status 400 with [error] and [message], or
    status 200 with [success: true], [results] and [summary]. *)
Inductive BatchAnswer : Type :=
| BatchRefused (error message : string)
| BatchDone (results : list BatchItem) (summary : Summary).

Section WithRecogniser.

(** The recogniser, for the image at a position and its [base64Data]
    ([None] is [undefined]), and the message of the [TypeError] that
    [imageData.split] raises on a value that is not a string. *)
Variable recognise : nat -> option string -> Recognition.
Variable split_error : Value -> Value.

(** The function mapped over [images]. *)
Definition process (i : nat) (imageData : Value) : Settled :=
  match imageData with
  | VStr s =>
      match recognise i (nth_error (split "," s) 1) with
      | Recognised t c =>
          Fulfilled {| index := Some i; success := true;
                       text := Some (cleanExtractedText t);
                       confidence := Some c; error := None |}
      | Failed m =>
          Fulfilled {| index := Some i; success := false; text := None;
                       confidence := None; error := Some m |}
      | FailedBadly reason => Rejected reason
      end
  | v =>
      Fulfilled {| index := Some i; success := false; text := None;
                   confidence := None; error := Some (split_error v) |}
  end.

(** [r.status === 'fulfilled' && r.value.success] *)
Definition is_successful (r : Settled) : bool :=
  match r with Fulfilled v => success v | Rejected _ => false end.

(** [r.status === 'rejected' || !r.value.success] *)
Definition is_failed (r : Settled) : bool :=
  match r with Fulfilled v => negb (success v) | Rejected _ => true end.

(** [r.status === 'fulfilled' ? r.value : { success: false, error: r.reason }] *)
Definition reported (r : Settled) : BatchItem :=
  match r with
  | Fulfilled v => v
  | Rejected reason =>
      {| index := None; success := false; text := None; confidence := None;
         error := Some reason |}
  end.

(** The handler of [POST /ocr/batch] on [req.body.images]. *)
Definition batch (images : Value) : BatchAnswer :=
  match images with
  | VArr items =>
      if Z.of_nat (length items) =? 0
      then BatchRefused "Invalid images array"
             "Images must be a non-empty array"
      else if 10 <? Z.of_nat (length items)
      then BatchRefused "Too many images"
             "Maximum 10 images allowed per batch request"
      else
        let results := imap process items in
        BatchDone (map reported results)
          {| total := Z.of_nat (length items);
             successful := Z.of_nat (length (List.filter is_successful results));
             failed := Z.of_nat (length (List.filter is_failed results)) |}
  | _ =>
      BatchRefused "Invalid images array" "Images must be a non-empty array"
  end.

End WithRecogniser.

End Batch.

(** ** routes/health.js: the detailed check *)

Module Health.
Import Js.

Inductive Status : Type := healthy | unhealthy | degraded.

Definition status_eqb (a b : Status) : bool :=
  match a, b with
  | healthy, healthy | unhealthy, unhealthy | degraded, degraded => true
  | _, _ => false
  end.

(** How a call to a service ends: it returns, it throws an error whose
    [message] the [catch] of the check reads, or it throws [null] or
    [undefined], on which the [catch] of the check throws in its turn. *)
Inductive Probe : Type := Returns | Throws | ThrowsNothing.

Definition binary64 (z : Z) : spec_float := binary_normalize 53 1024 z 0 false.

(** [checkOpenAI()]: [None] when the check itself throws. The service is
    called only when the key is set. *)
Definition checkOpenAI (OPENAI_API_KEY : option string) (call : Probe)
  : option Status :=
  match OPENAI_API_KEY with
  | Some (String _ _) =>
      match call with
      | Returns => Some healthy
      | Throws => Some unhealthy
      | ThrowsNothing => None
      end
  | _ => Some unhealthy
  end.

(** [checkTesseract()] *)
Definition checkTesseract (call : Probe) : option Status :=
  match call with
  | Returns => Some healthy
  | Throws => Some unhealthy
  | ThrowsNothing => None
  end.

(** [isMemoryHealthy] of [checkSystemResources()], on the two numbers of
    [process.memoryUsage()]. *)
Definition isMemoryHealthy (heapUsed heapTotal : spec_float) : bool :=
  SFltb (SFmul 53 1024 (SFdiv 53 1024 heapUsed heapTotal) (binary64 100))
        (binary64 90).

Definition checkSystemResources (heapUsed heapTotal : spec_float) : Status :=
  if isMemoryHealthy heapUsed heapTotal then healthy else degraded.

(** [missing] of [checkEnvironmentVariables()], from the variables of
    [requiredVars] in [process.env]. *)
Definition missing_vars (env : list (string * option string)) : list string :=
  map fst
    (List.filter
       (fun '(_, v) =>
          negb match v with Some (String _ _) => true | _ => false end)
       env).

Definition checkEnvironmentVariables (OPENAI_API_KEY : option string)
  : Status :=
  if Z.of_nat (length (missing_vars [("OPENAI_API_KEY", OPENAI_API_KEY)])) =? 0
  then healthy else unhealthy.

(** The answer of [GET /health/detailed]: the status code, [success],
    [status], and the checks made, in the order of their keys. *)
Record Detailed : Type := {
  code : Z;
  success : bool;
  status : Status;
  checks : list (string * Status)
}.

Definition detailed (OPENAI_API_KEY : option string)
  (openai tesseract : Probe) (heapUsed heapTotal : spec_float) : Detailed :=
  match checkOpenAI OPENAI_API_KEY openai with
  | None => {| code := 503; success := false; status := unhealthy;
               checks := [] |}
  | Some o =>
      match checkTesseract tesseract with
      | None => {| code := 503; success := false; status := unhealthy;
                   checks := [("openai", o)] |}
      | Some t =>
          let checks :=
            [ ("openai", o); ("tesseract", t);
              ("system", checkSystemResources heapUsed heapTotal);
              ("environment", checkEnvironmentVariables OPENAI_API_KEY) ] in
          let allHealthy :=
            forallb (fun check => status_eqb (snd check) healthy) checks in
          {| code := if allHealthy then 200 else 503;
             success := allHealthy;
             status := if allHealthy then healthy else degraded;
             checks := checks |}
      end
  end.

End Health.

(** ** index.js: the application around the routes

    What a GET or POST request meets on its way to the handler of a
    route: the middleware that index.js mounts with [app.use], in the order of the
    file, and then the handlers that the router of the route registers
    ahead of its own. The middleware of the libraries is taken as they
    document it: helmet, compression and the logger call [next()]; cors
    asks [corsOptions.origin] about the [Origin] header and hands its
    error to [next]; express-rate-limit answers with the configured
    message and status 429 once the client has used up [max] in the
    window, and calls [next()] otherwise; the body parsers call [next()]
    or hand an error to [next]. *)

Module App.
Import Js Express Validation Auth Routes Cors.

(** What index.js reads of [process.env]: the variables of auth.js,
    [ALLOWED_ORIGINS], and [parseInt(process.env.RATE_LIMIT_WINDOW_MS)],
    which is [None] when it is [NaN]. *)
Record Config : Type := {
  env : Env;
  ALLOWED_ORIGINS : option string;
  RATE_LIMIT_WINDOW_MS : option Z
}.

(** An error handed to [next]: [error.status] and [error.message]. *)
Record Failure : Type := {
  status : option Z;
  failure_message : string
}.

(** What the libraries decide: whether express-rate-limit finds the
    client of the request over its limit, and the errors of
    [express.json] and [express.urlencoded]. *)
Record Libraries : Type := {
  limit_reached : Request -> bool;
  json_error : Request -> option Failure;
  urlencoded_error : Request -> option Failure
}.

(** The JSON bodies of the answers: the replies of auth.js and
    validation.js; the [message] of the limiter, which has [error] and
    [retryAfter] and no [success]; the body of the global error handler,
    which has [error], [message] and, in development, [stack]. *)
Inductive Body : Type :=
| GuardBody (reply : Reply ValidationError)
| LimiterBody (err : string) (retry : Z)
| FaultBody (err msg : string) (with_stack : bool).

(** The request reaches what comes next, or it is answered. *)
Inductive Served : Type :=
| Reaches (req : Request)
| Answers (code : Z) (body : Body).

Definition Stage : Type := Request -> Served.

(** Express runs the middleware in the order of registration. *)
Fixpoint through (stages : list Stage) (req : Request) : Served :=
  match stages with
  | [] => Reaches req
  | stage :: rest =>
      match stage req with
      | Reaches req' => through rest req'
      | Answers code body => Answers code body
      end
  end.

(** The global error handler, the last [app.use] of index.js. *)
Definition error_handler (cfg : Config) (e : Failure) : Served :=
  Answers
    (match status e with
     | Some c => if c =? 0 then 500 else c
     | None => 500
     end)
    (FaultBody "Internal server error"
       (if development (env cfg) then failure_message e
        else "Something went wrong")
       (development (env cfg))).

Definition helmet_stage : Stage := Reaches.

(** [cors(corsOptions)] *)
Definition cors_stage (cfg : Config) : Stage :=
  fun req =>
    if origin_allowed (ALLOWED_ORIGINS cfg) (headers req !! "origin")
    then Reaches req
    else error_handler cfg
           {| status := None; failure_message := "Not allowed by CORS" |}.

(** [parseInt(process.env.RATE_LIMIT_WINDOW_MS) || 15 * 60 * 1000] *)
Definition windowMs (cfg : Config) : Z :=
  match RATE_LIMIT_WINDOW_MS cfg with
  | Some n => if n =? 0 then 15 * 60 * 1000 else n
  | None => 15 * 60 * 1000
  end.

(** [limiter], with the [message] that index.js gives it. *)
Definition limiter_stage (lib : Libraries) (cfg : Config) : Stage :=
  fun req =>
    if limit_reached lib req
    then Answers 429
           (LimiterBody
              "Too many requests from this IP, please try again later."
              (ceil_seconds (windowMs cfg)))
    else Reaches req.

(** [express.json] and [express.urlencoded] *)
Definition parser_stage (cfg : Config) (parse : Request -> option Failure)
  : Stage :=
  fun req =>
    match parse req with
    | Some e => error_handler cfg e
    | None => Reaches req
    end.

Definition compression_stage : Stage := Reaches.

Definition logging_stage : Stage := Reaches.

(** A handler of auth.js or validation.js as a stage. *)
Definition guard_stage (m : Request -> Outcome ValidationError) : Stage :=
  fun req =>
    match m req with
    | Next req' => Reaches req'
    | Respond code reply => Answers code (GuardBody reply)
    end.

(** The [app.use] calls of index.js ahead of the routes. *)
Definition app_stages (lib : Libraries) (cfg : Config) : list Stage :=
  [ helmet_stage; cors_stage cfg; limiter_stage lib cfg;
    parser_stage cfg (json_error lib);
    parser_stage cfg (urlencoded_error lib);
    compression_stage; logging_stage ].

(** The routes of index.js and of the routers it mounts: the POST
    routes of routes/ocr.js, routes/pdf.js and routes/ai.js, and the GET
    routes. *)
Inductive Route : Type :=
| PostOcr | PostOcrBatch
| PostPdfExtract | PostPdfOcr | PostPdfAnalyze
| PostAskAI
| GetOcrLanguages | GetPdfInfo
| GetHealth | GetHealthDetailed | GetHealthReady | GetHealthLive
| GetAskAIHealth | GetRoot.

(** Whether the route registers [authenticateRequest]. *)
Definition authenticated_route (route : Route) : bool :=
  match route with
  | PostOcr | PostOcrBatch | PostPdfExtract | PostPdfOcr | PostPdfAnalyze
  | PostAskAI => true
  | _ => false
  end.

(** The schema that the route gives to [validateRequest], if it registers
    the validator at all. *)
Definition route_schema (route : Route) : option Schema :=
  match route with
  | PostOcr => Some ocrSchema
  | PostPdfExtract | PostPdfOcr | PostPdfAnalyze => Some pdfExtractSchema
  | PostAskAI => Some AskAI.askAISchema
  | _ => None
  end.

(** The handlers that the route registers ahead of its own. *)
Definition route_guards (host : Host) (cfg : Config) (now : Z)
  (route : Route) : list (Request -> Outcome ValidationError) :=
  match route with
  | PostOcr =>
      [ authenticateRequest (env cfg) now; validateRequest host ocrSchema ]
  | PostOcrBatch => [ authenticateRequest (env cfg) now ]
  | PostPdfExtract | PostPdfOcr | PostPdfAnalyze =>
      [ authenticateRequest (env cfg) now;
        validateRequest host pdfExtractSchema ]
  | PostAskAI =>
      [ authenticateRequest (env cfg) now;
        validateRequest host AskAI.askAISchema ]
  | _ => []
  end.

(** What a request to a route meets before the route's handler. *)
Definition dispatch (host : Host) (lib : Libraries) (cfg : Config) (now : Z)
  (route : Route) (req : Request) : Served :=
  through (app_stages lib cfg
           ++ map guard_stage (route_guards host cfg now route)) req.

(** The status of an answer of the specification's pipeline. *)
Definition code_of {D : Type} (o : Outcome D) : option Z :=
  match o with
  | Next _ => None
  | Respond code _ => Some code
  end.

Definition served_code (s : Served) : option Z :=
  match s with
  | Reaches _ => None
  | Answers code _ => Some code
  end.

End App.
(** ** Concrete requests and configurations

    The inputs at which the examples below evaluate the gateway. *)

Module Fixtures.
Import Js Express Validation Auth Routes.

(** A request with [x-api-key: A] in its headers and [apiKey: B] in its
    body, and one whose [authorization] header holds [Bearer ] after
    another word. *)
Definition header_and_body : Request :=
  {| headers := {[ "x-api-key" := "A" ]}; query := [];
     body := [("apiKey", VStr "B")]; ip := "203.0.113.7"; auth := None |}.

Definition bearer_inside : Request :=
  {| headers := {[ "authorization" := "Token Bearer abc" ]}; query := [];
     body := []; ip := "203.0.113.7"; auth := None |}.

(** Development mode without [API_KEY]; production with the key
    [secret123]. *)
Definition dev_no_key : Env :=
  {| NODE_ENV := Some "development"; API_KEY := None |}.

Definition prod_with_key : Env :=
  {| NODE_ENV := Some "production"; API_KEY := Some "secret123" |}.

(** A request that presents [key] in the header [x-api-key], with an empty
    body. *)
Definition with_key (key : string) : Request :=
  {| headers := {[ "x-api-key" := key ]}; query := []; body := [];
     ip := "203.0.113.7"; auth := None |}.

(** A request without credentials and with an empty body. *)
Definition anonymous : Request :=
  {| headers := ∅; query := []; body := []; ip := "203.0.113.7";
     auth := None |}.

(** A schema with one optional string field that has a length bound and
    a pattern, and a schema whose pattern is not a regular expression. *)
Definition languageSchema : Schema :=
  [ ("language", {| type := Some "string"; required := false;
                    minLength := Some 2; maxLength := Some 5;
                    pattern := Some "^(en|de|fr)$"; format := None;
                    minItems := None; maxItems := None;
                    requiredFields := None |}) ].

Definition brokenSchema : Schema :=
  [ ("language", {| type := Some "string"; required := false;
                    minLength := None; maxLength := None;
                    pattern := Some "("; format := None;
                    minItems := None; maxItems := None;
                    requiredFields := None |}) ].

(** A schema with one optional string field whose pattern is not a
    regular expression, under a name of its own. *)
Definition codeSchema : Schema :=
  [ ("code", {| type := Some "string"; required := false;
                minLength := None; maxLength := None;
                pattern := Some "("; format := None;
                minItems := None; maxItems := None;
                requiredFields := None |}) ].

(** A request with the given body and no credentials. *)
Definition with_body (props : list (string * Value)) : Request :=
  {| headers := ∅; query := []; body := props; ip := "203.0.113.7";
     auth := None |}.

(** Libraries that let every request through, and libraries whose
    limiter finds every client over its limit. *)
Definition quiet : App.Libraries :=
  {| App.limit_reached := fun _ => false;
     App.json_error := fun _ => None;
     App.urlencoded_error := fun _ => None |}.

Definition saturated : App.Libraries :=
  {| App.limit_reached := fun _ => true;
     App.json_error := fun _ => None;
     App.urlencoded_error := fun _ => None |}.

(** Production with the key [secret123], the default origins and the
    default window. *)
Definition production : App.Config :=
  {| App.env := prod_with_key; App.ALLOWED_ORIGINS := None;
     App.RATE_LIMIT_WINDOW_MS := None |}.

End Fixtures.


(** ** The matcher and the language *)

Module RegexFacts.
Import Regex RegexLang.

Lemma append_nil_r (s : string) : s +:+ "" = s.
Proof.
  induction s as [|c s IH]; [reflexivity|].
  change (String c (s +:+ "") = String c s). now rewrite IH.
Qed.

Lemma append_assoc (s1 s2 s3 : string) :
  (s1 +:+ s2) +:+ s3 = s1 +:+ (s2 +:+ s3).
Proof.
  induction s1 as [|c s1 IH]; [reflexivity|].
  change (String c ((s1 +:+ s2) +:+ s3) = String c (s1 +:+ (s2 +:+ s3))).
  now rewrite IH.
Qed.

Lemma append_cons (c : ascii) (s1 s2 : string) :
  String c s1 +:+ s2 = String c (s1 +:+ s2).
Proof. reflexivity. Qed.

Lemma append_eq_nil (s1 s2 : string) :
  s1 +:+ s2 = "" -> s1 = "" /\ s2 = "".
Proof.
  destruct s1; [intros H; split; [reflexivity | exact H] | discriminate].
Qed.

Lemma lang_void_inv (s : string) : ~ lang Void s.
Proof. intros H. inversion H. Qed.

Lemma lang_eps_inv (s : string) : lang Eps s -> s = "".
Proof. intros H. inversion H. reflexivity. Qed.

Lemma lang_class_inv (p : ascii -> bool) (s : string) :
  lang (Class p) s -> exists c, s = String c "" /\ p c = true.
Proof. intros H. inversion H; subst. eauto. Qed.

Lemma lang_cat_inv (r1 r2 : re) (s : string) :
  lang (Cat r1 r2) s ->
  exists s1 s2, s = s1 +:+ s2 /\ lang r1 s1 /\ lang r2 s2.
Proof. intros H. inversion H; subst. eauto. Qed.

Lemma lang_alt_inv (r1 r2 : re) (s : string) :
  lang (Alt r1 r2) s -> lang r1 s \/ lang r2 s.
Proof. intros H. inversion H; subst; auto. Qed.

Lemma nullable_lang (r : re) : nullable r = true <-> lang r "".
Proof.
  induction r as [| |p|r1 IH1 r2 IH2|r1 IH1 r2 IH2|r IH]; cbn [nullable].
  - split; [discriminate | intros H; destruct (lang_void_inv _ H)].
  - split; [intros _; constructor | reflexivity].
  - split; [discriminate|].
    intros H. apply lang_class_inv in H as (c & H & _). discriminate H.
  - rewrite andb_true_iff, IH1, IH2. split.
    + intros [H1 H2]. exact (lang_cat r1 r2 "" "" H1 H2).
    + intros H. apply lang_cat_inv in H as (s1 & s2 & Heq & H1 & H2).
      symmetry in Heq. apply append_eq_nil in Heq as [-> ->]. auto.
  - rewrite orb_true_iff, IH1, IH2. split.
    + intros [H|H]; [now apply lang_alt_l | now apply lang_alt_r].
    + apply lang_alt_inv.
  - split; [intros _; constructor | reflexivity].
Qed.

(** A non-empty word of a star begins with a non-empty word of its
    body. *)
Lemma lang_star_cons (r : re) (c : ascii) (s : string) :
  lang (Star r) (String c s) ->
  exists s1 s2, s = s1 +:+ s2 /\ lang r (String c s1) /\ lang (Star r) s2.
Proof.
  intros H. remember (Star r) as r' eqn:Hr. remember (String c s) as w eqn:Hw.
  revert s Hw.
  induction H as [| | | | | |r0 s1 s2 H1 _ H2 IH2]; try discriminate.
  intros s Hw. injection Hr as ->.
  destruct s1 as [|c1 s1].
  - exact (IH2 eq_refl s Hw).
  - rewrite append_cons in Hw. injection Hw as -> <-.
    exists s1, s2. auto.
Qed.

Lemma deriv_lang (c : ascii) (r : re) (s : string) :
  lang (deriv c r) s <-> lang r (String c s).
Proof.
  revert s.
  induction r as [| |p|r1 IH1 r2 IH2|r1 IH1 r2 IH2|r IH]; intros s;
    cbn [deriv].
  - split; intros H; destruct (lang_void_inv _ H).
  - split; intros H; [destruct (lang_void_inv _ H)|].
    apply lang_eps_inv in H. discriminate H.
  - destruct (p c) eqn:Hp.
    + split; intros H.
      * apply lang_eps_inv in H. subst s. now constructor.
      * apply lang_class_inv in H as (c' & [= <- ->] & _). constructor.
    + split; intros H; [destruct (lang_void_inv _ H)|].
      apply lang_class_inv in H as (c' & [= <- ->] & H). congruence.
  - assert (Hcat : lang (Cat (deriv c r1) r2) s ->
                   lang (Cat r1 r2) (String c s)).
    { intros H. apply lang_cat_inv in H as (s1 & s2 & -> & H1 & H2).
      apply IH1 in H1. exact (lang_cat r1 r2 (String c s1) s2 H1 H2). }
    assert (Hinv : lang (Cat r1 r2) (String c s) ->
                   lang (Cat (deriv c r1) r2) s
                   \/ (lang r1 "" /\ lang r2 (String c s))).
    { intros H. apply lang_cat_inv in H as (s1 & s2 & Heq & H1 & H2).
      destruct s1 as [|c1 s1].
      - change (String c s = s2) in Heq. subst s2. right. auto.
      - rewrite append_cons in Heq. injection Heq as <- ->. left.
        apply lang_cat; [apply IH1; exact H1 | exact H2]. }
    destruct (nullable r1) eqn:Hn.
    + split.
      * intros H. apply lang_alt_inv in H as [H|H]; [now apply Hcat|].
        apply nullable_lang in Hn. apply IH2 in H.
        exact (lang_cat r1 r2 "" (String c s) Hn H).
      * intros H. destruct (Hinv H) as [H'|[_ H']];
          [now apply lang_alt_l | apply lang_alt_r, IH2; exact H'].
    + split; [exact Hcat|].
      intros H. destruct (Hinv H) as [H'|[H' _]]; [exact H'|].
      apply nullable_lang in H'. congruence.
  - split; intros H; apply lang_alt_inv in H as [H|H].
    + apply lang_alt_l, IH1. assumption.
    + apply lang_alt_r, IH2. assumption.
    + apply lang_alt_l, IH1. assumption.
    + apply lang_alt_r, IH2. assumption.
  - split.
    + intros H. apply lang_cat_inv in H as (s1 & s2 & -> & H1 & H2).
      apply IH in H1. exact (lang_star_app r (String c s1) s2 H1 H2).
    + intros H. apply lang_star_cons in H as (s1 & s2 & -> & H1 & H2).
      apply lang_cat; [apply IH; exact H1 | exact H2].
Qed.

(** The matcher accepts exactly the language of the expression. *)
Lemma matches_lang (r : re) (s : string) : matches r s = true <-> lang r s.
Proof.
  revert r. induction s as [|c s IH]; intros r; cbn [matches].
  - apply nullable_lang.
  - rewrite IH. apply deriv_lang.
Qed.

Lemma lang_lit (w s : string) : lang (lit w) s <-> s = w.
Proof.
  revert s. induction w as [|c w IH]; intros s; cbn [lit].
  - split; [apply lang_eps_inv | intros ->; constructor].
  - split.
    + intros H. apply lang_cat_inv in H as (s1 & s2 & -> & H1 & H2).
      apply lang_class_inv in H1 as (c' & -> & Hc).
      apply Ascii.eqb_eq in Hc. subst c'. apply IH in H2. subst. reflexivity.
    + intros ->. apply (lang_cat (chr c) (lit w) (String c "") w).
      * constructor. apply Ascii.eqb_refl.
      * apply IH. reflexivity.
Qed.

Lemma lang_star_class (p : ascii -> bool) (s : string) :
  lang (Star (Class p)) s <-> all_chars p s = true.
Proof.
  split.
  - revert s. induction s as [|c s IH]; [reflexivity|].
    intros H. apply lang_star_cons in H as (s1 & s2 & -> & H1 & H2).
    apply lang_class_inv in H1 as (c' & [= <- ->] & Hc).
    cbn [all_chars]. rewrite Hc. apply IH. exact H2.
  - induction s as [|c s IH]; [constructor|].
    cbn [all_chars]. intros H. apply andb_true_iff in H as [Hc Hs].
    apply (lang_star_app (Class p) (String c "") s);
      [now constructor | exact (IH Hs)].
Qed.

Lemma lang_plus_class (p : ascii -> bool) (s : string) :
  lang (Plus (Class p)) s <-> s <> "" /\ all_chars p s = true.
Proof.
  unfold Plus. split.
  - intros H. apply lang_cat_inv in H as (s1 & s2 & -> & H1 & H2).
    apply lang_class_inv in H1 as (c & -> & Hc).
    apply lang_star_class in H2. split; [discriminate|].
    change (all_chars p (String c s2) = true).
    cbn [all_chars]. rewrite Hc. exact H2.
  - intros [Hne H]. destruct s as [|c s]; [congruence|].
    cbn [all_chars] in H. apply andb_true_iff in H as [Hc Hs].
    apply (lang_cat (Class p) (Star (Class p)) (String c "") s);
      [now constructor | apply lang_star_class; exact Hs].
Qed.

End RegexFacts.

(** ** The e-mail test and the shape of an address *)

Module EmailFacts.
Import Js Regex RegexLang RegexFacts Validation Spec.

Lemma lang_single (a : ascii) (s : string) :
  lang (chr a) s <-> s = String a "".
Proof.
  unfold chr. split.
  - intros H. apply lang_class_inv in H as (c & -> & Hc).
    apply Ascii.eqb_eq in Hc. now subst.
  - intros ->. constructor. apply Ascii.eqb_refl.
Qed.

Lemma all_chars_ext (p q : ascii -> bool) (s : string) :
  (forall c, p c = q c) -> all_chars p s = all_chars q s.
Proof.
  intros H. induction s as [|c s IH]; [reflexivity|].
  cbn [all_chars]. now rewrite H, IH.
Qed.

Lemma email_part_class (w : string) :
  w <> "" /\ all_chars not_space_or_at w = true <-> email_part w.
Proof.
  unfold email_part.
  rewrite (all_chars_ext not_space_or_at
             (fun c => negb (is_space c) && negb (Ascii.eqb c "@")) w).
  - reflexivity.
  - intros c. unfold not_space_or_at. apply negb_orb.
Qed.

(** The e-mail test accepts exactly the strings of the shape of an
    address. *)
Lemma email_form (s : string) : isValidEmail s = true <-> email_shaped s.
Proof.
  unfold isValidEmail, emailRegex, email_shaped. rewrite matches_lang. split.
  - intros H.
    apply lang_cat_inv in H as (a & r1 & -> & Ha & H).
    apply lang_cat_inv in H as (at_ & r2 & -> & Hat & H).
    apply lang_cat_inv in H as (b & r3 & -> & Hb & H).
    apply lang_cat_inv in H as (dot_ & c & -> & Hdot & Hc).
    apply lang_single in Hat, Hdot. subst.
    apply lang_plus_class in Ha, Hb, Hc.
    exists a, b, c. split; [reflexivity|].
    split; [|split]; apply email_part_class; assumption.
  - intros (a & b & c & -> & Ha & Hb & Hc).
    apply email_part_class in Ha, Hb, Hc.
    apply lang_cat; [apply lang_plus_class; exact Ha|].
    apply (lang_cat _ _ "@"); [apply lang_single; reflexivity|].
    apply lang_cat; [apply lang_plus_class; exact Hb|].
    apply (lang_cat _ _ "."); [apply lang_single; reflexivity|].
    apply lang_plus_class; exact Hc.
Qed.

Lemma email_form_false (s : string) :
  isValidEmail s = false <-> ~ email_shaped s.
Proof.
  rewrite <- email_form. destruct (isValidEmail s); split;
    try discriminate; try congruence; auto.
Qed.

End EmailFacts.
(** * Properties *)

(** ** The type check *)

Module NumericKinds.
Import Js Validation Spec.

Lemma pos_pow_Z (p : positive) : 2 ^ Z.pos p = Z.pos (2 ^ p).
Proof. symmetry. apply Pos2Z.inj_pow. Qed.

Lemma isInteger_whole (v : Value) :
  Number_isInteger v = true <-> whole_number v.
Proof.
  split.
  - destruct v as [| | |x| | | |]; try discriminate.
    destruct x as [s| | |s m e]; try discriminate; intros H.
    + exists (S754_zero s), 0%Q, 0. repeat split; reflexivity.
    + pose (n := if s then Z.neg m else Z.pos m).
      destruct e as [|p|p].
      * exists (S754_finite s m 0), (inject_Z (n * 2 ^ 0)), (n * 2 ^ 0).
        repeat split; reflexivity.
      * exists (S754_finite s m (Z.pos p)), (inject_Z (n * 2 ^ Z.pos p)),
          (n * 2 ^ Z.pos p).
        repeat split; reflexivity.
      * cbn [Number_isInteger] in H.
        change (0 <=? Z.neg p) with false in H.
        change (- Z.neg p) with (Z.pos p) in H.
        rewrite orb_false_l, pos_pow_Z in H.
        apply Z.eqb_eq, Z.mod_divide in H; [|discriminate].
        destruct H as [k Hk].
        exists (S754_finite s m (Z.neg p)), (n # (2 ^ p)%positive)%Q,
          (if s then - k else k).
        repeat split; try reflexivity.
        unfold Qeq; cbn [Qnum Qden inject_Z]. subst n. destruct s; lia.
  - intros (x & q & z & -> & Hq & Hz).
    destruct x as [s| | |s m e]; try discriminate; [reflexivity|].
    destruct e as [|p|p]; try reflexivity.
    injection Hq as <-. cbn [Number_isInteger].
    change (0 <=? Z.neg p) with false.
    change (- Z.neg p) with (Z.pos p).
    rewrite orb_false_l, pos_pow_Z.
    apply Z.eqb_eq, Z.mod_divide; [discriminate|].
    unfold Qeq in Hz; cbn [Qnum Qden inject_Z] in Hz.
    exists (if s then - z else z). destruct s; lia.
Qed.

Lemma number_check_not_nan (v : Value) :
  match v with VNum x => negb (isNaN x) | _ => false end = true
  <-> number_not_nan v.
Proof.
  split.
  - destruct v as [| | |x| | | |]; try discriminate.
    intros H. exists x. split; [reflexivity|]. intros ->. discriminate.
  - intros (x & -> & Hx). destruct x; try reflexivity. congruence.
Qed.

(** C6, as amended: kind ['integer'] accepts exactly the whole numbers;
    kinds ['float'] and ['number'] accept exactly the numbers that are not
    NaN, the two infinities among them. *)
Theorem validateType_numeric_kinds (v : Value) :
  (validateType v "integer" = true <-> whole_number v)
  /\ (validateType v "float" = true <-> number_not_nan v)
  /\ (validateType v "number" = true <-> number_not_nan v)
  /\ validateType (VNum (S754_infinity false)) "number" = true
  /\ validateType (VNum (S754_infinity true)) "float" = true.
Proof.
  split; [apply isInteger_whole|].
  split; [apply number_check_not_nan|].
  split; [apply number_check_not_nan|].
  split; reflexivity.
Qed.

(** C6, as stated, fails: positive infinity passes the check for kind
    ['number'] (and ['float']) although it is not a finite value. *)
Lemma validateType_accepts_infinity :
  validateType (VNum (S754_infinity false)) "number" = true
  /\ validateType (VNum (S754_infinity false)) "float" = true
  /\ ~ finite_number (VNum (S754_infinity false)).
Proof.
  repeat split; try reflexivity.
  intros (x & q & Hx & Hq). injection Hx as <-. discriminate.
Qed.

End NumericKinds.


(** ** The reference host and the e-mail pattern at work *)

Module RefHostExamples.
Import RefHost.

Example unterminated_group : compile "(" = None.
Proof. reflexivity. Qed.

Example unmatched_paren : compile "a)" = None.
Proof. reflexivity. Qed.

Example nothing_to_repeat : compile "a**" = None /\ compile "*" = None.
Proof. split; reflexivity. Qed.

Example search_inside :
  option_map (fun r => Regex.matches r "xxabyy") (compile "ab") = Some true.
Proof. vm_compute. reflexivity. Qed.

Example anchored_both :
  option_map (fun r => Regex.matches r "xxabyy") (compile "^ab$") = Some false
  /\ option_map (fun r => Regex.matches r "ab") (compile "^ab$") = Some true.
Proof. split; vm_compute; reflexivity. Qed.

Example groups_and_stars :
  option_map (fun r => (Regex.matches r "abab", Regex.matches r "aba"))
    (compile "^(ab|c)*?$") = Some (true, false).
Proof. vm_compute. reflexivity. Qed.

Example classes_and_counts :
  option_map (fun r => (Regex.matches r "ab12", Regex.matches r "ab1",
                        Regex.matches r "a-12"))
    (compile "^[a-c_]{2}[^a-z]{2,}$") = Some (true, false, false)
  /\ compile "[z-a]" = None /\ compile "a{3,1}" = None
  /\ compile "[ab" = None.
Proof. repeat split; vm_compute; reflexivity. Qed.

(** An anchor binds the alternative it stands in. *)
Example anchors_and_alternatives :
  option_map (fun r => (Regex.matches r "xb", Regex.matches r "xa",
                        Regex.matches r "bx"))
    (compile "^a|b$") = Some (true, false, false).
Proof. vm_compute. reflexivity. Qed.

(** The pattern of the field [language] of [ocrSchema]. *)
Example language_pattern :
  option_map (fun r => (Regex.matches r "en", Regex.matches r "en-US",
                        Regex.matches r "EN", Regex.matches r "english"))
    (compile "^[a-z]{2,3}(-[A-Z]{2})?$") = Some (true, true, false, false).
Proof. vm_compute. reflexivity. Qed.

Example url_needs_scheme : has_scheme "not a url" = false.
Proof. reflexivity. Qed.

Example email_accepts :
  Validation.isValidEmail "a.b@example.org" = true
  /\ Validation.isValidEmail "a@b" = false
  /\ Validation.isValidEmail "a b@c.d" = false
  /\ Validation.isValidEmail "a@b@c.d" = false.
Proof. repeat split; vm_compute; reflexivity. Qed.

End RefHostExamples.
(** ** The key resolver *)

Module KeyResolver.
Import Js Express Auth Spec Fixtures.

Lemma usable_accepted (v : Value) :
  usable v = true -> exists s, v = VStr s /\ accepted v = Some (trim s).
Proof.
  destruct v as [| | | |s| | |]; try discriminate.
  unfold usable, accepted. intros H.
  apply andb_true_iff in H as [_ H]. rewrite H. eauto.
Qed.

Lemma not_usable_rejected (v : Value) :
  usable v = false -> accepted v = None.
Proof.
  destruct v as [| | | |s| | |]; try reflexivity.
  unfold usable, accepted. intros H.
  destruct (0 <? strlen (trim s)) eqn:Hlen; [|reflexivity].
  destruct s; [discriminate Hlen | discriminate H].
Qed.

(** The loop with its early [return] finds the first accepted candidate. *)
Lemma first_usable_first_accepted (cands : list Value) :
  first_usable cands = first_accepted cands.
Proof.
  unfold first_accepted.
  induction cands as [|v rest IH]; [reflexivity|].
  cbn [first_usable omap list_omap].
  destruct (usable v) eqn:Hu.
  - destruct (usable_accepted v Hu) as (s & -> & ->). reflexivity.
  - rewrite (not_usable_rejected v Hu). exact IH.
Qed.

Lemma replace_first_prefix (pre s : string) :
  String.prefix pre s = true -> replace_first pre s = strip_prefix pre s.
Proof.
  intros H. unfold strip_prefix. rewrite H.
  destruct s; cbn [replace_first]; rewrite H; reflexivity.
Qed.

(** C5, as amended: the resolver returns the trimmed form of the first
    accepted candidate, in the order header [x-api-key], header
    [authorization] with the first occurrence of [Bearer ] removed (which
    strips the prefix when the value begins with it), header [api-key],
    query parameter [apiKey], body field [apiKey], and [null] when none is
    accepted; a usable [x-api-key] header wins over every other location. *)
Theorem getApiKeyFromRequest_priority (req : Request) :
  getApiKeyFromRequest req
  = first_accepted
      [ header req "x-api-key";
        match headers req !! "authorization" with
        | Some s => VStr (replace_first "Bearer " s)
        | None => VUndefined
        end;
        header req "api-key";
        get (query req) "apiKey";
        get (body req) "apiKey" ]
  /\ (forall s, headers req !! "authorization" = Some s ->
        String.prefix "Bearer " s = true ->
        replace_first "Bearer " s = strip_prefix "Bearer " s)
  /\ (forall a, headers req !! "x-api-key" = Some a ->
        0 < strlen (trim a) ->
        getApiKeyFromRequest req = Some (trim a)).
Proof.
  split; [apply first_usable_first_accepted|].
  split; [intros s _; apply replace_first_prefix|].
  intros a Ha Hlen. unfold getApiKeyFromRequest.
  rewrite first_usable_first_accepted.
  unfold first_accepted, locations, header. rewrite Ha.
  cbn [omap list_omap accepted]. apply Z.ltb_lt in Hlen. rewrite Hlen.
  reflexivity.
Qed.

(** The instance of the specification: [x-api-key: A] with body
    [apiKey: B] resolves to [A]. *)
Lemma header_wins_over_body :
  getApiKeyFromRequest header_and_body = Some "A".
Proof.
  destruct (getApiKeyFromRequest_priority header_and_body) as (_ & _ & H).
  apply (H "A"); [reflexivity | vm_compute; reflexivity].
Defined.

(** C5, as stated, fails: [Bearer ] is removed wherever it first occurs,
    not only as a prefix. *)
Lemma bearer_removed_inside :
  getApiKeyFromRequest bearer_inside = Some "Token abc"
  /\ resolveKey bearer_inside = Some "Token Bearer abc"
  /\ getApiKeyFromRequest bearer_inside <> resolveKey bearer_inside.
Proof.
  assert (H1 : getApiKeyFromRequest bearer_inside = Some "Token abc")
    by (vm_compute; reflexivity).
  assert (H2 : resolveKey bearer_inside = Some "Token Bearer abc")
    by (vm_compute; reflexivity).
  rewrite H1, H2. repeat split. discriminate.
Qed.

End KeyResolver.

(** ** The authenticator *)

Module Authenticator.
Import Js Express Auth Spec Fixtures.

Lemma first_usable_nonempty (cands : list Value) (k : string) :
  first_usable cands = Some k -> 0 < strlen k.
Proof.
  induction cands as [|v rest IH]; [discriminate|].
  cbn [first_usable]. destruct (usable v) eqn:Hu; [|exact IH].
  destruct v as [| | | |s| | |]; try discriminate.
  intros [= <-]. unfold usable in Hu.
  apply andb_true_iff in Hu as [_ Hu]. apply Z.ltb_lt in Hu. exact Hu.
Qed.

Lemma resolved_key_nonempty (req : Request) (k : string) :
  getApiKeyFromRequest req = Some k -> String.eqb k "" = false.
Proof.
  intros H. apply first_usable_nonempty in H.
  destruct k; [discriminate H | reflexivity].
Qed.

(** In development mode without a configured key, [isValidApiKey] is the
    length test. *)
Lemma isValidApiKey_dev (env : Env) (k : string) :
  development env = true -> env_set (API_KEY env) = false ->
  isValidApiKey env (VStr k) = (8 <=? strlen k).
Proof.
  intros Hdev Hkey. unfold isValidApiKey. rewrite Hkey, Hdev.
  destruct k; reflexivity.
Qed.

Lemma skip_in_development (D : Type) (env : Env) (now : Z) (req : Request) :
  development env = true -> env_set (API_KEY env) = false ->
  @authenticateRequest D env now req = Next req.
Proof.
  intros Hdev Hkey. unfold authenticateRequest. rewrite Hdev, Hkey.
  reflexivity.
Qed.

(** C3, as amended: in development mode with no configured key, the
    authenticator admits every request at once and hands it on as it came;
    it attaches no identity, so [req.auth] stays as it was. *)
Theorem authenticateRequest_bypass (D : Type) (env : Env) (now : Z)
  (req : Request) :
  development env = true -> env_set (API_KEY env) = false ->
  @authenticateRequest D env now req = Next req
  /\ (forall req', @authenticateRequest D env now req = Next req' ->
        auth req' = auth req).
Proof.
  intros Hdev Hkey.
  rewrite (skip_in_development D env now req Hdev Hkey).
  split; [reflexivity|]. intros req' [= <-]. reflexivity.
Qed.

Lemma authenticateRequest_bypass_anonymous :
  @authenticateRequest unit dev_no_key 1700000000000 anonymous
  = Next anonymous
  /\ auth anonymous = None.
Proof.
  split; [|reflexivity].
  apply (authenticateRequest_bypass unit dev_no_key); reflexivity.
Defined.

(** C3, as stated, fails: the request that leaves the bypass carries no
    identity at all, hence none with [authenticated = false]. *)
Lemma bypass_attaches_no_identity :
  ~ exists req' a,
      @authenticateRequest unit dev_no_key 1700000000000 anonymous = Next req'
      /\ auth req' = Some a /\ authenticated a = false.
Proof.
  intros (req' & a & H & Ha & _).
  rewrite (skip_in_development unit dev_no_key) in H by reflexivity.
  injection H as <-. discriminate Ha.
Qed.

(** C4, as amended: with no configured key in development mode, the key
    check [isValidApiKey] accepts a resolved candidate exactly when its
    length is at least 8, and the optional authenticator attaches
    [authenticated = true] for such a candidate and [authenticated = false]
    for a shorter one, of length 7 for instance; the mandatory
    authenticator takes its bypass and hands every request on without an
    identity, whatever key it presents. *)
Theorem dev_fallback_key_length (D : Type) (env : Env) (now : Z)
  (req : Request) (k : string) :
  development env = true -> env_set (API_KEY env) = false ->
  getApiKeyFromRequest req = Some k ->
  (isValidApiKey env (VStr k) = true <-> 8 <= strlen k)
  /\ (8 <= strlen k ->
      @optionalAuthenticate D env now req
      = Next (set_auth {| apiKey := Some k; authenticated := true;
                          timestamp := Some now |} req))
  /\ (strlen k < 8 ->
      @optionalAuthenticate D env now req
      = Next (set_auth {| apiKey := None; authenticated := false;
                          timestamp := Some now |} req))
  /\ @authenticateRequest D env now req = Next req.
Proof.
  intros Hdev Hkey Hres.
  pose proof (isValidApiKey_dev env k Hdev Hkey) as Hvalid.
  pose proof (resolved_key_nonempty req k Hres) as Hne.
  split; [rewrite Hvalid; apply Z.leb_le|].
  unfold optionalAuthenticate. rewrite Hres, Hne, Hvalid. cbn [negb andb].
  split; [intros H; apply Z.leb_le in H; rewrite H; reflexivity|].
  split; [intros H; apply Z.leb_gt in H; rewrite H; reflexivity|].
  apply skip_in_development; assumption.
Qed.

Lemma dev_fallback_key_of_length_8 :
  @optionalAuthenticate unit dev_no_key 1700000000000 (with_key "12345678")
  = Next (set_auth {| apiKey := Some "12345678"; authenticated := true;
                      timestamp := Some 1700000000000 |}
            (with_key "12345678"))
  /\ @authenticateRequest unit dev_no_key 1700000000000 (with_key "12345678")
     = Next (with_key "12345678").
Proof.
  destruct (dev_fallback_key_length unit dev_no_key 1700000000000
              (with_key "12345678") "12345678")
    as (_ & H8 & _ & Hbypass);
    [reflexivity | reflexivity | vm_compute; reflexivity |].
  split; [apply H8; vm_compute; discriminate | exact Hbypass].
Defined.

(** A candidate of length 7 in the same configuration. *)
Example dev_fallback_key_of_length_7 :
  isValidApiKey dev_no_key (VStr "1234567") = false
  /\ @optionalAuthenticate unit dev_no_key 1700000000000 (with_key "1234567")
     = Next (set_auth {| apiKey := None; authenticated := false;
                         timestamp := Some 1700000000000 |}
               (with_key "1234567"))
  /\ @authenticateRequest unit dev_no_key 1700000000000 (with_key "1234567")
     = Next (with_key "1234567").
Proof. repeat split; vm_compute; reflexivity. Qed.

(** C4, as stated, fails: the mandatory authenticator does not mark a
    request with an 8-character key as authenticated in this
    configuration; it hands the request on without [req.auth]. *)
Lemma dev_key_not_marked_authenticated :
  ~ exists req' a,
      @authenticateRequest unit dev_no_key 1700000000000
        (with_key "12345678") = Next req'
      /\ auth req' = Some a /\ authenticated a = true.
Proof.
  intros (req' & a & H & Ha & _).
  rewrite (skip_in_development unit dev_no_key) in H by reflexivity.
  injection H as <-. discriminate Ha.
Qed.

(** With a configured key, the cases of the specification. *)
Example configured_key_cases :
  @authenticateRequest unit prod_with_key 1700000000000 (with_key "secret123")
  = Next (set_auth {| apiKey := Some "secret123"; authenticated := true;
                      timestamp := Some 1700000000000 |}
            (with_key "secret123"))
  /\ @authenticateRequest unit prod_with_key 1700000000000
       (with_key "secret124")
     = Respond 401 (reply "Invalid API key" "The provided API key is invalid")
  /\ @authenticateRequest unit prod_with_key 1700000000000 anonymous
     = Respond 401 (reply "Authentication required"
                      "API key is required for this endpoint").
Proof. repeat split; vm_compute; reflexivity. Qed.

End Authenticator.

(** ** The rate limiter *)

Module RateLimiter.
Import Js Express Auth Spec Fixtures.

Lemma cleanup_fold_lookup (windowStart : Z)
  (init requests : gmap string (list Z)) (k : string) :
  map_fold (cleanup_entry windowStart) init requests !! k
  = match requests !! k with
    | Some timestamps => pruned windowStart timestamps
    | None => init !! k
    end.
Proof.
  revert k.
  apply (map_fold_weak_ind
           (fun r (m : gmap string (list Z)) =>
              forall k, r !! k = match m !! k with
                                 | Some timestamps => pruned windowStart timestamps
                                 | None => init !! k
                                 end)).
  - intros k. rewrite lookup_empty. reflexivity.
  - intros i x m r Hi IH k. unfold cleanup_entry.
    destruct (decide (i = k)) as [->|Hne].
    + rewrite lookup_insert_eq. unfold pruned.
      destruct (Z.of_nat (length (recent windowStart x)) =? 0).
      * apply lookup_delete_eq.
      * apply lookup_insert_eq.
    + rewrite (lookup_insert_ne m i k x Hne), <- IH.
      destruct (Z.of_nat (length (recent windowStart x)) =? 0).
      * apply lookup_delete_ne. exact Hne.
      * apply lookup_insert_ne. exact Hne.
Qed.

(** The loop prunes every entry and drops the ones left empty. *)
Lemma cleanup_lookup (windowStart : Z) (requests : gmap string (list Z))
  (k : string) :
  cleanup windowStart requests !! k
  = requests !! k ≫= pruned windowStart.
Proof.
  unfold cleanup. rewrite cleanup_fold_lookup.
  destruct (requests !! k); reflexivity.
Qed.

Lemma recent_all (windowStart : Z) (timestamps : list Z) :
  Forall (fun ts => windowStart < ts) (recent windowStart timestamps).
Proof.
  unfold recent. apply Forall_forall. intros ts Hts.
  apply list_elem_of_filter in Hts. tauto.
Qed.

Lemma recent_id (windowStart : Z) (timestamps : list Z) :
  Forall (fun ts => windowStart < ts) timestamps ->
  recent windowStart timestamps = timestamps.
Proof.
  unfold recent. induction 1 as [|ts rest Hts _ IH]; [reflexivity|].
  rewrite filter_cons, decide_True by exact Hts. f_equal. exact IH.
Qed.

Lemma recent_none (windowStart : Z) (timestamps : list Z) :
  Forall (fun ts => ts <= windowStart) timestamps ->
  recent windowStart timestamps = [].
Proof.
  unfold recent. induction 1 as [|ts rest Hts _ IH]; [reflexivity|].
  rewrite filter_cons, decide_False by lia. exact IH.
Qed.

Lemma pruned_spec (windowStart : Z) (timestamps kept : list Z) :
  pruned windowStart timestamps = Some kept ->
  kept = recent windowStart timestamps /\ kept <> [].
Proof.
  unfold pruned.
  destruct (Z.of_nat (length (recent windowStart timestamps)) =? 0) eqn:H;
    [discriminate|].
  intros [= <-]. split; [reflexivity|].
  intros Hnil. rewrite Hnil in H. discriminate H.
Qed.

Lemma recentRequests_counted (windowMs now : Z)
  (requests : gmap string (list Z)) (key : string) :
  recent (now - windowMs)
    (default [] (cleanup (now - windowMs) requests !! key))
  = counted windowMs now requests key.
Proof.
  unfold counted. rewrite cleanup_lookup.
  destruct (requests !! key) as [timestamps|]; [|reflexivity].
  cbn [mbind option_bind default].
  destruct (pruned (now - windowMs) timestamps) as [kept|] eqn:Hp.
  - apply pruned_spec in Hp as [-> _]. cbn [default].
    apply recent_id, recent_all.
  - unfold pruned in Hp.
    destruct (Z.of_nat (length (recent (now - windowMs) timestamps)) =? 0)
      eqn:H; [|discriminate].
    apply Z.eqb_eq in H.
    assert (Hnil : recent (now - windowMs) timestamps = []).
    { destruct (recent (now - windowMs) timestamps); [reflexivity|].
      cbn [length] in H. lia. }
    unfold id. rewrite Hnil. reflexivity.
Qed.

(** A call below the limit is admitted and recorded. *)
Lemma rateLimit_admits (D : Type) (windowMs maxRequests now : Z)
  (requests : gmap string (list Z)) (req : Request) :
  Z.of_nat (length (counted windowMs now requests (limit_key req)))
  < maxRequests ->
  @rateLimit D windowMs maxRequests now requests req
  = (<[limit_key req :=
        counted windowMs now requests (limit_key req) ++ [now]]>
       (cleanup (now - windowMs) requests),
     Next req).
Proof.
  intros H. unfold rateLimit. rewrite recentRequests_counted.
  apply Z.leb_gt in H. rewrite H. reflexivity.
Qed.

(** A call at the limit is rejected and leaves no timestamp. *)
Lemma rateLimit_rejects (D : Type) (windowMs maxRequests now : Z)
  (requests : gmap string (list Z)) (req : Request) :
  maxRequests
  <= Z.of_nat (length (counted windowMs now requests (limit_key req))) ->
  exists r,
    @rateLimit D windowMs maxRequests now requests req
    = (cleanup (now - windowMs) requests, Respond 429 r)
    /\ success r = false
    /\ retryAfter r = Some (ceil_seconds windowMs).
Proof.
  intros H. unfold rateLimit. rewrite recentRequests_counted.
  apply Z.leb_le in H. rewrite H. eexists. split; [reflexivity|].
  split; reflexivity.
Qed.

Lemma cleanup_keeps (windowStart : Z) (requests : gmap string (list Z))
  (k : string) (timestamps : list Z) :
  cleanup windowStart requests !! k = Some timestamps ->
  timestamps <> [] /\ Forall (fun ts => windowStart < ts) timestamps.
Proof.
  rewrite cleanup_lookup. destruct (requests !! k) as [old|]; [|discriminate].
  cbn [mbind option_bind]. intros H. apply pruned_spec in H as [-> Hne].
  split; [exact Hne | apply recent_all].
Qed.

Lemma cleanup_evicts (windowStart : Z) (requests : gmap string (list Z))
  (k : string) (timestamps : list Z) :
  requests !! k = Some timestamps ->
  Forall (fun ts => ts <= windowStart) timestamps ->
  cleanup windowStart requests !! k = None.
Proof.
  intros Hk Hold. rewrite cleanup_lookup, Hk. cbn [mbind option_bind].
  unfold pruned. rewrite (recent_none _ _ Hold). reflexivity.
Qed.

(** C9: after every call of a limiter with a positive window, each key of
    the map holds a non-empty list of timestamps, all of them later than
    [now - windowMs]. Hence a key whose timestamps are all older than the
    window is gone from the map after the next call of any other key, and
    after a call of its own it is either gone or holds that call alone. *)
Theorem store_within_window (D : Type) (windowMs maxRequests now : Z)
  (requests : gmap string (list Z)) (req : Request) :
  0 < windowMs ->
  (forall k timestamps,
      (@rateLimit D windowMs maxRequests now requests req).1 !! k
      = Some timestamps ->
      timestamps <> []
      /\ Forall (fun ts => now - windowMs < ts) timestamps)
  /\ (forall k timestamps,
        requests !! k = Some timestamps ->
        Forall (fun ts => ts <= now - windowMs) timestamps ->
        (k <> limit_key req ->
         (@rateLimit D windowMs maxRequests now requests req).1 !! k = None)
        /\ ((@rateLimit D windowMs maxRequests now requests req).1 !! k
             = None
            \/ (@rateLimit D windowMs maxRequests now requests req).1 !! k
               = Some [now])).
Proof.
  intros Hw.
  destruct (Z.lt_ge_cases
              (Z.of_nat (length (counted windowMs now requests (limit_key req))))
              maxRequests) as [Hlt|Hge].
  - rewrite (rateLimit_admits D _ _ _ _ _ Hlt). cbn [fst].
    split.
    + intros k timestamps.
      destruct (decide (limit_key req = k)) as [<-|Hne].
      * rewrite lookup_insert_eq. intros [= <-]. split.
        -- destruct (counted windowMs now requests (limit_key req));
             discriminate.
        -- apply Forall_app. split; [apply recent_all|].
           apply Forall_singleton. lia.
      * rewrite lookup_insert_ne by exact Hne. apply cleanup_keeps.
    + intros k timestamps Hk Hold. split.
      * intros Hne. rewrite lookup_insert_ne by congruence.
        exact (cleanup_evicts _ _ _ _ Hk Hold).
      * destruct (decide (limit_key req = k)) as [<-|Hne].
        -- right. rewrite lookup_insert_eq. unfold counted. rewrite Hk.
           cbn [default from_option]. unfold id.
           rewrite (recent_none _ _ Hold). reflexivity.
        -- left. rewrite lookup_insert_ne by exact Hne.
           exact (cleanup_evicts _ _ _ _ Hk Hold).
  - destruct (rateLimit_rejects D _ _ _ _ _ Hge) as (r & -> & _).
    cbn [fst]. split.
    + intros k timestamps. apply cleanup_keeps.
    + intros k timestamps Hk Hold.
      pose proof (cleanup_evicts _ _ _ _ Hk Hold) as Hgone.
      split; [intros _; exact Hgone | left; exact Hgone].
Qed.

(** A key that was last seen at time 1000 is evicted by the call that
    another key makes at time 5000, with a window of 1000 ms. *)
Lemma store_within_window_eviction :
  (@rateLimit unit 1000 3 5000 {[ "idle-key" := [1000] ]}
     (with_key "x")).1 !! "idle-key" = None.
Proof.
  destruct (store_within_window unit 1000 3 5000 {[ "idle-key" := [1000] ]}
              (with_key "x")) as [_ H]; [lia|].
  apply (H "idle-key" [1000]).
  - reflexivity.
  - apply Forall_singleton. lia.
  - vm_compute. discriminate.
Defined.

Ltac count_recent Hlookup :=
  unfold counted; rewrite Hlookup; cbn [default from_option]; unfold id, recent;
  rewrite ?filter_cons, ?filter_nil;
  repeat (rewrite decide_True by lia);
  repeat (rewrite decide_False by lia).

(** C8: a limiter with [windowMs = 1000] and [maxRequests = 3], and a key
    it has not seen. Of four calls of that key at times within one window
    of 1000 ms the first three are admitted and the fourth is rejected with
    status 429 and [retryAfter = 1 = ceil(windowMs / 1000)]; a fifth call,
    made once the window has elapsed since the fourth, is admitted again,
    and is then the only call on record for the key. *)
Theorem four_calls_in_a_window (D : Type) (requests : gmap string (list Z))
  (r1 r2 r3 r4 r5 : Request) (t1 t2 t3 t4 t5 : Z) :
  requests !! limit_key r1 = None ->
  limit_key r2 = limit_key r1 -> limit_key r3 = limit_key r1 ->
  limit_key r4 = limit_key r1 -> limit_key r5 = limit_key r1 ->
  t1 <= t2 -> t2 <= t3 -> t3 <= t4 -> t4 < t1 + 1000 -> t4 + 1000 <= t5 ->
  exists s1 s2 s3 s4 s5 rejection,
    @rateLimit D 1000 3 t1 requests r1 = (s1, Next r1)
    /\ @rateLimit D 1000 3 t2 s1 r2 = (s2, Next r2)
    /\ @rateLimit D 1000 3 t3 s2 r3 = (s3, Next r3)
    /\ @rateLimit D 1000 3 t4 s3 r4 = (s4, Respond 429 rejection)
    /\ retryAfter rejection = Some 1
    /\ ceil_seconds 1000 = 1
    /\ @rateLimit D 1000 3 t5 s4 r5 = (s5, Next r5)
    /\ s5 !! limit_key r1 = Some [t5].
Proof.
  intros H0 K2 K3 K4 K5 H12 H23 H34 Hwin H5.
  set (key := limit_key r1) in *.
  (* first call *)
  assert (C1 : counted 1000 t1 requests key = []) by (count_recent H0; reflexivity).
  pose proof (rateLimit_admits D 1000 3 t1 requests r1) as A1.
  fold key in A1. rewrite C1 in A1. specialize (A1 ltac:(cbn; lia)).
  set (s1 := <[key := [] ++ [t1]]> (cleanup (t1 - 1000) requests)) in *.
  assert (L1 : s1 !! key = Some [t1]) by apply lookup_insert_eq.
  (* second call *)
  assert (C2 : counted 1000 t2 s1 key = [t1]) by (count_recent L1; reflexivity).
  pose proof (rateLimit_admits D 1000 3 t2 s1 r2) as A2.
  rewrite K2, C2 in A2. specialize (A2 ltac:(cbn; lia)).
  set (s2 := <[key := [t1] ++ [t2]]> (cleanup (t2 - 1000) s1)) in *.
  assert (L2 : s2 !! key = Some [t1; t2]) by apply lookup_insert_eq.
  (* third call *)
  assert (C3 : counted 1000 t3 s2 key = [t1; t2])
    by (count_recent L2; reflexivity).
  pose proof (rateLimit_admits D 1000 3 t3 s2 r3) as A3.
  rewrite K3, C3 in A3. specialize (A3 ltac:(cbn; lia)).
  set (s3 := <[key := [t1; t2] ++ [t3]]> (cleanup (t3 - 1000) s2)) in *.
  assert (L3 : s3 !! key = Some [t1; t2; t3]) by apply lookup_insert_eq.
  (* fourth call *)
  assert (C4 : counted 1000 t4 s3 key = [t1; t2; t3])
    by (count_recent L3; reflexivity).
  pose proof (rateLimit_rejects D 1000 3 t4 s3 r4) as R4.
  rewrite K4, C4 in R4. destruct (R4 ltac:(cbn; lia)) as (rej & E4 & _ & Hretry).
  set (s4 := cleanup (t4 - 1000) s3) in *.
  assert (L4 : s4 !! key = Some [t1; t2; t3]).
  { unfold s4. rewrite cleanup_lookup, L3. cbn [mbind option_bind].
    unfold pruned. rewrite recent_id; [reflexivity|].
    repeat constructor; lia. }
  (* fifth call *)
  assert (C5 : counted 1000 t5 s4 key = []) by (count_recent L4; reflexivity).
  pose proof (rateLimit_admits D 1000 3 t5 s4 r5) as A5.
  rewrite K5, C5 in A5. specialize (A5 ltac:(cbn; lia)).
  exists s1, s2, s3, s4, (<[key := [] ++ [t5]]> (cleanup (t5 - 1000) s4)), rej.
  repeat split; try assumption.
  apply lookup_insert_eq.
Qed.

Lemma four_calls_in_a_window_example :
  exists s1 s2 s3 s4 s5 rejection,
    @rateLimit unit 1000 3 100 ∅ (with_key "k") = (s1, Next (with_key "k"))
    /\ @rateLimit unit 1000 3 300 s1 (with_key "k") = (s2, Next (with_key "k"))
    /\ @rateLimit unit 1000 3 600 s2 (with_key "k") = (s3, Next (with_key "k"))
    /\ @rateLimit unit 1000 3 900 s3 (with_key "k")
       = (s4, Respond 429 rejection)
    /\ retryAfter rejection = Some 1
    /\ ceil_seconds 1000 = 1
    /\ @rateLimit unit 1000 3 1900 s4 (with_key "k")
       = (s5, Next (with_key "k"))
    /\ s5 !! limit_key (with_key "k") = Some [1900].
Proof.
  apply (four_calls_in_a_window unit ∅ (with_key "k") (with_key "k")
           (with_key "k") (with_key "k") (with_key "k") 100 300 600 900 1900);
    first [reflexivity | lia].
Defined.

End RateLimiter.

(** ** The schema validator *)

Module Validator.
Import Js Express Validation Routes Spec Fixtures.

Section Facts.

Variable host : Host.

(** The accumulator only ever grows at its end. *)
Lemma validate_loop_acc (acc : list ValidationError) (schema : Schema)
  (body : list (string * Value)) :
  validate_loop host acc schema body
  = match validate_loop host [] schema body with
    | Normal pushed => Normal (acc ++ pushed)
    | Thrown => Thrown
    end.
Proof.
  revert acc. induction schema as [|[n fs] rest IH]; intros acc;
    cbn [validate_loop].
  - rewrite app_nil_r. reflexivity.
  - destruct (validate_field host n fs (get body n)) as [e|]; [|reflexivity].
    rewrite (IH (acc ++ e)), (IH ([] ++ e)).
    destruct (validate_loop host [] rest body) as [es|]; [|reflexivity].
    cbn [app]. rewrite app_assoc. reflexivity.
Qed.

Lemma validate_cons (n : string) (fs : FieldSchema) (rest : Schema)
  (body : list (string * Value)) :
  validate host ((n, fs) :: rest) body
  = match validate_field host n fs (get body n) with
    | Thrown => Thrown
    | Normal e =>
        match validate host rest body with
        | Thrown => Thrown
        | Normal es => Normal (e ++ es)
        end
    end.
Proof.
  unfold validate. cbn [validate_loop].
  destruct (validate_field host n fs (get body n)) as [e|]; [|reflexivity].
  rewrite validate_loop_acc. reflexivity.
Qed.

(** The errors of a schema are those of its rules, in order. *)
Lemma validate_app (s1 s2 : Schema) (body : list (string * Value)) :
  validate host (s1 ++ s2) body
  = match validate host s1 body with
    | Thrown => Thrown
    | Normal e1 =>
        match validate host s2 body with
        | Thrown => Thrown
        | Normal e2 => Normal (e1 ++ e2)
        end
    end.
Proof.
  induction s1 as [|[n fs] rest IH].
  - cbn [app]. change (validate host [] body) with (@Normal (list ValidationError) []).
    destruct (validate host s2 body); reflexivity.
  - change (((n, fs) :: rest) ++ s2) with ((n, fs) :: (rest ++ s2)).
    rewrite !validate_cons, IH.
    destruct (validate_field host n fs (get body n)) as [e|]; [|reflexivity].
    destruct (validate host rest body) as [e1|]; [|reflexivity].
    destruct (validate host s2 body) as [e2|]; [|reflexivity].
    rewrite app_assoc. reflexivity.
Qed.

(** A rule of the schema contributes its errors to the result. *)
Lemma validate_includes (schema : Schema) (body : list (string * Value))
  (n : string) (fs : FieldSchema) (errors : list ValidationError) :
  In (n, fs) schema -> validate host schema body = Normal errors ->
  exists pushed,
    validate_field host n fs (get body n) = Normal pushed
    /\ forall e, In e pushed -> In e errors.
Proof.
  revert errors. induction schema as [|[n' fs'] rest IH]; intros errors Hin;
    [destruct Hin|].
  rewrite validate_cons.
  destruct (validate_field host n' fs' (get body n')) as [e|] eqn:He;
    [|discriminate].
  destruct (validate host rest body) as [es|] eqn:Hes; [|discriminate].
  intros [= <-]. destruct Hin as [[= -> ->]|Hin].
  - exists e. split; [exact He|]. intros x Hx. apply in_or_app. now left.
  - destruct (IH es Hin eq_refl) as (pushed & Hp & Hsub).
    exists pushed. split; [exact Hp|]. intros x Hx.
    apply in_or_app. right. now apply Hsub.
Qed.

(** The outcome of the first test of the loop body. *)
Lemma required_and_missing (name : string) (fs : FieldSchema) (v : Value) :
  required fs = true ->
  v = VUndefined \/ v = VNull \/ v = VStr "" ->
  validate_field host name fs v = Normal [RequiredField name].
Proof.
  intros Hreq Hv. unfold validate_field. rewrite Hreq.
  destruct Hv as [->|[->| ->]]; reflexivity.
Qed.

(** The string block when the pattern is a regular expression. *)
Lemma string_checks_compiled (name : string) (fs : FieldSchema) (s p : string)
  (r : regexp host) :
  pattern fs = Some p -> p <> "" -> RegExp_new host p = Some r ->
  string_checks host name fs s
  = Normal
      ((match minLength fs with
        | Some b =>
            if negb (b =? 0) && (strlen s <? b)
            then [MinLength name b (strlen s)] else []
        | None => []
        end)
       ++ (match maxLength fs with
           | Some b =>
               if negb (b =? 0) && (b <? strlen s)
               then [MaxLength name b (strlen s)] else []
           | None => []
           end)
       ++ (if RegExp_test host r s then [] else [InvalidPattern name p])
       ++ ((if match format fs with
                | Some f => String.eqb f "url"
                | None => false
                end && negb (isValidUrl host s)
            then [InvalidUrl name] else [])
           ++ (if match format fs with
                   | Some f => String.eqb f "email"
                   | None => false
                   end && negb (isValidEmail s)
               then [InvalidEmail name] else []))).
Proof.
  intros Hp Hne Hr. unfold string_checks. rewrite Hp. cbn [truthy_str default from_option].
  unfold id. apply String.eqb_neq in Hne. rewrite Hne. cbn [negb].
  rewrite Hr. reflexivity.
Qed.

(** The string block of a rule without a pattern, or with the empty
    one. *)
Lemma string_checks_no_pattern (name : string) (fs : FieldSchema) (s : string) :
  truthy_str (pattern fs) = false ->
  string_checks host name fs s
  = Normal
      ((match minLength fs with
        | Some b =>
            if negb (b =? 0) && (strlen s <? b)
            then [MinLength name b (strlen s)] else []
        | None => []
        end)
       ++ (match maxLength fs with
           | Some b =>
               if negb (b =? 0) && (b <? strlen s)
               then [MaxLength name b (strlen s)] else []
           | None => []
           end)
       ++ ((if match format fs with
                | Some f => String.eqb f "url"
                | None => false
                end && negb (isValidUrl host s)
            then [InvalidUrl name] else [])
           ++ (if match format fs with
                   | Some f => String.eqb f "email"
                   | None => false
                   end && negb (isValidEmail s)
               then [InvalidEmail name] else []))).
Proof. intros H. unfold string_checks. rewrite H. reflexivity. Qed.

(** The string block when the pattern is not one: the constructor
    throws. *)
Lemma string_checks_throws (name : string) (fs : FieldSchema) (s p : string) :
  pattern fs = Some p -> p <> "" -> RegExp_new host p = None ->
  string_checks host name fs s = Thrown.
Proof.
  intros Hp Hne Hr. unfold string_checks. rewrite Hp. cbn [truthy_str default from_option].
  unfold id. apply String.eqb_neq in Hne. rewrite Hne. cbn [negb].
  rewrite Hr. reflexivity.
Qed.

(** A field that the first two tests let through. *)
Lemma validate_field_present (name : string) (fs : FieldSchema) (v : Value) :
  ~ missing fs v ->
  validate_field host name fs v
  = if truthy_str (type fs)
       && negb (validateType v (default "" (type fs)))
    then Normal [InvalidType name (default "" (type fs)) (typeof v)]
    else
      match
        match v with
        | VStr s => if is_type fs "string" then string_checks host name fs s
                    else Normal []
        | _ => Normal []
        end
      with
      | Thrown => Thrown
      | Normal string_errors =>
          Normal (string_errors
                  ++ match v with
                     | VArr items =>
                         if is_type fs "array"
                         then array_checks name fs
                                (Z.of_nat (length items))
                         else []
                     | _ => []
                     end
                  ++ match v with
                     | VObj props =>
                         if is_type fs "object"
                         then object_checks name fs props
                         else []
                     | _ => []
                     end)
      end.
Proof.
  intros Hpresent. unfold validate_field.
  destruct (required fs) eqn:Hreq;
    destruct v as [| | | |s| | |]; cbn [andb negb];
    try reflexivity;
    try (exfalso; apply Hpresent; unfold missing; tauto).
  destruct s; [|reflexivity].
  exfalso. apply Hpresent. unfold missing. tauto.
Qed.

Lemma is_type_true (fs : FieldSchema) (t : string) :
  is_type fs t = true <-> type fs = Some t.
Proof.
  unfold is_type. destruct (type fs) as [t'|]; [|split; discriminate].
  rewrite String.eqb_eq. split; congruence.
Qed.

Lemma kind_test (fs : FieldSchema) (v : Value) :
  truthy_str (type fs) && negb (validateType v (default "" (type fs))) = false
  <-> (forall t, type fs = Some t -> validateType v t = true).
Proof.
  destruct (type fs) as [t|]; cbn [truthy_str default from_option];
    [|split; [discriminate | reflexivity]].
  unfold id. split.
  - intros H t' [= <-]. destruct (String.eqb t "") eqn:Ht.
    + apply String.eqb_eq in Ht. subst t. reflexivity.
    + cbn [negb andb] in H. apply negb_false_iff in H. exact H.
  - intros H. rewrite (H t eq_refl). apply andb_false_r.
Qed.

(** The type check, kind by kind, against what it is to be of a kind. *)
Lemma validateType_of_kind (t : string) (v : Value) :
  In t kinds -> (validateType v t = true <-> of_kind t v).
Proof.
  unfold kinds. cbn [In].
  intros [<-|[<-|[<-|[<-|[<-|[<-|[<-|[]]]]]]]]; unfold of_kind.
  - change (validateType v "string") with (String.eqb (typeof v) "string").
    split.
    + destruct v as [| | | |s| | |]; try discriminate. eauto 10.
    + intros [[_ [s ->]]|[[H _]|[[H _]|[[H _]|[[H _]|[[H _]|[H _]]]]]]];
        try discriminate H. reflexivity.
  - change (validateType v "number")
      with (match v with VNum x => negb (isNaN x) | _ => false end).
    rewrite NumericKinds.number_check_not_nan. split; [tauto|].
    intros [[H _]|[[_ H]|[[H _]|[[H _]|[[H _]|[[H _]|[H _]]]]]]];
      try discriminate H. exact H.
  - change (validateType v "boolean") with (String.eqb (typeof v) "boolean").
    split.
    + destruct v as [| |b| | | | |]; try discriminate. eauto 10.
    + intros [[H _]|[[H _]|[[_ [b ->]]|[[H _]|[[H _]|[[H _]|[H _]]]]]]];
        try discriminate H. reflexivity.
  - change (validateType v "array") with (isArray v).
    split.
    + destruct v as [| | | | |items| |]; try discriminate. eauto 10.
    + intros [[H _]|[[H _]|[[H _]|[[_ [items ->]]|[[H _]|[[H _]|[H _]]]]]]];
        try discriminate H. reflexivity.
  - change (validateType v "object")
      with (String.eqb (typeof v) "object"
            && negb (match v with VNull => true | _ => false end)
            && negb (isArray v)).
    split.
    + destruct v as [| | | | | |props|]; try discriminate. eauto 10.
    + intros [[H _]|[[H _]|[[H _]|[[H _]|[[_ [props ->]]|[[H _]|[H _]]]]]]];
        try discriminate H. reflexivity.
  - change (validateType v "integer") with (Number_isInteger v).
    rewrite NumericKinds.isInteger_whole. split; [tauto|].
    intros [[H _]|[[H _]|[[H _]|[[H _]|[[H _]|[[_ H]|[H _]]]]]]];
      try discriminate H. exact H.
  - change (validateType v "float")
      with (match v with VNum x => negb (isNaN x) | _ => false end).
    rewrite NumericKinds.number_check_not_nan. split; [tauto|].
    intros [[H _]|[[H _]|[[H _]|[[H _]|[[H _]|[[H _]|[_ H]]]]]]];
      try discriminate H. exact H.
Qed.

(** The test of the kind in the loop body lets a value through exactly
    when the value is of the kind of the rule, if the rule names one. *)
Lemma kind_test_of_kind (fs : FieldSchema) (v : Value) :
  (forall t, type fs = Some t -> In t kinds) ->
  truthy_str (type fs) && negb (validateType v (default "" (type fs))) = false
  <-> (forall t, type fs = Some t -> of_kind t v).
Proof.
  intros Hkinds. rewrite kind_test. split; intros H t Ht.
  - apply (validateType_of_kind t v (Hkinds t Ht)). exact (H t Ht).
  - apply (validateType_of_kind t v (Hkinds t Ht)). exact (H t Ht).
Qed.

Lemma lower_bound_test (mk : Z -> Z -> ValidationError) (bound : option Z)
  (n : Z) :
  0 <= n ->
  match bound with
  | Some b => if negb (b =? 0) && (n <? b) then [mk b n] else []
  | None => []
  end = []
  <-> at_least bound n.
Proof.
  intros Hn. unfold at_least. destruct bound as [b|];
    [|split; [discriminate | reflexivity]].
  destruct (negb (b =? 0) && (n <? b)) eqn:Hb.
  - apply andb_true_iff in Hb as [_ Hb]. apply Z.ltb_lt in Hb.
    split; [discriminate|]. intros H. specialize (H b eq_refl). lia.
  - split; [|reflexivity]. intros _ b' [= <-].
    apply andb_false_iff in Hb as [Hb|Hb].
    + apply negb_false_iff, Z.eqb_eq in Hb. lia.
    + apply Z.ltb_ge in Hb. exact Hb.
Qed.

Lemma upper_bound_test (mk : Z -> Z -> ValidationError) (bound : option Z)
  (n : Z) :
  bound <> Some 0 ->
  match bound with
  | Some b => if negb (b =? 0) && (b <? n) then [mk b n] else []
  | None => []
  end = []
  <-> at_most bound n.
Proof.
  intros Hz. unfold at_most. destruct bound as [b|];
    [|split; [discriminate | reflexivity]].
  destruct (negb (b =? 0) && (b <? n)) eqn:Hb.
  - apply andb_true_iff in Hb as [_ Hb]. apply Z.ltb_lt in Hb.
    split; [discriminate|]. intros H. specialize (H b eq_refl). lia.
  - split; [|reflexivity]. intros _ b' [= <-].
    apply andb_false_iff in Hb as [Hb|Hb].
    + apply negb_false_iff, Z.eqb_eq in Hb. congruence.
    + apply Z.ltb_ge in Hb. exact Hb.
Qed.

Lemma format_test (name : string) (fs : FieldSchema) (s : string) :
  (if match format fs with Some f => String.eqb f "url" | None => false end
      && negb (isValidUrl host s)
   then [InvalidUrl name] else [])
  ++ (if match format fs with Some f => String.eqb f "email" | None => false end
         && negb (isValidEmail s)
      then [InvalidEmail name] else []) = []
  <-> well_formatted host fs s.
Proof.
  unfold well_formatted, isValidUrl.
  destruct (format fs) as [f|]; cbn [andb];
    [|split; [intros _; split; discriminate | reflexivity]].
  destruct (String.eqb f "url") eqn:Hu; destruct (String.eqb f "email") eqn:He;
    cbn [andb];
    try (apply String.eqb_eq in Hu; subst f);
    try (apply String.eqb_eq in He; subst f);
    try discriminate.
  - destruct (URL_new host s); cbn [negb app].
    + split; [intros _; split; [reflexivity | discriminate] | reflexivity].
    + split; [discriminate | intros [H _]; discriminate (H eq_refl)].
  - destruct (isValidEmail s) eqn:Hmail; cbn [negb app].
    + apply EmailFacts.email_form in Hmail.
      split; [intros _; split; [discriminate | intros _; exact Hmail]
             | reflexivity].
    + apply EmailFacts.email_form_false in Hmail.
      split; [discriminate | intros [_ H]; destruct (Hmail (H eq_refl))].
  - apply String.eqb_neq in Hu, He.
    split; [intros _; split; congruence | reflexivity].
Qed.

Lemma object_test (name : string) (fs : FieldSchema)
  (props : list (string * Value)) :
  object_checks name fs props = []
  <-> (forall names, requiredFields fs = Some names ->
         forall sub, In sub names -> has_property props sub = true).
Proof.
  unfold object_checks. destruct (requiredFields fs) as [names|];
    [|split; [discriminate | reflexivity]].
  split.
  - intros H names' [= <-]. induction names as [|n rest IH]; [intros ? []|].
    cbn [flat_map] in H. apply app_eq_nil in H as [Hn Hrest].
    intros sub [<-|Hin]; [|exact (IH Hrest sub Hin)].
    destruct (has_property props n); [reflexivity | discriminate].
  - intros H. specialize (H names eq_refl).
    induction names as [|n rest IH]; [reflexivity|].
    cbn [flat_map]. rewrite (H n (or_introl eq_refl)). cbn [app].
    apply IH. intros sub Hin. apply H. now right.
Qed.

Lemma strlen_nonneg (s : string) : 0 <= strlen s.
Proof. unfold strlen. lia. Qed.

(** The string block returns the empty list exactly on the strings that
    meet the constraints of the rule. *)
Lemma string_checks_sound (name : string) (fs : FieldSchema) (s : string) :
  (forall p, pattern fs = Some p -> p <> "" ->
     exists r, RegExp_new host p = Some r) ->
  maxLength fs <> Some 0 ->
  exists errors,
    string_checks host name fs s = Normal errors
    /\ (errors = []
        <-> at_least (minLength fs) (strlen s)
            /\ at_most (maxLength fs) (strlen s)
            /\ matches_pattern host fs s
            /\ well_formatted host fs s).
Proof.
  intros Hcompile Hmax.
  pose proof (lower_bound_test (MinLength name) (minLength fs) (strlen s)
                (strlen_nonneg s)) as Hlo.
  pose proof (upper_bound_test (MaxLength name) (maxLength fs) (strlen s) Hmax)
    as Hhi.
  pose proof (format_test name fs s) as Hfmt. rewrite app_nil in Hfmt.
  destruct (pattern fs) as [p|] eqn:Hp.
  - destruct (String.eqb p "") eqn:Hempty.
    + eexists. split.
      * apply string_checks_no_pattern. rewrite Hp. cbn [truthy_str].
        rewrite Hempty. reflexivity.
      * apply String.eqb_eq in Hempty. subst p.
        rewrite !app_nil, Hlo, Hhi, Hfmt. unfold matches_pattern.
        split; [|tauto]. intros (H1 & H2 & H3).
        split; [exact H1|]. split; [exact H2|]. split; [|exact H3].
        intros p' Hp' Hne. rewrite Hp in Hp'. congruence.
    + apply String.eqb_neq in Hempty.
      destruct (Hcompile p eq_refl Hempty) as [r Hr].
      eexists. split; [exact (string_checks_compiled name fs s p r Hp Hempty Hr)|].
      rewrite !app_nil, Hlo, Hhi, Hfmt. unfold matches_pattern.
      destruct (RegExp_test host r s) eqn:Ht.
      * split; [|tauto]. intros (H1 & H2 & _ & H3).
        split; [exact H1|]. split; [exact H2|]. split; [|exact H3].
        intros p' Hp' _. rewrite Hp in Hp'. injection Hp' as <-. eauto.
      * split; [intros (_ & _ & H & _); discriminate H|].
        intros (_ & _ & H & _). exfalso.
        destruct (H p Hp Hempty) as (r' & Hr' & Ht').
        rewrite Hr in Hr'. injection Hr' as <-. congruence.
  - eexists. split.
    + apply string_checks_no_pattern. rewrite Hp. reflexivity.
    + rewrite !app_nil, Hlo, Hhi, Hfmt. unfold matches_pattern.
      split; [|tauto]. intros (H1 & H2 & H3).
      split; [exact H1|]. split; [exact H2|]. split; [|exact H3].
      intros p' Hp'. rewrite Hp in Hp'. discriminate.
Qed.

Lemma array_checks_sound (name : string) (fs : FieldSchema) (n : Z) :
  0 <= n -> maxItems fs <> Some 0 ->
  array_checks name fs n = []
  <-> at_least (minItems fs) n /\ at_most (maxItems fs) n.
Proof.
  intros Hn Hmax. unfold array_checks.
  rewrite app_nil, (lower_bound_test (MinItems name) (minItems fs) n Hn),
    (upper_bound_test (MaxItems name) (maxItems fs) n Hmax).
  reflexivity.
Qed.

Lemma missing_or_present (fs : FieldSchema) (v : Value) :
  missing fs v \/ ~ missing fs v.
Proof.
  unfold missing.
  destruct v as [| | | |s| | |];
    try (left; tauto);
    try (right; intros [H|[H|[_ H]]]; discriminate).
  destruct (required fs); destruct s;
    try (left; tauto);
    right; intros [H|[H|[H1 H2]]]; discriminate.
Qed.

(** One turn of the loop returns the empty list exactly when the field
    satisfies its rule. *)
Lemma validate_field_sound (name : string) (fs : FieldSchema) (v : Value) :
  (forall p, pattern fs = Some p -> p <> "" ->
     exists r, RegExp_new host p = Some r) ->
  maxLength fs <> Some 0 -> maxItems fs <> Some 0 ->
  (forall t, type fs = Some t -> In t kinds) ->
  exists errors,
    validate_field host name fs v = Normal errors
    /\ (errors = [] <-> satisfies host fs v).
Proof.
  intros Hcompile HmaxL HmaxI Hkinds.
  destruct (missing_or_present fs v) as [Hm|Hpresent].
  - destruct (required fs) eqn:Hreq.
    + exists [RequiredField name]. split.
      * apply required_and_missing; [exact Hreq|].
        unfold missing in Hm. tauto.
      * split; [discriminate|]. intros [H _]. specialize (H Hm). congruence.
    + exists []. split.
      * unfold validate_field. rewrite Hreq.
        destruct Hm as [->|[->|[H _]]]; [reflexivity | reflexivity | congruence].
      * split; [|reflexivity]. intros _. split; [intros _; exact Hreq|].
        intros H. contradiction.
  - rewrite (validate_field_present name fs v Hpresent).
    destruct (truthy_str (type fs)
              && negb (validateType v (default "" (type fs)))) eqn:Hkind.
    + eexists. split; [reflexivity|]. split; [discriminate|].
      intros [_ H]. destruct (H Hpresent) as [Hk _].
      pose proof (proj2 (kind_test_of_kind fs v Hkinds) Hk). congruence.
    + pose proof (proj1 (kind_test_of_kind fs v Hkinds) Hkind) as Hk.
      clear Hkind.
      rename Hk into Hkind.
      assert (Hsat : forall P : Prop,
                 (P <-> ((forall s, v = VStr s -> type fs = Some "string" ->
                            at_least (minLength fs) (strlen s)
                            /\ at_most (maxLength fs) (strlen s)
                            /\ matches_pattern host fs s
                            /\ well_formatted host fs s)
                         /\ (forall items, v = VArr items ->
                               type fs = Some "array" ->
                               at_least (minItems fs) (Z.of_nat (length items))
                               /\ at_most (maxItems fs)
                                    (Z.of_nat (length items)))
                         /\ (forall props names, v = VObj props ->
                               type fs = Some "object" ->
                               requiredFields fs = Some names ->
                               forall sub, In sub names ->
                                 has_property props sub = true))) ->
                 (P <-> satisfies host fs v)).
      { intros P HP. rewrite HP. unfold satisfies. split.
        - intros H. split; [intros Hm; contradiction|]. intros _.
          split; [exact Hkind | exact H].
        - intros [_ H]. destruct (H Hpresent) as [_ H']. exact H'. }
      destruct v as [| |b|x|s|items|props|].
      * eexists. split; [reflexivity|]. apply Hsat.
        split; [|reflexivity]. intros _.
        split; [discriminate|]. split; discriminate.
      * eexists. split; [reflexivity|]. apply Hsat.
        split; [|reflexivity]. intros _.
        split; [discriminate|]. split; discriminate.
      * eexists. split; [reflexivity|]. apply Hsat.
        split; [|reflexivity]. intros _.
        split; [discriminate|]. split; discriminate.
      * eexists. split; [reflexivity|]. apply Hsat.
        split; [|reflexivity]. intros _.
        split; [discriminate|]. split; discriminate.
      * destruct (is_type fs "string") eqn:Ht.
        -- apply is_type_true in Ht.
           destruct (string_checks_sound name fs s Hcompile HmaxL)
             as (errors & -> & Herr).
           exists (errors ++ [] ++ []). split; [reflexivity|]. apply Hsat.
           rewrite !app_nil_r, Herr. split.
           ++ intros H. split; [intros s' [= <-] _; exact H|].
              split; [discriminate | discriminate].
           ++ intros [H _]. exact (H s eq_refl Ht).
        -- exists []. split; [reflexivity|]. apply Hsat.
           split; [|reflexivity]. intros _.
           split; [|split; discriminate].
           intros s' _ Ht'. apply is_type_true in Ht'. congruence.
      * destruct (is_type fs "array") eqn:Ht.
        -- apply is_type_true in Ht.
           eexists. split; [reflexivity|]. apply Hsat.
           cbn [app]. rewrite app_nil_r.
           rewrite (array_checks_sound name fs (Z.of_nat (length items)))
             by (lia || assumption).
           split.
           ++ intros H. split; [discriminate|].
              split; [intros items' [= <-] _; exact H | discriminate].
           ++ intros (_ & H & _). exact (H items eq_refl Ht).
        -- exists []. split; [reflexivity|]. apply Hsat.
           split; [|reflexivity]. intros _.
           split; [discriminate|]. split; [|discriminate].
           intros items' _ Ht'. apply is_type_true in Ht'. congruence.
      * destruct (is_type fs "object") eqn:Ht.
        -- apply is_type_true in Ht.
           eexists. split; [reflexivity|]. apply Hsat.
           cbn [app]. rewrite object_test. split.
           ++ intros H. split; [discriminate|]. split; [discriminate|].
              intros props' names [= <-] _. apply H.
           ++ intros (_ & _ & H) names. exact (H props names eq_refl Ht).
        -- exists []. split; [reflexivity|]. apply Hsat.
           split; [|reflexivity]. intros _.
           split; [discriminate|]. split; [discriminate|].
           intros props' names _ Ht'. apply is_type_true in Ht'. congruence.
      * eexists. split; [reflexivity|]. apply Hsat.
        split; [|reflexivity]. intros _.
        split; [discriminate|]. split; discriminate.
Qed.

(** A string that the required test lets through, under a rule of kind
    string, goes to the string block and to no other. *)
Lemma validate_field_string (name : string) (fs : FieldSchema) (s : string) :
  required fs = false \/ s <> "" ->
  type fs = Some "string" ->
  validate_field host name fs (VStr s)
  = match string_checks host name fs s with
    | Thrown => Thrown
    | Normal string_errors => Normal (string_errors ++ [] ++ [])
    end.
Proof.
  intros Hpresent Ht.
  rewrite validate_field_present.
  - rewrite Ht. cbn [truthy_str default from_option]. unfold id.
    change (validateType (VStr s) "string") with true. cbn [negb andb].
    rewrite (proj2 (is_type_true fs "string") Ht). reflexivity.
  - unfold missing. intros [H|[H|[Hreq H]]]; try discriminate.
    injection H as ->. destruct Hpresent; congruence.
Qed.

(** A pattern that the constructor rejects makes the loop body throw as
    soon as its field holds a string to test. *)
Lemma validate_field_throws (name : string) (fs : FieldSchema) (s p : string) :
  required fs = false \/ s <> "" ->
  type fs = Some "string" ->
  pattern fs = Some p -> p <> "" -> RegExp_new host p = None ->
  validate_field host name fs (VStr s) = Thrown.
Proof.
  intros Hpresent Ht Hp Hne Hr.
  rewrite (validate_field_string name fs s Hpresent Ht),
    (string_checks_throws name fs s p Hp Hne Hr).
  reflexivity.
Qed.

Lemma validate_sound (schema : Schema) (body : list (string * Value)) :
  patterns_compile host schema -> upper_bounds_nonzero schema ->
  kinds_known schema ->
  exists errors,
    validate host schema body = Normal errors
    /\ (errors = []
        <-> forall name fs, In (name, fs) schema ->
              satisfies host fs (get body name)).
Proof.
  induction schema as [|[n fs] rest IH]; intros Hcompile Hbounds Hkinds.
  - exists []. split; [reflexivity|]. split; [intros _ ? ? []|reflexivity].
  - destruct IH as (es & Hes & Hiff).
    { intros name' fs' p Hin. apply (Hcompile name' fs' p). now right. }
    { intros name' fs' Hin. apply (Hbounds name' fs'). now right. }
    { intros name' fs' t Hin. apply (Hkinds name' fs' t). now right. }
    destruct (Hbounds n fs (or_introl eq_refl)) as [HmaxL HmaxI].
    destruct (validate_field_sound n fs (get body n)
                (fun p => Hcompile n fs p (or_introl eq_refl)) HmaxL HmaxI
                (fun t => Hkinds n fs t (or_introl eq_refl)))
      as (e & He & Heiff).
    exists (e ++ es). split.
    + rewrite validate_cons, He, Hes. reflexivity.
    + rewrite app_nil, Heiff, Hiff. split.
      * intros [Hhead Hrest] name' fs' [[= <- <-]|Hin];
          [exact Hhead | exact (Hrest name' fs' Hin)].
      * intros H. split; [apply H; now left|].
        intros name' fs' Hin. apply H. now right.
Qed.

(** A rule that throws makes the whole loop throw, wherever it stands in
    the schema. *)
Lemma validate_throws_at (schema : Schema) (body : list (string * Value))
  (name : string) (fs : FieldSchema) :
  In (name, fs) schema ->
  validate_field host name fs (get body name) = Thrown ->
  validate host schema body = Thrown.
Proof.
  induction schema as [|[n' fs'] rest IH]; intros Hin Hthrown;
    [destruct Hin|].
  rewrite validate_cons. destruct Hin as [[= -> ->]|Hin].
  - rewrite Hthrown. reflexivity.
  - rewrite (IH Hin Hthrown).
    destruct (validate_field host n' fs' (get body n')); reflexivity.
Qed.

(** C2, as amended: for a schema whose patterns the [RegExp] constructor
    accepts, whose upper bounds are not zero and whose kinds are among the
    seven, and for every payload, validation returns a list of errors,
    and the list is empty exactly when the payload satisfies every rule of
    the schema: a field that is missing is optional, and one that is there
    is of the kind of its rule and meets its bounds, pattern, format and
    required subfields (an empty string under a required rule counting as
    missing, and the numeric kinds being read as the code supports them).
    The middleware then calls [next()] exactly on the payloads that
    satisfy every rule. A rule of kind string with a pattern that the
    constructor rejects makes validation throw on every payload that
    holds a string for it; the middleware then answers 500 and there is
    no list. *)
Theorem validate_total_and_sound (schema : Schema)
  (body : list (string * Value)) :
  (patterns_compile host schema -> upper_bounds_nonzero schema ->
   kinds_known schema ->
   exists errors,
     validate host schema body = Normal errors
     /\ (errors = []
         <-> forall name fs, In (name, fs) schema ->
               satisfies host fs (get body name))
     /\ (forall req, Express.body req = body ->
           (validateRequest host schema req = Next req
            <-> forall name fs, In (name, fs) schema ->
                  satisfies host fs (get body name))))
  /\ (forall name fs s p,
        In (name, fs) schema -> type fs = Some "string" ->
        pattern fs = Some p -> p <> "" -> RegExp_new host p = None ->
        get body name = VStr s -> required fs = false \/ s <> "" ->
        validate host schema body = Thrown
        /\ forall req, Express.body req = body ->
             validateRequest host schema req
             = Respond 500
                 {| success := false; error := "Validation error";
                    Express.message := "Internal validation error";
                    details := None; retryAfter := None |}).
Proof.
  split.
  - intros Hcompile Hbounds Hkinds.
    destruct (validate_sound schema body Hcompile Hbounds Hkinds)
      as (errors & Hv & Hiff).
    exists errors. split; [exact Hv|]. split; [exact Hiff|].
    intros req Hb. unfold validateRequest. rewrite Hb, Hv, <- Hiff.
    destruct errors as [|e rest].
    + split; reflexivity.
    + split; discriminate.
  - intros name fs s p Hin Ht Hp Hne Hr Hv Hpresent.
    assert (Hthrown : validate host schema body = Thrown).
    { apply (validate_throws_at schema body name fs Hin).
      rewrite Hv. exact (validate_field_throws name fs s p Hpresent Ht Hp Hne Hr). }
    split; [exact Hthrown|].
    intros req Hb. unfold validateRequest. rewrite Hb, Hthrown. reflexivity.
Qed.

(** *** Every check that fails is reported *)

Lemma in_lower_bound (mk : Z -> Z -> ValidationError) (bound : option Z)
  (n : Z) (e : ValidationError) :
  0 <= n ->
  In e match bound with
       | Some b => if negb (b =? 0) && (n <? b) then [mk b n] else []
       | None => []
       end
  <-> exists b, bound = Some b /\ n < b /\ e = mk b n.
Proof.
  intros Hn. destruct bound as [b|];
    [|split; [intros [] | intros (b & H & _); discriminate H]].
  destruct (negb (b =? 0) && (n <? b)) eqn:Hb.
  - apply andb_true_iff in Hb as [_ Hb]. apply Z.ltb_lt in Hb. split.
    + intros [<-|[]]. exists b. repeat split. exact Hb.
    + intros (b' & [= <-] & _ & ->). now left.
  - split; [intros []|]. intros (b' & [= <-] & Hlt & _).
    apply andb_false_iff in Hb as [Hb|Hb].
    + apply negb_false_iff, Z.eqb_eq in Hb. lia.
    + apply Z.ltb_ge in Hb. lia.
Qed.

Lemma in_upper_bound (mk : Z -> Z -> ValidationError) (bound : option Z)
  (n : Z) (e : ValidationError) :
  bound <> Some 0 ->
  In e match bound with
       | Some b => if negb (b =? 0) && (b <? n) then [mk b n] else []
       | None => []
       end
  <-> exists b, bound = Some b /\ b < n /\ e = mk b n.
Proof.
  intros Hz. destruct bound as [b|];
    [|split; [intros [] | intros (b & H & _); discriminate H]].
  destruct (negb (b =? 0) && (b <? n)) eqn:Hb.
  - apply andb_true_iff in Hb as [_ Hb]. apply Z.ltb_lt in Hb. split.
    + intros [<-|[]]. exists b. repeat split. exact Hb.
    + intros (b' & [= <-] & _ & ->). now left.
  - split; [intros []|]. intros (b' & [= <-] & Hlt & _).
    apply andb_false_iff in Hb as [Hb|Hb].
    + apply negb_false_iff, Z.eqb_eq in Hb. congruence.
    + apply Z.ltb_ge in Hb. lia.
Qed.

Lemma in_format (name : string) (fs : FieldSchema) (s : string)
  (e : ValidationError) :
  In e ((if match format fs with Some f => String.eqb f "url" | None => false end
            && negb (isValidUrl host s)
         then [InvalidUrl name] else [])
        ++ (if match format fs with
                | Some f => String.eqb f "email"
                | None => false
                end && negb (isValidEmail s)
            then [InvalidEmail name] else []))
  <-> (format fs = Some "url" /\ URL_new host s = false
       /\ e = InvalidUrl name)
      \/ (format fs = Some "email" /\ isValidEmail s = false
          /\ e = InvalidEmail name).
Proof.
  unfold isValidUrl.
  destruct (format fs) as [f|]; cbn [andb app];
    [|split; [intros [] | intros [[H _]|[H _]]; discriminate H]].
  destruct (String.eqb f "url") eqn:Hu; destruct (String.eqb f "email") eqn:He;
    cbn [andb];
    try (apply String.eqb_eq in Hu; subst f);
    try (apply String.eqb_eq in He; subst f);
    try discriminate.
  - destruct (URL_new host s); cbn [negb app]; split.
    + intros [].
    + intros [(_ & H & _)|(H & _)]; discriminate H.
    + intros [<-|[]]. left. repeat split.
    + intros [(_ & _ & ->)|(H & _)]; [now left | discriminate H].
  - destruct (isValidEmail s); cbn [negb app]; split.
    + intros [].
    + intros [(H & _)|(_ & H & _)]; discriminate H.
    + intros [<-|[]]. right. repeat split.
    + intros [(H & _)|(_ & _ & ->)]; [discriminate H | now left].
  - apply String.eqb_neq in Hu, He. split; [intros []|].
    intros [(H & _)|(H & _)]; congruence.
Qed.

Lemma in_object_checks (name : string) (fs : FieldSchema)
  (props : list (string * Value)) (e : ValidationError) :
  In e (object_checks name fs props)
  <-> exists names sub,
        requiredFields fs = Some names /\ In sub names
        /\ has_property props sub = false
        /\ e = RequiredObjectField name sub.
Proof.
  unfold object_checks. destruct (requiredFields fs) as [names|];
    [|split; [intros [] | intros (? & ? & H & _); discriminate H]].
  rewrite in_flat_map. split.
  - intros (sub & Hin & He).
    destruct (has_property props sub) eqn:Hp; [destruct He|].
    destruct He as [<-|[]]. exists names, sub. repeat split; assumption.
  - intros (names' & sub & [= <-] & Hin & Hp & ->).
    exists sub. split; [exact Hin|]. rewrite Hp. now left.
Qed.

Lemma in_array_checks (name : string) (fs : FieldSchema) (n : Z)
  (e : ValidationError) :
  0 <= n -> maxItems fs <> Some 0 ->
  In e (array_checks name fs n)
  <-> (exists b, minItems fs = Some b /\ n < b /\ e = MinItems name b n)
      \/ (exists b, maxItems fs = Some b /\ b < n /\ e = MaxItems name b n).
Proof.
  intros Hn Hz. unfold array_checks.
  rewrite in_app_iff, (in_lower_bound (MinItems name) _ _ _ Hn),
    (in_upper_bound (MaxItems name) _ _ _ Hz).
  reflexivity.
Qed.

Lemma in_string_checks (name : string) (fs : FieldSchema) (s : string) :
  (forall p, pattern fs = Some p -> p <> "" ->
     exists r, RegExp_new host p = Some r) ->
  maxLength fs <> Some 0 ->
  exists errors,
    string_checks host name fs s = Normal errors
    /\ forall e,
         In e errors
         <-> (exists b, minLength fs = Some b /\ strlen s < b
                        /\ e = MinLength name b (strlen s))
             \/ (exists b, maxLength fs = Some b /\ b < strlen s
                           /\ e = MaxLength name b (strlen s))
             \/ (exists p r, pattern fs = Some p /\ p <> ""
                             /\ RegExp_new host p = Some r
                             /\ RegExp_test host r s = false
                             /\ e = InvalidPattern name p)
             \/ (format fs = Some "url" /\ URL_new host s = false
                 /\ e = InvalidUrl name)
             \/ (format fs = Some "email" /\ isValidEmail s = false
                 /\ e = InvalidEmail name).
Proof.
  intros Hcompile Hz.
  destruct (truthy_str (pattern fs)) eqn:Hpat.
  - destruct (pattern fs) as [p|] eqn:Hp; [|discriminate Hpat].
    cbn [truthy_str] in Hpat. apply negb_true_iff, String.eqb_neq in Hpat.
    destruct (Hcompile p eq_refl Hpat) as [r Hr].
    eexists. split; [apply (string_checks_compiled name fs s p r Hp Hpat Hr)|].
    intros e.
    do 3 rewrite in_app_iff.
    rewrite (in_lower_bound (MinLength name) _ _ _ (strlen_nonneg s)),
      (in_upper_bound (MaxLength name) _ _ _ Hz), in_format.
    assert (Hmid : In e (if RegExp_test host r s then []
                         else [InvalidPattern name p])
                   <-> exists p' r', Some p = Some p' /\ p' <> ""
                                    /\ RegExp_new host p' = Some r'
                                    /\ RegExp_test host r' s = false
                                    /\ e = InvalidPattern name p').
    { destruct (RegExp_test host r s) eqn:Ht; split.
      - intros [].
      - intros (p' & r' & [= <-] & _ & Hr' & Ht' & _).
        rewrite Hr in Hr'. injection Hr' as <-. congruence.
      - intros [<-|[]]. exists p, r. repeat split; assumption.
      - intros (p' & r' & [= <-] & _ & _ & _ & ->). now left. }
    rewrite Hmid. tauto.
  - eexists. split; [apply (string_checks_no_pattern name fs s Hpat)|].
    intros e.
    do 2 rewrite in_app_iff.
    rewrite (in_lower_bound (MinLength name) _ _ _ (strlen_nonneg s)),
      (in_upper_bound (MaxLength name) _ _ _ Hz), in_format.
    assert (Hmid : (exists p r, pattern fs = Some p /\ p <> ""
                                /\ RegExp_new host p = Some r
                                /\ RegExp_test host r s = false
                                /\ e = InvalidPattern name p)
                   <-> False).
    { split; [|intros []]. intros (p & r & Hp & Hne & _).
      rewrite Hp in Hpat. cbn [truthy_str] in Hpat.
      apply negb_false_iff, String.eqb_eq in Hpat. contradiction. }
    rewrite Hmid. tauto.
Qed.

Lemma not_missing_array (fs : FieldSchema) (items : list Value) :
  ~ missing fs (VArr items).
Proof. intros [H|[H|[_ H]]]; discriminate H. Qed.

Lemma not_missing_object (fs : FieldSchema) (props : list (string * Value)) :
  ~ missing fs (VObj props).
Proof. intros [H|[H|[_ H]]]; discriminate H. Qed.

(** What a missing field is owed. *)
Lemma owed_missing (name : string) (fs : FieldSchema) (v : Value)
  (e : ValidationError) :
  missing fs v ->
  (owed host name fs v e <-> required fs = true /\ e = RequiredField name).
Proof.
  intros Hm. split.
  - destruct e; cbn [owed];
      try (intros (_ & Hn & _); contradiction).
    + intros (-> & Hreq & _). split; [exact Hreq | reflexivity].
    + intros (_ & _ & _ & items & -> & _).
      destruct (not_missing_array fs items Hm).
    + intros (_ & _ & _ & items & -> & _).
      destruct (not_missing_array fs items Hm).
    + intros (_ & _ & props & names & -> & _).
      destruct (not_missing_object fs props Hm).
  - intros [Hreq ->]. cbn [owed]. repeat split; assumption.
Qed.

(** What a field of the wrong kind is owed. *)
Lemma owed_wrong_kind (name : string) (fs : FieldSchema) (v : Value)
  (t : string) (e : ValidationError) :
  ~ missing fs v -> type fs = Some t -> ~ of_kind t v ->
  (owed host name fs v e <-> e = InvalidType name t (typeof v)).
Proof.
  intros Hp Ht Hk. split.
  - destruct e; cbn [owed].
    + intros (_ & _ & Hm). contradiction.
    + intros (-> & _ & Ht' & _ & ->). congruence.
    + intros (_ & _ & Ht' & _ & s & -> & _). exfalso. apply Hk.
      assert (t = "string") as -> by congruence. left. eauto.
    + intros (_ & _ & Ht' & _ & s & -> & _). exfalso. apply Hk.
      assert (t = "string") as -> by congruence. left. eauto.
    + intros (_ & _ & Ht' & _ & _ & s & r & -> & _). exfalso. apply Hk.
      assert (t = "string") as -> by congruence. left. eauto.
    + intros (_ & _ & Ht' & _ & s & -> & _). exfalso. apply Hk.
      assert (t = "string") as -> by congruence. left. eauto.
    + intros (_ & _ & Ht' & _ & s & -> & _). exfalso. apply Hk.
      assert (t = "string") as -> by congruence. left. eauto.
    + intros (_ & Ht' & _ & items & -> & _). exfalso. apply Hk.
      assert (t = "array") as -> by congruence. unfold of_kind. eauto 10.
    + intros (_ & Ht' & _ & items & -> & _). exfalso. apply Hk.
      assert (t = "array") as -> by congruence. unfold of_kind. eauto 10.
    + intros (_ & Ht' & props & names & -> & _). exfalso. apply Hk.
      assert (t = "object") as -> by congruence. unfold of_kind. eauto 10.
  - intros ->. cbn [owed]. repeat split; assumption.
Qed.

(** One turn of the loop pushes exactly the errors that its rule owes to
    the value. *)
Lemma field_errors_owed (name : string) (fs : FieldSchema) (v : Value) :
  (forall p, pattern fs = Some p -> p <> "" ->
     exists r, RegExp_new host p = Some r) ->
  maxLength fs <> Some 0 -> maxItems fs <> Some 0 ->
  (forall t, type fs = Some t -> In t kinds) ->
  exists pushed,
    validate_field host name fs v = Normal pushed
    /\ forall e, In e pushed <-> owed host name fs v e.
Proof.
  intros Hcompile HmaxL HmaxI Hkinds.
  destruct (missing_or_present fs v) as [Hm|Hpresent].
  - destruct (required fs) eqn:Hreq.
    + exists [RequiredField name]. split.
      * apply required_and_missing; [exact Hreq|].
        unfold missing in Hm. tauto.
      * intros e. rewrite (owed_missing name fs v e Hm), Hreq.
        cbn [In]. split; [intros [<-|[]]; split; reflexivity|].
        intros [_ ->]. now left.
    + exists []. split.
      * unfold validate_field. rewrite Hreq.
        destruct Hm as [->|[->|[H _]]]; [reflexivity | reflexivity | congruence].
      * intros e. rewrite (owed_missing name fs v e Hm), Hreq.
        split; [intros [] | intros [H _]; discriminate H].
  - rewrite (validate_field_present name fs v Hpresent).
    destruct (truthy_str (type fs)
              && negb (validateType v (default "" (type fs)))) eqn:Hkind.
    + destruct (type fs) as [t|] eqn:Ht; [|discriminate Hkind].
      cbn [default from_option] in *. unfold id in *.
      apply andb_true_iff in Hkind as [_ Hkind].
      apply negb_true_iff in Hkind.
      assert (Hnk : ~ of_kind t v).
      { intros Hk.
        apply (validateType_of_kind t v (Hkinds t eq_refl)) in Hk.
        congruence. }
      eexists. split; [reflexivity|]. intros e.
      rewrite (owed_wrong_kind name fs v t e Hpresent Ht Hnk).
      cbn [In]. split; [intros [<-|[]]; reflexivity | intros ->; now left].
    + pose proof (proj1 (kind_test_of_kind fs v Hkinds) Hkind) as Hk.
      clear Hkind.
      assert (Hnone : forall e,
                 owed host name fs v e ->
                 (forall s, v <> VStr s \/ type fs <> Some "string") ->
                 (forall items, v <> VArr items \/ type fs <> Some "array") ->
                 (forall props, v <> VObj props \/ type fs <> Some "object") ->
                 False).
      { intros e He Hs Ha Ho. destruct e; cbn [owed] in He.
        - destruct He as (_ & _ & Hm). contradiction.
        - destruct He as (_ & _ & Ht & Hnk & _). exact (Hnk (Hk _ Ht)).
        - destruct He as (_ & _ & Ht & _ & s & -> & _).
          destruct (Hs s); congruence.
        - destruct He as (_ & _ & Ht & _ & s & -> & _).
          destruct (Hs s); congruence.
        - destruct He as (_ & _ & Ht & _ & _ & s & r & -> & _).
          destruct (Hs s); congruence.
        - destruct He as (_ & _ & Ht & _ & s & -> & _).
          destruct (Hs s); congruence.
        - destruct He as (_ & _ & Ht & _ & s & -> & _).
          destruct (Hs s); congruence.
        - destruct He as (_ & Ht & _ & items & -> & _).
          destruct (Ha items); congruence.
        - destruct He as (_ & Ht & _ & items & -> & _).
          destruct (Ha items); congruence.
        - destruct He as (_ & Ht & props & names & -> & _).
          destruct (Ho props); congruence. }
      assert (Hempty : (forall s, v <> VStr s \/ type fs <> Some "string") ->
                       (forall items, v <> VArr items
                                      \/ type fs <> Some "array") ->
                       (forall props, v <> VObj props
                                      \/ type fs <> Some "object") ->
                       forall e, In e [] <-> owed host name fs v e).
      { intros Hs Ha Ho e. split; [intros []|].
        intros He. exact (Hnone e He Hs Ha Ho). }
      destruct v as [| |b|x|s|items|props|];
        try (exists []; split; [reflexivity|];
             apply Hempty; intros; left; discriminate).
      * destruct (is_type fs "string") eqn:Ht.
        -- apply is_type_true in Ht.
           destruct (in_string_checks name fs s Hcompile HmaxL)
             as (errors & -> & Herr).
           exists (errors ++ [] ++ []). split; [reflexivity|].
           intros e. rewrite !app_nil_r, Herr. split.
           ++ intros [(b & Hb & Hlt & ->)|[(b & Hb & Hlt & ->)
                |[(p & r & Hp & Hne & Hr & Htest & ->)
                 |[(Hf & Hu & ->)|(Hf & Hu & ->)]]]];
                try apply EmailFacts.email_form_false in Hu; cbn [owed];
                repeat (split; [assumption || reflexivity|]); eauto 10.
           ++ destruct e; cbn [owed].
              ** intros (_ & _ & Hm). contradiction.
              ** intros (_ & _ & Ht' & Hnk & _). destruct (Hnk (Hk _ Ht')).
              ** intros (-> & _ & _ & Hb & s' & [= <-] & -> & Hlt).
                 left. eauto.
              ** intros (-> & _ & _ & Hb & s' & [= <-] & -> & Hlt).
                 right. left. eauto.
              ** intros (-> & _ & _ & Hp & Hne & s' & r & [= <-] & Hr & Htest).
                 right. right. left. exists pat, r. repeat split; assumption.
              ** intros (-> & _ & _ & Hf & s' & [= <-] & Hu).
                 right. right. right. left. repeat split; assumption.
              ** intros (-> & _ & _ & Hf & s' & [= <-] & Hu).
                 apply EmailFacts.email_form_false in Hu.
                 right. right. right. right. repeat split; assumption.
              ** intros (_ & _ & _ & items & H & _). discriminate H.
              ** intros (_ & _ & _ & items & H & _). discriminate H.
              ** intros (_ & _ & props & names & H & _). discriminate H.
        -- exists []. split; [reflexivity|]. apply Hempty.
           ++ intros s'. right. intros Ht'. apply is_type_true in Ht'.
              congruence.
           ++ intros. left. discriminate.
           ++ intros. left. discriminate.
      * destruct (is_type fs "array") eqn:Ht.
        -- apply is_type_true in Ht.
           eexists. split; [reflexivity|]. intros e.
           cbn [app]. rewrite app_nil_r.
           rewrite (in_array_checks name fs (Z.of_nat (length items)) e)
             by (lia || assumption).
           split.
           ++ intros [(b & Hb & Hlt & ->)|(b & Hb & Hlt & ->)]; cbn [owed];
                repeat (split; [assumption || reflexivity|]); eauto 10.
           ++ destruct e; cbn [owed].
              ** intros (_ & _ & Hm). contradiction.
              ** intros (_ & _ & Ht' & Hnk & _). destruct (Hnk (Hk _ Ht')).
              ** intros (_ & _ & _ & _ & s & H & _). discriminate H.
              ** intros (_ & _ & _ & _ & s & H & _). discriminate H.
              ** intros (_ & _ & _ & _ & _ & s & r & H & _). discriminate H.
              ** intros (_ & _ & _ & _ & s & H & _). discriminate H.
              ** intros (_ & _ & _ & _ & s & H & _). discriminate H.
              ** intros (-> & _ & Hb & items' & [= <-] & -> & Hlt).
                 left. eauto.
              ** intros (-> & _ & Hb & items' & [= <-] & -> & Hlt).
                 right. eauto.
              ** intros (_ & _ & props & names & H & _). discriminate H.
        -- exists []. split; [reflexivity|]. apply Hempty.
           ++ intros. left. discriminate.
           ++ intros items'. right. intros Ht'. apply is_type_true in Ht'.
              congruence.
           ++ intros. left. discriminate.
      * destruct (is_type fs "object") eqn:Ht.
        -- apply is_type_true in Ht.
           eexists. split; [reflexivity|]. intros e.
           cbn [app]. rewrite in_object_checks. split.
           ++ intros (names & sub & Hn & Hin & Hp & ->). cbn [owed].
              split; [reflexivity|]. split; [exact Ht|].
              exists props, names. repeat split; assumption.
           ++ destruct e; cbn [owed].
              ** intros (_ & _ & Hm). contradiction.
              ** intros (_ & _ & Ht' & Hnk & _). destruct (Hnk (Hk _ Ht')).
              ** intros (_ & _ & _ & _ & s & H & _). discriminate H.
              ** intros (_ & _ & _ & _ & s & H & _). discriminate H.
              ** intros (_ & _ & _ & _ & _ & s & r & H & _). discriminate H.
              ** intros (_ & _ & _ & _ & s & H & _). discriminate H.
              ** intros (_ & _ & _ & _ & s & H & _). discriminate H.
              ** intros (_ & _ & _ & items & H & _). discriminate H.
              ** intros (_ & _ & _ & items & H & _). discriminate H.
              ** intros (-> & _ & props' & names & [= <-] & Hn & Hin & Hp).
                 exists names, requiredField. repeat split; assumption.
        -- exists []. split; [reflexivity|]. apply Hempty.
           ++ intros. left. discriminate.
           ++ intros. left. discriminate.
           ++ intros props'. right. intros Ht'. apply is_type_true in Ht'.
              congruence.
Qed.

(** The errors of a schema are those of its rules, one rule after the
    other, and they are exactly the errors owed. *)
Lemma validate_owed (schema : Schema) (body : list (string * Value)) :
  patterns_compile host schema -> upper_bounds_nonzero schema ->
  kinds_known schema ->
  exists per_rule,
    Forall2 (fun rule pushed =>
               validate_field host rule.1 rule.2 (get body rule.1)
               = Normal pushed) schema per_rule
    /\ validate host schema body = Normal (concat per_rule)
    /\ forall e,
         In e (concat per_rule)
         <-> exists name fs,
               In (name, fs) schema /\ owed host name fs (get body name) e.
Proof.
  induction schema as [|[n fs] rest IH]; intros Hcompile Hbounds Hkinds.
  - exists []. split; [constructor|]. split; [reflexivity|].
    intros e. split; [intros [] | intros (? & ? & [] & _)].
  - destruct IH as (per_rule & Hall & Hes & Hiff).
    { intros name' fs' p Hin. apply (Hcompile name' fs' p). now right. }
    { intros name' fs' Hin. apply (Hbounds name' fs'). now right. }
    { intros name' fs' t Hin. apply (Hkinds name' fs' t). now right. }
    destruct (Hbounds n fs (or_introl eq_refl)) as [HmaxL HmaxI].
    destruct (field_errors_owed n fs (get body n)
                (fun p => Hcompile n fs p (or_introl eq_refl)) HmaxL HmaxI
                (fun t => Hkinds n fs t (or_introl eq_refl)))
      as (pushed & Hp & Hpiff).
    exists (pushed :: per_rule). split; [constructor; assumption|].
    split.
    + rewrite validate_cons, Hp, Hes. reflexivity.
    + intros e. cbn [concat]. rewrite in_app_iff, Hpiff, Hiff. split.
      * intros [H|(name & fs' & Hin & H)].
        -- exists n, fs. split; [now left | exact H].
        -- exists name, fs'. split; [now right | exact H].
      * intros (name & fs' & Hin & Howed). destruct Hin as [Heq|Hin].
        -- injection Heq as <- <-. now left.
        -- right. exists name, fs'. split; assumption.
Qed.

(** C7, as amended: for a schema whose patterns the [RegExp] constructor
    accepts, whose upper bounds are not zero and whose kinds are among the
    seven, and for every payload, validation returns the errors of the
    rules one rule after the other, in the order of the schema, and it
    reports every error that a rule owes to its field and no other: a
    missing required field its REQUIRED_FIELD alone, a field of the wrong
    kind its INVALID_TYPE alone, and a field of the right kind one error
    for each of its checks that fails, whichever others fail. So a string
    that is there, is shorter than its [minLength] and fails its pattern
    has the two errors MIN_LENGTH and INVALID_PATTERN in the result. *)
Theorem errors_accumulate (schema : Schema) (body : list (string * Value)) :
  patterns_compile host schema -> upper_bounds_nonzero schema ->
  kinds_known schema ->
  exists per_rule,
    Forall2 (fun rule pushed =>
               validate_field host rule.1 rule.2 (get body rule.1)
               = Normal pushed) schema per_rule
    /\ validate host schema body = Normal (concat per_rule)
    /\ (forall e,
          In e (concat per_rule)
          <-> exists name fs,
                In (name, fs) schema
                /\ owed host name fs (get body name) e)
    /\ (forall name fs s b p r,
          In (name, fs) schema -> get body name = VStr s ->
          required fs = false \/ s <> "" ->
          type fs = Some "string" ->
          minLength fs = Some b -> strlen s < b ->
          pattern fs = Some p -> p <> "" ->
          RegExp_new host p = Some r -> RegExp_test host r s = false ->
          In (MinLength name b (strlen s)) (concat per_rule)
          /\ In (InvalidPattern name p) (concat per_rule)
          /\ code (MinLength name b (strlen s)) = "MIN_LENGTH"
          /\ code (InvalidPattern name p) = "INVALID_PATTERN"
          /\ MinLength name b (strlen s) <> InvalidPattern name p).
Proof.
  intros Hcompile Hbounds Hkinds.
  destruct (validate_owed schema body Hcompile Hbounds Hkinds)
    as (per_rule & Hall & Hv & Hiff).
  exists per_rule. split; [exact Hall|]. split; [exact Hv|].
  split; [exact Hiff|].
  intros name fs s b p r Hin Hs Hpresent Ht Hmin Hlt Hp Hne Hr Htest.
  assert (Hnm : ~ missing fs (VStr s)).
  { intros [H|[H|[Hreq H]]]; try discriminate H.
    injection H as ->. destruct Hpresent; congruence. }
  split; [|split].
  - apply Hiff. exists name, fs. split; [exact Hin|]. rewrite Hs.
    cbn [owed]. repeat (split; [assumption || reflexivity|]). eauto.
  - apply Hiff. exists name, fs. split; [exact Hin|]. rewrite Hs.
    cbn [owed]. repeat (split; [assumption || reflexivity|]). eauto.
  - repeat split. discriminate.
Qed.

(** C10: under a rule with [required = true], a field whose value is the
    empty string, [undefined] or [null] gets exactly one error, the
    REQUIRED_FIELD error for that field; no other check of the rule is
    applied to it, whatever else the rule asks for, and the rule adds
    nothing else to the errors of the schema. *)
Theorem required_field_missing (before after : Schema)
  (body : list (string * Value)) (name : string) (fs : FieldSchema) :
  required fs = true ->
  get body name = VStr "" \/ get body name = VUndefined
  \/ get body name = VNull ->
  validate_field host name fs (get body name) = Normal [RequiredField name]
  /\ code (RequiredField name) = "REQUIRED_FIELD"
  /\ field (RequiredField name) = name
  /\ validate host (before ++ (name, fs) :: after) body
     = match validate host before body with
       | Thrown => Thrown
       | Normal e1 =>
           match validate host after body with
           | Thrown => Thrown
           | Normal e2 => Normal (e1 ++ [RequiredField name] ++ e2)
           end
       end.
Proof.
  intros Hreq Hv.
  assert (Hfield : validate_field host name fs (get body name)
                   = Normal [RequiredField name])
    by (apply required_and_missing; [exact Hreq | tauto]).
  split; [exact Hfield|]. split; [reflexivity|]. split; [reflexivity|].
  rewrite validate_app, validate_cons, Hfield.
  destruct (validate host before body); [|reflexivity].
  destruct (validate host after body); reflexivity.
Qed.

End Facts.

(** *** The validator at concrete inputs *)

Lemma validate_total_and_sound_language :
  exists errors,
    validate RefHost.host languageSchema [("language", VStr "en")]
    = Normal errors
    /\ (errors = []
        <-> forall name fs, In (name, fs) languageSchema ->
              satisfies RefHost.host fs
                (get [("language", VStr "en")] name))
    /\ (forall req, Express.body req = [("language", VStr "en")] ->
          (validateRequest RefHost.host languageSchema req = Next req
           <-> forall name fs, In (name, fs) languageSchema ->
                 satisfies RefHost.host fs
                   (get [("language", VStr "en")] name))).
Proof.
  apply (proj1 (validate_total_and_sound RefHost.host languageSchema
                  [("language", VStr "en")])).
  - intros name fs p [[= <- <-]|[]] [= <-] _.
    eexists. vm_compute. reflexivity.
  - intros name fs [[= <- <-]|[]]. split; discriminate.
  - intros name fs t [[= <- <-]|[]] [= <-]. now left.
Defined.

Example language_accepted :
  validate RefHost.host languageSchema [("language", VStr "en")] = Normal [].
Proof. vm_compute. reflexivity. Qed.

(** C2, as stated, fails: with a pattern that is not a regular
    expression the validator produces no list at all; the exception is
    caught by the middleware, which answers 500. *)
Lemma validate_throws_on_broken_pattern :
  validate RefHost.host brokenSchema [("language", VStr "en")] = Thrown
  /\ validateRequest RefHost.host brokenSchema
       (with_body [("language", VStr "en")])
     = Respond 500
         {| success := false; error := "Validation error";
            Express.message := "Internal validation error";
            details := None; retryAfter := None |}
  /\ ~ exists errors,
         validate RefHost.host brokenSchema [("language", VStr "en")]
         = Normal errors.
Proof.
  assert (H : validate RefHost.host brokenSchema [("language", VStr "en")]
              = Thrown) by (vm_compute; reflexivity).
  split; [exact H|]. split; [vm_compute; reflexivity|].
  intros [errors He]. rewrite H in He. discriminate He.
Qed.

Lemma errors_accumulate_language :
  exists per_rule,
    Forall2 (fun rule pushed =>
               validate_field RefHost.host rule.1 rule.2
                 (get [("language", VStr "x")] rule.1)
               = Normal pushed) languageSchema per_rule
    /\ validate RefHost.host languageSchema [("language", VStr "x")]
       = Normal (concat per_rule)
    /\ In (MinLength "language" 2 1) (concat per_rule)
    /\ In (InvalidPattern "language" "^(en|de|fr)$") (concat per_rule).
Proof.
  destruct (errors_accumulate RefHost.host languageSchema
              [("language", VStr "x")])
    as (per_rule & Hall & Hv & _ & H).
  - intros name fs p [[= <- <-]|[]] [= <-] _.
    eexists. vm_compute. reflexivity.
  - intros name fs [[= <- <-]|[]]. split; discriminate.
  - intros name fs t [[= <- <-]|[]] [= <-]. now left.
  - exists per_rule. split; [exact Hall|]. split; [exact Hv|].
    eassert (Hr : RegExp_new RefHost.host "^(en|de|fr)$" = Some _)
      by (vm_compute; reflexivity).
    destruct (H "language" _ "x" 2 "^(en|de|fr)$" _
                (or_introl eq_refl) eq_refl (or_introl eq_refl) eq_refl
                eq_refl ltac:(vm_compute; reflexivity) eq_refl
                ltac:(discriminate) Hr ltac:(vm_compute; reflexivity))
      as (Hmin & Hpat & _).
    split; [exact Hmin | exact Hpat].
Defined.

Example language_errors :
  validate RefHost.host languageSchema [("language", VStr "x")]
  = Normal [ MinLength "language" 2 1;
             InvalidPattern "language" "^(en|de|fr)$" ].
Proof. vm_compute. reflexivity. Qed.

(** C7, as stated, fails: the payload holds a string that violates both
    its [minLength] and its pattern, but another rule of the schema has a
    pattern that is not a regular expression and a string to test;
    validation throws, the answer is 500 and carries no list, so neither
    error is reported. *)
Lemma no_errors_reported_beside_a_broken_pattern :
  validate RefHost.host (languageSchema ++ codeSchema)
    [("language", VStr "x"); ("code", VStr "y")] = Thrown
  /\ validateRequest RefHost.host (languageSchema ++ codeSchema)
       (with_body [("language", VStr "x"); ("code", VStr "y")])
     = Respond 500
         {| success := false; error := "Validation error";
            Express.message := "Internal validation error";
            details := None; retryAfter := None |}
  /\ ~ (exists errors,
          validate RefHost.host (languageSchema ++ codeSchema)
            [("language", VStr "x"); ("code", VStr "y")] = Normal errors
          /\ In (MinLength "language" 2 1) errors
          /\ In (InvalidPattern "language" "^(en|de|fr)$") errors).
Proof.
  assert (H : validate RefHost.host (languageSchema ++ codeSchema)
                [("language", VStr "x"); ("code", VStr "y")] = Thrown)
    by (vm_compute; reflexivity).
  split; [exact H|]. split; [vm_compute; reflexivity|].
  intros (errors & He & _). rewrite H in He. discriminate He.
Qed.

Lemma required_field_missing_image :
  validate RefHost.host ocrSchema [("image", VStr "")]
  = Normal [RequiredField "image"].
Proof.
  destruct (required_field_missing RefHost.host [] (tail ocrSchema)
              [("image", VStr "")] "image"
              {| type := Some "string"; required := true;
                 minLength := Some 1; maxLength := None; pattern := None;
                 format := None; minItems := None; maxItems := None;
                 requiredFields := None |})
    as (_ & _ & _ & H); [reflexivity | left; reflexivity |].
  etransitivity; [exact H | vm_compute; reflexivity].
Defined.

(** The same rule when the field is absent or [null], and a required rule
    with a length bound and a pattern on an empty string. *)
Example required_field_absent_or_null :
  validate RefHost.host ocrSchema [] = Normal [RequiredField "image"]
  /\ validate RefHost.host ocrSchema [("image", VNull)]
     = Normal [RequiredField "image"]
  /\ validate RefHost.host
       [ ("language", {| type := Some "string"; required := true;
                         minLength := Some 2; maxLength := None;
                         pattern := Some "^(en|de|fr)$"; format := None;
                         minItems := None; maxItems := None;
                         requiredFields := None |}) ]
       [("language", VStr "")]
     = Normal [RequiredField "language"].
Proof. repeat split; vm_compute; reflexivity. Qed.

(** An optional empty string is there and is checked. *)
Example optional_empty_string_checked :
  validate RefHost.host languageSchema [("language", VStr "")]
  = Normal [ MinLength "language" 2 0;
             InvalidPattern "language" "^(en|de|fr)$" ].
Proof. vm_compute. reflexivity. Qed.

(** The schema of the OCR route on a body with a data URL, a page address
    without a scheme and a language tag in capitals. *)
Example ocr_body_errors :
  validate RefHost.host ocrSchema
    [ ("image", VStr "data:image/png;base64,AAAA");
      ("url", VStr "not a url");
      ("language", VStr "EN");
      ("extra", VBool true) ]
  = Normal [ InvalidUrl "url";
             InvalidPattern "language" "^[a-z]{2,3}(-[A-Z]{2})?$" ].
Proof. vm_compute. reflexivity. Qed.

(** Infinity, which [JSON.parse] returns for [1e999], under kind
    ['number']. *)
Example infinity_validates :
  validate RefHost.host
    [ ("n", {| type := Some "number"; required := true; minLength := None;
               maxLength := None; pattern := None; format := None;
               minItems := None; maxItems := None;
               requiredFields := None |}) ]
    [("n", VNum (S754_infinity false))]
  = Normal [].
Proof. vm_compute. reflexivity. Qed.

End Validator.

(** ** The route chain *)

Module Pipeline.
Import Js Express Validation Auth Routes Cors App Spec Fixtures.

Lemma authenticateRequest_rejection (D : Type) (env : Env) (now : Z)
  (req : Request) (c : Z) (r : Reply D) :
  authenticateRequest env now req = Respond c r ->
  c = 401 /\ success r = false /\ details r = None /\ retryAfter r = None.
Proof.
  unfold authenticateRequest.
  destruct (development env && negb (env_set (API_KEY env))); [discriminate|].
  destruct (getApiKeyFromRequest req) as [k|].
  - destruct (String.eqb k ""); [intros [= <- <-]; repeat split|].
    destruct (negb (isValidApiKey env (VStr k))); [|discriminate].
    intros [= <- <-]. repeat split.
  - intros [= <- <-]. repeat split.
Qed.

Lemma validateRequest_rejection (host : Host) (schema : Schema)
  (req : Request) (c : Z) (r : Reply ValidationError) :
  validateRequest host schema req = Respond c r ->
  success r = false /\ retryAfter r = None
  /\ ((c = 400 /\ exists errors,
                    details r = Some errors /\ errors <> []
                    /\ validate host schema (body req) = Normal errors)
      \/ (c = 500 /\ details r = None
          /\ validate host schema (body req) = Thrown)).
Proof.
  unfold validateRequest.
  destruct (validate host schema (body req)) as [errors|].
  - destruct errors as [|e rest]; [discriminate|].
    intros [= <- <-]. split; [reflexivity|]. split; [reflexivity|].
    left. split; [reflexivity|]. exists (e :: rest).
    repeat split. discriminate.
  - intros [= <- <-]. split; [reflexivity|]. split; [reflexivity|].
    right. repeat split.
Qed.

(** The two handlers that a router registers ahead of a validated route:
    a request that the authenticator rejects is answered by it, with
    status 401, and is not validated; one that it hands on is answered by
    the validator with status 400 (or 500) or reaches the handler. *)
Lemma enter_authenticates_then_validates (host : Host) (env : Env)
  (now : Z) (schema : Schema) (req : Request) :
  (forall c r,
      authenticateRequest env now req = Respond c r ->
      enter host env now schema req = Respond c r /\ c = 401)
  /\ (forall req',
        @authenticateRequest ValidationError env now req = Next req' ->
        enter host env now schema req = validateRequest host schema req')
  /\ (forall c r,
        enter host env now schema req = Respond c r ->
        success r = false /\ retryAfter r = None
        /\ (c = 401 \/ c = 400 \/ c = 500)).
Proof.
  unfold enter, guards. cbn [run].
  destruct (@authenticateRequest ValidationError env now req)
    as [req1|c1 r1] eqn:Hauth.
  - split; [discriminate|]. split.
    + intros req' [= <-].
      destruct (validateRequest host schema req1); reflexivity.
    + intros c r.
      destruct (validateRequest host schema req1) as [req2|c2 r2] eqn:Hval;
        [discriminate|].
      intros [= <- <-].
      destruct (validateRequest_rejection host schema req1 c2 r2 Hval)
        as (Hs & Hr & [[-> _]|[-> _]]); repeat split; auto.
  - destruct (authenticateRequest_rejection _ env now req c1 r1 Hauth)
      as (-> & Hs & _ & Hr).
    split; [intros c r [= <- <-]; split; reflexivity|].
    split; [discriminate|].
    intros c r [= <- <-]. repeat split; auto.
Qed.

Lemma dispatch_stages (host : Host) (lib : Libraries) (cfg : Config) (now : Z)
  (route : Route) (req : Request) :
  dispatch host lib cfg now route req
  = if origin_allowed (ALLOWED_ORIGINS cfg) (headers req !! "origin")
    then
      if limit_reached lib req
      then Answers 429
             (LimiterBody
                "Too many requests from this IP, please try again later."
                (ceil_seconds (windowMs cfg)))
      else
        match json_error lib req with
        | Some e => error_handler cfg e
        | None =>
            match urlencoded_error lib req with
            | Some e => error_handler cfg e
            | None =>
                through (map guard_stage (route_guards host cfg now route))
                  req
            end
        end
    else error_handler cfg
           {| status := None; failure_message := "Not allowed by CORS" |}.
Proof.
  unfold dispatch, app_stages. cbn [app through].
  unfold helmet_stage at 1. unfold cors_stage at 1.
  destruct (origin_allowed (ALLOWED_ORIGINS cfg) (headers req !! "origin"));
    [|reflexivity].
  unfold limiter_stage at 1. destruct (limit_reached lib req); [reflexivity|].
  unfold parser_stage at 1. destruct (json_error lib req); [reflexivity|].
  unfold parser_stage at 1. destruct (urlencoded_error lib req);
    reflexivity.
Qed.

Lemma route_guards_stages (host : Host) (cfg : Config) (now : Z)
  (route : Route) (req : Request) :
  through (map guard_stage (route_guards host cfg now route)) req
  = if authenticated_route route then
      match authenticateRequest (env cfg) now req with
      | Respond c r => Answers c (GuardBody r)
      | Next req' =>
          match route_schema route with
          | Some schema => guard_stage (validateRequest host schema) req'
          | None => Reaches req'
          end
      end
    else Reaches req.
Proof.
  destruct route;
    cbn [route_guards route_schema authenticated_route map through];
    try reflexivity;
    unfold guard_stage at 1;
    destruct (@authenticateRequest ValidationError (env cfg) now req)
      as [req'|c r]; try reflexivity;
    unfold guard_stage;
    match goal with
    | |- context [validateRequest host ?schema req'] =>
        destruct (validateRequest host schema req'); reflexivity
    end.
Qed.

(** C1, as amended: a request to a route meets, of the three components,
    first the rate limiter (the one that index.js mounts for every path,
    which counts by client address), then the authenticator, then the
    validator. The first of them to reject the request answers it and the
    later ones do not run: a client over its limit is answered 429 with
    [error] and [retryAfter] and without [success], whatever its key and
    its payload; otherwise a request that the authenticator rejects is
    answered 401 with [success = false], whatever its payload; otherwise
    the validator answers 400 (500 on an exception) with
    [success = false], or the request reaches the handler. The POST
    routes of the three routers have the authenticator; of them
    [POST /ocr/batch] has no validator; the GET routes have neither.
    Beside these, the only answers ahead of the handler are those of the
    global error handler, for an origin that CORS refuses, ahead of the
    limiter, and for a body that the parsers refuse, between the limiter
    and the authenticator. The limiter of auth.js, which counts by key,
    is not among the stages. *)
Theorem requests_meet_limiter_authenticator_validator (host : Host)
  (lib : Libraries) (cfg : Config) (now : Z) (route : Route)
  (req : Request) :
  let allowed :=
    origin_allowed (ALLOWED_ORIGINS cfg) (headers req !! "origin") in
  let parsed :=
    match json_error lib req, urlencoded_error lib req with
    | None, None => true
    | _, _ => false
    end in
  (allowed = true -> limit_reached lib req = true ->
   dispatch host lib cfg now route req
   = Answers 429
       (LimiterBody "Too many requests from this IP, please try again later."
          (ceil_seconds (windowMs cfg))))
  /\ (allowed = true -> limit_reached lib req = false -> parsed = true ->
      authenticated_route route = true ->
      forall c r,
        authenticateRequest (env cfg) now req = Respond c r ->
        dispatch host lib cfg now route req = Answers c (GuardBody r)
        /\ c = 401)
  /\ (allowed = true -> limit_reached lib req = false -> parsed = true ->
      authenticated_route route = true ->
      forall req',
        @authenticateRequest ValidationError (env cfg) now req = Next req' ->
        dispatch host lib cfg now route req
        = match route_schema route with
          | Some schema =>
              match validateRequest host schema req' with
              | Next req'' => Reaches req''
              | Respond c r => Answers c (GuardBody r)
              end
          | None => Reaches req'
          end)
  /\ (allowed = true -> limit_reached lib req = false -> parsed = true ->
      authenticated_route route = false ->
      dispatch host lib cfg now route req = Reaches req)
  /\ (forall c b,
        dispatch host lib cfg now route req = Answers c b ->
        (c = 429 /\ limit_reached lib req = true
         /\ b = LimiterBody
                  "Too many requests from this IP, please try again later."
                  (ceil_seconds (windowMs cfg)))
        \/ (exists r,
              b = GuardBody r /\ success r = false
              /\ retryAfter r = None
              /\ (c = 401 \/ c = 400 \/ c = 500))
        \/ (exists m st,
              b = FaultBody "Internal server error" m st
              /\ (allowed = false \/ parsed = false)))
  /\ (authenticated_route route = true
      <-> In route [ PostOcr; PostOcrBatch; PostPdfExtract; PostPdfOcr;
                     PostPdfAnalyze; PostAskAI ])
  /\ (route_schema route = None
      <-> authenticated_route route = false \/ route = PostOcrBatch).
Proof.
  cbv zeta. rewrite dispatch_stages, route_guards_stages.
  split; [intros -> ->; reflexivity|].
  split.
  { intros -> -> Hparsed -> c r Hauth.
    destruct (json_error lib req); [discriminate Hparsed|].
    destruct (urlencoded_error lib req); [discriminate Hparsed|].
    rewrite Hauth. split; [reflexivity|].
    exact (proj1 (authenticateRequest_rejection _ _ _ _ _ _ Hauth)). }
  split.
  { intros -> -> Hparsed -> req' Hauth.
    destruct (json_error lib req); [discriminate Hparsed|].
    destruct (urlencoded_error lib req); [discriminate Hparsed|].
    rewrite Hauth. reflexivity. }
  split.
  { intros -> -> Hparsed ->.
    destruct (json_error lib req); [discriminate Hparsed|].
    destruct (urlencoded_error lib req); [discriminate Hparsed|].
    reflexivity. }
  split.
  { intros c b.
    destruct (origin_allowed (ALLOWED_ORIGINS cfg) (headers req !! "origin"));
      [|unfold error_handler; intros [= <- <-]; right; right; eauto].
    destruct (limit_reached lib req);
      [intros [= <- <-]; left; repeat split|].
    destruct (json_error lib req);
      [unfold error_handler; intros [= <- <-]; right; right; eauto|].
    destruct (urlencoded_error lib req);
      [unfold error_handler; intros [= <- <-]; right; right; eauto|].
    destruct (authenticated_route route); [|discriminate].
    destruct (@authenticateRequest ValidationError (env cfg) now req)
      as [req'|c1 r1] eqn:Hauth.
    - destruct (route_schema route) as [schema|]; [|discriminate].
      unfold guard_stage.
      destruct (validateRequest host schema req') as [req''|c2 r2] eqn:Hval;
        [discriminate|].
      intros [= <- <-]. right. left. exists r2.
      destruct (validateRequest_rejection host schema req' c2 r2 Hval)
        as (Hs & Hr & [[-> _]|[-> _]]); repeat split; auto.
    - intros [= <- <-]. right. left. exists r1.
      destruct (authenticateRequest_rejection _ _ _ _ _ _ Hauth)
        as (-> & Hs & _ & Hr).
      repeat split; auto. }
  split.
  - destruct route; cbn [authenticated_route In]; split;
      try discriminate; try tauto;
      intros H; repeat (destruct H as [H|H]; try discriminate H);
      destruct H.
  - destruct route; cbn [authenticated_route route_schema]; split;
      try discriminate; try tauto;
      intros [H|H]; discriminate H.
Qed.

Lemma requests_meet_limiter_authenticator_validator_ocr :
  dispatch RefHost.host saturated production 1700000000000 PostOcr
    {| headers := {[ "x-api-key" := "secret123" ]}; query := [];
       body := [("image", VStr "data:image/png;base64,AAAA")];
       ip := "203.0.113.7"; auth := None |}
  = Answers 429
      (LimiterBody "Too many requests from this IP, please try again later."
         900).
Proof.
  refine (proj1 (requests_meet_limiter_authenticator_validator RefHost.host
                   saturated production 1700000000000 PostOcr _) _ _);
    reflexivity.
Defined.

(** C1, as stated, fails. A request without a key and without the
    required [image], sent to a server with a configured key, is answered
    401 by the authenticator, and 429 by the limiter when its client is
    over the limit; the order Validate, Authenticate, Rate-limit answers
    it 400 with the validation errors in both cases. And a request to
    [POST /ocr/batch] with the key and an empty payload reaches the
    handler: no validator stands before it. *)
Lemma validation_comes_last :
  dispatch RefHost.host quiet production 1700000000000 PostOcr anonymous
  = Answers 401
      (GuardBody (reply "Authentication required"
                    "API key is required for this endpoint"))
  /\ dispatch RefHost.host saturated production 1700000000000 PostOcr anonymous
     = Answers 429
         (LimiterBody
            "Too many requests from this IP, please try again later." 900)
  /\ (admission RefHost.host prod_with_key 900000 100 1700000000000
        ocrSchema ∅ anonymous).2
     = Respond 400
         {| success := false; error := "Validation failed";
            Express.message := "Request validation failed";
            details := Some [RequiredField "image"]; retryAfter := None |}
  /\ served_code
       (dispatch RefHost.host quiet production 1700000000000 PostOcr anonymous)
     <> code_of (admission RefHost.host prod_with_key 900000 100
                   1700000000000 ocrSchema ∅ anonymous).2
  /\ served_code
       (dispatch RefHost.host saturated production 1700000000000 PostOcr
          anonymous)
     <> code_of (admission RefHost.host prod_with_key 900000 100
                   1700000000000 ocrSchema ∅ anonymous).2
  /\ dispatch RefHost.host quiet production 1700000000000 PostOcrBatch
       (with_key "secret123")
     = Reaches
         (set_auth {| apiKey := Some "secret123"; authenticated := true;
                      timestamp := Some 1700000000000 |}
            (with_key "secret123")).
Proof.
  assert (H1 : dispatch RefHost.host quiet production 1700000000000 PostOcr
                 anonymous
               = Answers 401
                   (GuardBody (reply "Authentication required"
                                 "API key is required for this endpoint")))
    by (vm_compute; reflexivity).
  assert (H2 : dispatch RefHost.host saturated production 1700000000000 PostOcr
                 anonymous
               = Answers 429
                   (LimiterBody
                      "Too many requests from this IP, please try again later."
                      900))
    by (vm_compute; reflexivity).
  assert (H3 : (admission RefHost.host prod_with_key 900000 100 1700000000000
                  ocrSchema ∅ anonymous).2
               = Respond 400
                   {| success := false; error := "Validation failed";
                      Express.message := "Request validation failed";
                      details := Some [RequiredField "image"];
                      retryAfter := None |})
    by (vm_compute; reflexivity).
  assert (H4 : dispatch RefHost.host quiet production 1700000000000
                 PostOcrBatch (with_key "secret123")
               = Reaches
                   (set_auth {| apiKey := Some "secret123";
                                authenticated := true;
                                timestamp := Some 1700000000000 |}
                      (with_key "secret123")))
    by (vm_compute; reflexivity).
  rewrite H1, H2, H3. cbn [served_code code_of].
  split; [reflexivity|]. split; [reflexivity|]. split; [reflexivity|].
  split; [discriminate|]. split; [discriminate|]. exact H4.
Qed.

(** A request with the configured key and a valid body reaches the
    handler with its identity attached. *)
Example admitted_request :
  enter RefHost.host prod_with_key 1700000000000 pdfExtractSchema
    {| headers := {[ "x-api-key" := "secret123" ]}; query := [];
       body := [("pdfData", VStr "data:application/pdf;base64,AAAA")];
       ip := "203.0.113.7"; auth := None |}
  = Next
      {| headers := {[ "x-api-key" := "secret123" ]}; query := [];
         body := [("pdfData", VStr "data:application/pdf;base64,AAAA")];
         ip := "203.0.113.7";
         auth := Some {| apiKey := Some "secret123"; authenticated := true;
                         timestamp := Some 1700000000000 |} |}.
Proof. vm_compute. reflexivity. Qed.

End Pipeline.

(** ** More on the authenticators *)

Module AuthenticatorMore.
Import Js Express Auth Spec Fixtures.

Lemma resolved_nonempty (req : Request) (k : string) :
  getApiKeyFromRequest req = Some k -> String.eqb k "" = false.
Proof.
  unfold getApiKeyFromRequest. generalize (locations req).
  intros cands. induction cands as [|v rest IH]; [discriminate|].
  cbn [first_usable]. destruct (usable v) eqn:Hu; [|exact IH].
  destruct v as [| | | |s| | |]; try discriminate.
  intros [= <-]. unfold usable in Hu.
  apply andb_true_iff in Hu as [_ Hu]. apply Z.ltb_lt in Hu.
  destruct (trim s); [discriminate Hu | reflexivity].
Qed.

(** X1: outside development mode and without a configured key the
    authenticator fails closed: no value is a valid key and every request
    is answered 401, with "Authentication required" when it presents no
    key and "Invalid API key" when it presents one. *)
Theorem no_key_outside_development_rejects (D : Type) (env : Env) (now : Z)
  (req : Request) :
  development env = false -> env_set (API_KEY env) = false ->
  (forall v, isValidApiKey env v = false)
  /\ (getApiKeyFromRequest req = None ->
      @authenticateRequest D env now req
      = Respond 401 (reply "Authentication required"
                       "API key is required for this endpoint"))
  /\ (forall k, getApiKeyFromRequest req = Some k ->
      @authenticateRequest D env now req
      = Respond 401 (reply "Invalid API key"
                       "The provided API key is invalid")).
Proof.
  intros Hdev Hkey.
  assert (Hinvalid : forall v, isValidApiKey env v = false).
  { intros [| | | |k| | |]; try reflexivity.
    unfold isValidApiKey. rewrite Hkey, Hdev. destruct (String.eqb k ""); reflexivity. }
  split; [exact Hinvalid|].
  unfold authenticateRequest. rewrite Hdev. cbn [andb].
  split.
  - intros ->. reflexivity.
  - intros k Hk. rewrite Hk, (resolved_nonempty req k Hk), Hinvalid.
    reflexivity.
Qed.

Lemma no_key_outside_development_rejects_example :
  @authenticateRequest unit {| NODE_ENV := Some "production"; API_KEY := None |}
    1700000000000 (with_key "a-long-enough-key")
  = Respond 401 (reply "Invalid API key" "The provided API key is invalid").
Proof.
  destruct (no_key_outside_development_rejects unit
              {| NODE_ENV := Some "production"; API_KEY := None |}
              1700000000000 (with_key "a-long-enough-key"))
    as (_ & _ & H); [reflexivity | reflexivity |].
  apply (H "a-long-enough-key"). vm_compute. reflexivity.
Defined.

(** X2: with a configured key, in any mode, the authenticator lets a
    request through exactly when the key it resolves is the configured one,
    character for character; the request then goes on with that key, the
    mark [authenticated = true] and the time attached, and is otherwise
    unchanged. *)
Theorem configured_key_exact_match (D : Type) (env : Env) (now : Z)
  (req : Request) (valid : string) :
  API_KEY env = Some valid -> valid <> "" ->
  ((exists req', @authenticateRequest D env now req = Next req')
   <-> getApiKeyFromRequest req = Some valid)
  /\ (forall req', @authenticateRequest D env now req = Next req' ->
        auth req' = Some {| apiKey := Some valid; authenticated := true;
                            timestamp := Some now |}
        /\ headers req' = headers req /\ query req' = query req
        /\ body req' = body req /\ ip req' = ip req).
Proof.
  intros Hkey Hne.
  assert (Hset : env_set (API_KEY env) = true).
  { rewrite Hkey. cbn [env_set]. apply String.eqb_neq in Hne. rewrite Hne.
    reflexivity. }
  unfold authenticateRequest. rewrite Hset, andb_false_r.
  destruct (getApiKeyFromRequest req) as [k|] eqn:Hk.
  - rewrite (resolved_nonempty req k Hk).
    unfold isValidApiKey. rewrite (resolved_nonempty req k Hk), Hset, Hkey.
    cbn [default from_option]. unfold id.
    destruct (String.eqb k valid) eqn:Heq; cbn [negb].
    + apply String.eqb_eq in Heq. subst k. split.
      * split; [reflexivity | eauto].
      * intros req' [= <-]. repeat split.
    + apply String.eqb_neq in Heq. split.
      * split; [intros [req' H]; discriminate H | congruence].
      * discriminate.
  - split; [split; [intros [req' H]; discriminate H | discriminate]|].
    discriminate.
Qed.

Lemma configured_key_exact_match_example :
  (exists req', @authenticateRequest unit prod_with_key 1700000000000
                  (with_key "  secret123 ") = Next req')
  /\ ~ (exists req', @authenticateRequest unit prod_with_key 1700000000000
                       (with_key "Secret123") = Next req').
Proof.
  split.
  - apply (proj1 (configured_key_exact_match unit prod_with_key 1700000000000
                    (with_key "  secret123 ") "secret123" eq_refl
                    ltac:(discriminate))).
    vm_compute. reflexivity.
  - intros H.
    apply (proj1 (configured_key_exact_match unit prod_with_key 1700000000000
                    (with_key "Secret123") "secret123" eq_refl
                    ltac:(discriminate))) in H.
    vm_compute in H. discriminate H.
Defined.

(** X3: the optional authenticator never answers: it always calls
    [next()], always with an identity attached and the rest of the request
    unchanged, and the identity says [authenticated = true] exactly when
    the resolved key is valid. Outside the development bypass the two
    authenticators agree: what the mandatory one lets through, the
    optional one hands on identically. *)
Theorem optionalAuthenticate_never_rejects (D : Type) (env : Env) (now : Z)
  (req : Request) :
  exists a,
    @optionalAuthenticate D env now req = Next (set_auth a req)
    /\ timestamp a = Some now
    /\ (authenticated a = true
        <-> exists k, getApiKeyFromRequest req = Some k
                      /\ isValidApiKey env (VStr k) = true
                      /\ apiKey a = Some k)
    /\ (authenticated a = false -> apiKey a = None)
    /\ (development env && negb (env_set (API_KEY env)) = false ->
        forall req', @authenticateRequest D env now req = Next req' ->
                     @optionalAuthenticate D env now req = Next req').
Proof.
  unfold optionalAuthenticate, authenticateRequest.
  destruct (getApiKeyFromRequest req) as [k|] eqn:Hk.
  - rewrite (resolved_nonempty req k Hk). cbn [negb andb].
    destruct (isValidApiKey env (VStr k)) eqn:Hv.
    + eexists. split; [reflexivity|]. split; [reflexivity|].
      split; [split; [eauto | reflexivity]|].
      split; [discriminate|].
      intros ->. cbn [negb]. intros req' [= <-]. reflexivity.
    + eexists. split; [reflexivity|]. split; [reflexivity|].
      split; [split; [discriminate | intros (k' & [= <-] & H & _); congruence]|].
      split; [reflexivity|].
      intros ->. cbn [negb]. discriminate.
  - eexists. split; [reflexivity|]. split; [reflexivity|].
    split; [split; [discriminate | intros (k' & H & _); discriminate H]|].
    split; [reflexivity|].
    intros ->. discriminate.
Qed.

(** X4: a request that the mandatory authenticator lets through outside
    its bypass is counted by the limiter under its API key, whatever its
    address; a request without an identity, or with an identity that holds
    no key, is counted under its address. *)
Theorem limiter_key_after_authentication (D : Type) (env : Env) (now : Z)
  (req req' : Request) :
  development env && negb (env_set (API_KEY env)) = false ->
  @authenticateRequest D env now req = Next req' ->
  (exists k, getApiKeyFromRequest req = Some k /\ limit_key req' = k)
  /\ (forall r, auth r = None -> limit_key r = ip r)
  /\ (forall r a, auth r = Some a -> apiKey a = None -> limit_key r = ip r).
Proof.
  intros Hbypass H. unfold authenticateRequest in H. rewrite Hbypass in H.
  split.
  - destruct (getApiKeyFromRequest req) as [k|] eqn:Hk; [|discriminate].
    rewrite (resolved_nonempty req k Hk) in H.
    destruct (negb (isValidApiKey env (VStr k))); [discriminate|].
    injection H as <-. exists k. split; [reflexivity|].
    unfold limit_key. cbn. rewrite (resolved_nonempty req k Hk). reflexivity.
  - split.
    + intros r Hr. unfold limit_key. rewrite Hr. reflexivity.
    + intros r a Hr Ha. unfold limit_key. rewrite Hr, Ha. reflexivity.
Qed.

Lemma limiter_key_after_authentication_example :
  exists k,
    getApiKeyFromRequest (with_key "secret123") = Some k
    /\ limit_key (set_auth {| apiKey := Some "secret123";
                              authenticated := true;
                              timestamp := Some 1700000000000 |}
                    (with_key "secret123")) = k.
Proof.
  apply (proj1 (limiter_key_after_authentication unit prod_with_key
                  1700000000000 (with_key "secret123") _ eq_refl
                  ltac:(vm_compute; reflexivity))).
Defined.

End AuthenticatorMore.

(** ** More on the rate limiter *)

Module RateLimiterMore.
Import Js Express Auth Spec Fixtures Traffic RateLimiter.

Lemma recent_recent (ws ws' : Z) (l : list Z) :
  ws <= ws' -> recent ws' (recent ws l) = recent ws' l.
Proof.
  intros Hle. unfold recent. induction l as [|t l IH]; [reflexivity|].
  rewrite !filter_cons.
  destruct (decide (ws < t)) as [Ht|Ht].
  - rewrite filter_cons. destruct (decide (ws' < t)); [f_equal|]; exact IH.
  - rewrite decide_False by lia. exact IH.
Qed.

Lemma recent_app (ws : Z) (l1 l2 : list Z) :
  recent ws (l1 ++ l2) = recent ws l1 ++ recent ws l2.
Proof. unfold recent. apply filter_app. Qed.

Lemma length_recent (ws : Z) (l : list Z) :
  (length (recent ws l) <= length l)%nat.
Proof. unfold recent. apply length_filter. Qed.

(** What counts for a key after a call, seen from the same time or
    later. *)
Lemma counted_after_cleanup (windowMs now now' : Z)
  (requests : gmap string (list Z)) (k : string) :
  now <= now' ->
  counted windowMs now' (cleanup (now - windowMs) requests) k
  = counted windowMs now' requests k.
Proof.
  intros Hle. unfold counted. rewrite cleanup_lookup.
  destruct (requests !! k) as [l|]; [|reflexivity].
  cbn [mbind option_bind default from_option]. unfold id, pruned.
  destruct (Z.of_nat (length (recent (now - windowMs) l)) =? 0) eqn:He.
  - apply Z.eqb_eq in He.
    assert (Hnil : recent (now - windowMs) l = [])
      by (destruct (recent (now - windowMs) l); [reflexivity | cbn in He; lia]).
    rewrite <- (recent_recent (now - windowMs) (now' - windowMs) l) by lia.
    rewrite Hnil. reflexivity.
  - cbn [default from_option]. unfold id. apply recent_recent. lia.
Qed.

(** X5: a call is let through exactly when fewer than [maxRequests]
    timestamps of its key lie within the window; a rejected call is
    answered 429 and is not recorded, so that it does not count against
    the key later. *)
Theorem rateLimit_decision (D : Type) (windowMs maxRequests now : Z)
  (requests : gmap string (list Z)) (req : Request) :
  ((@rateLimit D windowMs maxRequests now requests req).2 = Next req
   <-> Z.of_nat (length (counted windowMs now requests (limit_key req)))
       < maxRequests)
  /\ ((exists r, (@rateLimit D windowMs maxRequests now requests req).2
                 = Respond 429 r)
      <-> maxRequests
          <= Z.of_nat (length (counted windowMs now requests (limit_key req))))
  /\ (forall r now',
        (@rateLimit D windowMs maxRequests now requests req).2 = Respond 429 r ->
        now <= now' ->
        counted windowMs now'
          (@rateLimit D windowMs maxRequests now requests req).1 (limit_key req)
        = counted windowMs now' requests (limit_key req)).
Proof.
  destruct (Z.lt_ge_cases
              (Z.of_nat (length (counted windowMs now requests (limit_key req))))
              maxRequests) as [Hlt|Hge].
  - rewrite (rateLimit_admits D _ _ _ _ _ Hlt). cbn [fst snd].
    split; [tauto|]. split.
    + split; [intros [r H]; discriminate H | lia].
    + discriminate.
  - destruct (rateLimit_rejects D _ _ _ _ _ Hge) as (r & -> & _).
    cbn [fst snd]. split; [split; [discriminate | lia]|].
    split; [split; eauto|].
    intros _ now' _ Hle. apply counted_after_cleanup. exact Hle.
Qed.

(** X6: the calls of one key leave the count of every other key as it
    was: seen from the time of the call or later, the same timestamps of
    the other key lie within the window before and after. *)
Theorem keys_do_not_interfere (D : Type) (windowMs maxRequests now now' : Z)
  (requests : gmap string (list Z)) (req : Request) (k : string) :
  k <> limit_key req -> now <= now' ->
  counted windowMs now'
    (@rateLimit D windowMs maxRequests now requests req).1 k
  = counted windowMs now' requests k.
Proof.
  intros Hne Hle.
  destruct (Z.lt_ge_cases
              (Z.of_nat (length (counted windowMs now requests (limit_key req))))
              maxRequests) as [Hlt|Hge].
  - rewrite (rateLimit_admits D _ _ _ _ _ Hlt). cbn [fst].
    unfold counted at 1. rewrite lookup_insert_ne by congruence.
    apply counted_after_cleanup. exact Hle.
  - destruct (rateLimit_rejects D _ _ _ _ _ Hge) as (r & -> & _).
    cbn [fst]. apply counted_after_cleanup. exact Hle.
Qed.

Lemma keys_do_not_interfere_example :
  counted 1000 5200
    (@rateLimit unit 1000 3 5100 {[ "other" := [4900; 5000] ]}
       (with_key "k")).1 "other"
  = counted 1000 5200 {[ "other" := [4900; 5000] ]} "other".
Proof.
  apply (keys_do_not_interfere unit 1000 3 5100 5200); [|lia].
  vm_compute. discriminate.
Defined.

(** X7: a map in which no key has more than [maxRequests] timestamps
    stays so under any sequence of calls; a limiter that starts empty never
    holds more than [maxRequests] timestamps for a key. *)
Theorem capacity_bound (D : Type) (windowMs maxRequests : Z)
  (calls : list (Z * Request)) (requests : gmap string (list Z)) :
  (forall k l, requests !! k = Some l -> Z.of_nat (length l) <= maxRequests) ->
  forall k l,
    (@serve D windowMs maxRequests requests calls).1 !! k = Some l ->
    Z.of_nat (length l) <= maxRequests.
Proof.
  revert requests. induction calls as [|[now req] rest IH];
    intros requests Hbound; [exact Hbound|].
  cbn [serve fst]. apply IH. clear IH rest.
  assert (Hclean : forall k l,
             cleanup (now - windowMs) requests !! k = Some l ->
             Z.of_nat (length l) <= maxRequests).
  { intros k l. rewrite cleanup_lookup.
    destruct (requests !! k) as [old|] eqn:Hold; [|discriminate].
    cbn [mbind option_bind]. intros H. apply pruned_spec in H as [-> _].
    pose proof (length_recent (now - windowMs) old).
    pose proof (Hbound k old Hold). lia. }
  destruct (Z.lt_ge_cases
              (Z.of_nat (length (counted windowMs now requests (limit_key req))))
              maxRequests) as [Hlt|Hge].
  - rewrite (rateLimit_admits D _ _ _ _ _ Hlt). cbn [fst]. intros k l.
    destruct (decide (limit_key req = k)) as [<-|Hne].
    + rewrite lookup_insert_eq. intros [= <-].
      rewrite length_app. cbn [length]. lia.
    + rewrite lookup_insert_ne by exact Hne. apply Hclean.
  - destruct (rateLimit_rejects D _ _ _ _ _ Hge) as (r & -> & _).
    cbn [fst]. exact Hclean.
Qed.

Lemma capacity_bound_example :
  (@serve unit 1000 2 ∅
     [ (100, with_key "a"); (200, with_key "a"); (300, with_key "a");
       (1500, with_key "a") ]).1 !! "203.0.113.7" = Some [1500]
  /\ Z.of_nat (length [1500]) <= 2.
Proof.
  assert (H : (@serve unit 1000 2 ∅
                 [ (100, with_key "a"); (200, with_key "a");
                   (300, with_key "a"); (1500, with_key "a") ]).1
              !! "203.0.113.7" = Some [1500]) by (vm_compute; reflexivity).
  split; [exact H|].
  refine (capacity_bound unit 1000 2 _ ∅ _ "203.0.113.7" [1500] H).
  intros k l Hl. rewrite lookup_empty in Hl. discriminate Hl.
Defined.

Lemma times_of_app (k : string) (l1 l2 : list (Z * string)) :
  times_of k (l1 ++ l2) = times_of k l1 ++ times_of k l2.
Proof. unfold times_of. rewrite filter_app, map_app. reflexivity. Qed.

Lemma times_of_one (k k' : string) (t : Z) :
  times_of k [(t, k')] = if decide (k' = k) then [t] else [].
Proof.
  unfold times_of. rewrite filter_cons. cbn [snd].
  destruct (decide (k' = k)); reflexivity.
Qed.

Lemma within_limit_snoc (windowMs maxRequests t : Z) (k : string)
  (log : list (Z * string)) :
  within_limit windowMs maxRequests log ->
  Z.of_nat (length (recent (t - windowMs) (times_of k log))) < maxRequests ->
  within_limit windowMs maxRequests (log ++ [(t, k)]).
Proof.
  intros Hlog Hnew before t' k' after Heq.
  destruct after as [|e after] using rev_ind.
  - apply app_inj_tail in Heq as [<- [= <- <-]]. exact Hnew.
  - clear IHafter. rewrite app_comm_cons, app_assoc in Heq.
    apply app_inj_tail in Heq as [Heq _].
    exact (Hlog before t' k' after Heq).
Qed.

Lemma serve_within_limit (D : Type) (windowMs maxRequests : Z)
  (calls : list (Z * Request)) :
  forall (requests : gmap string (list Z)) (log : list (Z * string)) (t0 : Z),
    agrees windowMs t0 requests log ->
    within_limit windowMs maxRequests log ->
    monotone t0 calls ->
    within_limit windowMs maxRequests
      (log ++ grants calls (@serve D windowMs maxRequests requests calls).2).
Proof.
  induction calls as [|[now req] rest IH]; intros requests log t0 Hag Hlog Hmono.
  - cbn [serve snd grants]. rewrite app_nil_r. exact Hlog.
  - destruct Hmono as [Ht0 Hmono]. cbn [serve fst snd].
    destruct (Z.lt_ge_cases
                (Z.of_nat (length (counted windowMs now requests (limit_key req))))
                maxRequests) as [Hlt|Hge].
    + rewrite (rateLimit_admits D _ _ _ _ _ Hlt). cbn [fst snd grants].
      change ((now, limit_key req) :: ?l) with ([(now, limit_key req)] ++ l).
      rewrite app_assoc.
      apply (IH _ _ now); [| |exact Hmono].
      * intros k now' Hle. rewrite times_of_app, recent_app.
        destruct (decide (limit_key req = k)) as [<-|Hne].
        -- unfold counted at 1. rewrite lookup_insert_eq.
           cbn [default from_option]. unfold id.
           rewrite recent_app. f_equal.
           ++ unfold counted. rewrite recent_recent by lia.
              apply (Hag (limit_key req) now'). lia.
           ++ rewrite times_of_one, decide_True by reflexivity. reflexivity.
        -- unfold counted at 1. rewrite lookup_insert_ne by exact Hne.
           fold (counted windowMs now' (cleanup (now - windowMs) requests) k).
           rewrite counted_after_cleanup by exact Hle.
           rewrite (Hag k now') by lia.
           rewrite times_of_one, decide_False by exact Hne.
           cbn [recent]. unfold recent at 3. rewrite filter_nil, app_nil_r.
           reflexivity.
      * apply within_limit_snoc; [exact Hlog|].
        rewrite <- (Hag (limit_key req) now Ht0). exact Hlt.
    + destruct (rateLimit_rejects D _ _ _ _ _ Hge) as (r & -> & _).
      cbn [fst snd grants].
      apply (IH _ _ now); [|exact Hlog|exact Hmono].
      intros k now' Hle. rewrite counted_after_cleanup by exact Hle.
      apply Hag. lia.
Qed.

(** X8: the guarantee of the limiter. When the clock does not run
    backwards, a limiter that starts empty lets a call through only if
    fewer than [maxRequests] earlier calls of the same key were let through
    within the [windowMs] milliseconds before it. *)
Theorem at_most_maxRequests_per_window (D : Type) (windowMs maxRequests t0 : Z)
  (calls : list (Z * Request)) (before after : list (Z * string))
  (t : Z) (k : string) :
  monotone t0 calls ->
  grants calls (@serve D windowMs maxRequests ∅ calls).2
  = before ++ (t, k) :: after ->
  Z.of_nat (length (filter (fun t' => t - windowMs < t') (times_of k before)))
  < maxRequests.
Proof.
  intros Hmono Heq.
  assert (H : within_limit windowMs maxRequests
                ([] ++ grants calls (@serve D windowMs maxRequests ∅ calls).2)).
  { apply (serve_within_limit D windowMs maxRequests calls ∅ [] t0).
    - intros k' now _. reflexivity.
    - intros b t' k' a Hnil. destruct b; discriminate Hnil.
    - exact Hmono. }
  exact (H before t k after Heq).
Qed.

Lemma at_most_maxRequests_per_window_example :
  Z.of_nat (length (filter (fun t' => 1500 - 1000 < t')
                      (times_of "203.0.113.7"
                         [(100, "203.0.113.7"); (200, "203.0.113.7")])))
  < 2.
Proof.
  apply (at_most_maxRequests_per_window unit 1000 2 0
           [ (100, with_key "a"); (200, with_key "a"); (300, with_key "a");
             (1500, with_key "a") ]
           [(100, "203.0.113.7"); (200, "203.0.113.7")] []
           1500 "203.0.113.7").
  - cbn. lia.
  - vm_compute. reflexivity.
Defined.

(** X9: the [retryAfter] of a rejection covers the window:
    [windowMs <= 1000 * retryAfter < windowMs + 1000]. So a key that was
    rejected at a time when none of its timestamps lay in the future is
    let through again by a limiter with [maxRequests >= 1] once it has
    waited [retryAfter] seconds. *)
Theorem retryAfter_is_enough (D : Type) (windowMs maxRequests now later : Z)
  (requests : gmap string (list Z)) (req again : Request)
  (r : Reply D) (seconds : Z) :
  1 <= maxRequests ->
  Forall (fun ts => ts <= now) (default [] (requests !! limit_key req)) ->
  (@rateLimit D windowMs maxRequests now requests req).2 = Respond 429 r ->
  retryAfter r = Some seconds ->
  limit_key again = limit_key req ->
  now + 1000 * seconds <= later ->
  windowMs <= 1000 * seconds < windowMs + 1000
  /\ (@rateLimit D windowMs maxRequests later
        (@rateLimit D windowMs maxRequests now requests req).1 again).2
     = Next again.
Proof.
  intros Hmax Hpast Hrej Hretry Hkey Hlater.
  destruct (Z.lt_ge_cases
              (Z.of_nat (length (counted windowMs now requests (limit_key req))))
              maxRequests) as [Hlt|Hge].
  { rewrite (rateLimit_admits D _ _ _ _ _ Hlt) in Hrej. discriminate Hrej. }
  destruct (rateLimit_rejects D _ _ _ _ _ Hge) as (r' & Hr' & _ & Hretry').
  rewrite Hr' in Hrej |- *. cbn [fst snd] in Hrej |- *.
  injection Hrej as <-. rewrite Hretry' in Hretry. injection Hretry as <-.
  assert (Hceil : windowMs <= 1000 * ceil_seconds windowMs < windowMs + 1000).
  { unfold ceil_seconds.
    pose proof (Z.div_mod (- windowMs) 1000 ltac:(lia)).
    pose proof (Z.mod_pos_bound (- windowMs) 1000 ltac:(lia)). lia. }
  split; [exact Hceil|].
  rewrite rateLimit_admits; [reflexivity|].
  rewrite Hkey. unfold counted. rewrite recent_none; [cbn; lia|].
  rewrite cleanup_lookup.
  destruct (requests !! limit_key req) as [l|]; [|constructor].
  cbn [mbind option_bind default from_option] in Hpast |- *. unfold id in Hpast.
  destruct (pruned (now - windowMs) l) as [kept|] eqn:Hp; [|constructor].
  apply pruned_spec in Hp as [-> _]. cbn [default from_option]. unfold id.
  unfold recent. apply Forall_forall. intros ts Hts.
  apply list_elem_of_filter in Hts as [_ Hts].
  rewrite Forall_forall in Hpast. specialize (Hpast ts Hts). cbn in Hpast. lia.
Qed.

Lemma retryAfter_is_enough_example :
  1000 <= 1000 * 1 < 1000 + 1000
  /\ (@rateLimit unit 1000 1 1900
        (@rateLimit unit 1000 1 900 {[ "203.0.113.7" := [800] ]}
           (with_key "a")).1 (with_key "a")).2
     = Next (with_key "a").
Proof.
  eapply (retryAfter_is_enough unit 1000 1 900 1900
            {[ "203.0.113.7" := [800] ]} (with_key "a") (with_key "a")).
  - lia.
  - vm_compute. repeat constructor. discriminate.
  - vm_compute. reflexivity.
  - reflexivity.
  - reflexivity.
  - lia.
Defined.

End RateLimiterMore.

(** ** More on the schema validator *)

Module ValidatorMore.
Import Js Express Validation Routes Spec Fixtures Errors Validator.

Section Facts.

Variable host : Host.

(** X10: the validator looks at the fields that the schema names and at
    nothing else: two payloads that agree on those fields get the same
    result, so a field that no rule names is ignored, whatever it
    holds. *)
Theorem validate_ignores_other_fields (schema : Schema)
  (body1 body2 : list (string * Value)) :
  (forall name fs, In (name, fs) schema -> get body1 name = get body2 name) ->
  validate host schema body1 = validate host schema body2
  /\ (forall req1 req2,
        body req1 = body1 -> body req2 = body2 ->
        (validateRequest host schema req1 = Next req1
         <-> validateRequest host schema req2 = Next req2)).
Proof.
  intros Hagree.
  assert (Heq : validate host schema body1 = validate host schema body2).
  { induction schema as [|[n fs] rest IH]; [reflexivity|].
    rewrite !validate_cons, (Hagree n fs (or_introl eq_refl)), IH;
      [reflexivity|].
    intros name fs' Hin. apply (Hagree name fs'). now right. }
  split; [exact Heq|].
  intros req1 req2 H1 H2. unfold validateRequest. rewrite H1, H2, Heq.
  destruct (validate host schema body2) as [[|e errors]|];
    cbn; split; intros H; try discriminate H; reflexivity.
Qed.

(** A value of the wrong type gets the type error and nothing else. *)
Lemma validate_field_wrong_type (name : string) (fs : FieldSchema)
  (v : Value) (t : string) :
  ~ missing fs v -> type fs = Some t -> validateType v t = false ->
  validate_field host name fs v = Normal [InvalidType name t (typeof v)].
Proof.
  intros Hpresent Ht Hv. rewrite (validate_field_present host name fs v Hpresent).
  rewrite Ht. cbn [truthy_str default from_option]. unfold id.
  destruct (String.eqb t "") eqn:He.
  - apply String.eqb_eq in He. subst t. discriminate Hv.
  - rewrite Hv. reflexivity.
Qed.

(** X11: a field that is there but is not of the type of its rule gets
    exactly one error, INVALID_TYPE with the expected type and the
    [typeof] of the value; none of the other checks of the rule runs, so
    that even a pattern that is no regular expression does no harm. *)
Theorem wrong_type_stops_the_rule (before after : Schema)
  (body : list (string * Value)) (name : string) (fs : FieldSchema)
  (t : string) :
  get body name <> VUndefined -> get body name <> VNull ->
  get body name <> VStr "" ->
  type fs = Some t -> validateType (get body name) t = false ->
  validate_field host name fs (get body name)
  = Normal [InvalidType name t (typeof (get body name))]
  /\ code (InvalidType name t (typeof (get body name))) = "INVALID_TYPE"
  /\ validate host (before ++ (name, fs) :: after) body
     = match validate host before body with
       | Thrown => Thrown
       | Normal e1 =>
           match validate host after body with
           | Thrown => Thrown
           | Normal e2 =>
               Normal (e1 ++ [InvalidType name t (typeof (get body name))]
                       ++ e2)
           end
       end.
Proof.
  intros Hu Hn He Ht Hv.
  assert (Hfield : validate_field host name fs (get body name)
                   = Normal [InvalidType name t (typeof (get body name))]).
  { apply validate_field_wrong_type; [|exact Ht|exact Hv].
    intros [H|[H|[_ H]]]; congruence. }
  split; [exact Hfield|]. split; [reflexivity|].
  rewrite validate_app, validate_cons, Hfield.
  destruct (validate host before body); [|reflexivity].
  destruct (validate host after body); reflexivity.
Qed.

Lemma present_string (fs : FieldSchema) (s : string) :
  ~ missing fs (VStr s) -> required fs = false \/ s <> "".
Proof.
  intros H. destruct (required fs) eqn:Hreq; [|now left].
  right. intros ->. apply H. unfold missing. tauto.
Qed.

Lemma string_checks_cases (name : string) (fs : FieldSchema) (s : string) :
  (truthy_str (pattern fs) = false
   /\ exists errors, string_checks host name fs s = Normal errors)
  \/ (exists p, pattern fs = Some p /\ p <> ""
                /\ ((exists r, RegExp_new host p = Some r
                               /\ exists errors,
                                    string_checks host name fs s = Normal errors)
                    \/ (RegExp_new host p = None
                        /\ string_checks host name fs s = Thrown))).
Proof.
  destruct (pattern fs) as [p|] eqn:Hp.
  - destruct (String.eqb p "") eqn:He.
    + left. split; [cbn; rewrite He; reflexivity|].
      eexists. apply string_checks_no_pattern. rewrite Hp. cbn.
      rewrite He. reflexivity.
    + apply String.eqb_neq in He. right. exists p.
      split; [reflexivity|]. split; [exact He|].
      destruct (RegExp_new host p) as [r|] eqn:Hr.
      * left. exists r. split; [reflexivity|]. eexists.
        exact (string_checks_compiled host name fs s p r Hp He Hr).
      * right. split; [reflexivity|].
        exact (string_checks_throws host name fs s p Hp He Hr).
  - left. split; [reflexivity|]. eexists.
    apply string_checks_no_pattern. rewrite Hp. reflexivity.
Qed.

Lemma validate_field_thrown (name : string) (fs : FieldSchema) (v : Value) :
  validate_field host name fs v = Thrown <-> throws_on host fs v.
Proof.
  split.
  - intros H. destruct (missing_or_present fs v) as [Hm|Hpresent].
    + exfalso. destruct (required fs) eqn:Hreq.
      * rewrite required_and_missing in H;
          [discriminate H | exact Hreq | unfold missing in Hm; tauto].
      * unfold validate_field in H. rewrite Hreq in H.
        destruct Hm as [->|[->|[Hr _]]];
          [discriminate H | discriminate H | congruence].
    + rewrite (validate_field_present host name fs v Hpresent) in H.
      destruct (truthy_str (type fs)
                && negb (validateType v (default "" (type fs))));
        [discriminate H|].
      destruct v as [| | | |s| | |]; try discriminate H.
      destruct (is_type fs "string") eqn:Ht; [|discriminate H].
      apply is_type_true in Ht.
      destruct (string_checks_cases name fs s)
        as [[_ [errors He]]|(p & Hp & Hne & [(r & _ & errors & He)|[Hr _]])];
        try (rewrite He in H; discriminate H).
      exists s, p. repeat split; try assumption.
      apply present_string. exact Hpresent.
  - intros (s & p & -> & Hpresent & Ht & Hp & Hne & Hr).
    exact (validate_field_throws host name fs s p Hpresent Ht Hp Hne Hr).
Qed.

Lemma validate_thrown (schema : Schema) (body : list (string * Value)) :
  validate host schema body = Thrown
  <-> exists name fs, In (name, fs) schema
                      /\ throws_on host fs (get body name).
Proof.
  induction schema as [|[n fs] rest IH].
  - split; [discriminate | intros (? & ? & [] & _)].
  - rewrite validate_cons. split.
    + destruct (validate_field host n fs (get body n)) as [e|] eqn:He.
      * destruct (validate host rest body) as [es|]; [discriminate|].
        intros _. destruct (proj1 IH eq_refl) as (name & fs' & Hin & Ht).
        exists name, fs'. split; [now right | exact Ht].
      * intros _. exists n, fs. split; [now left|].
        exact (proj1 (validate_field_thrown n fs (get body n)) He).
    + intros (name & fs' & [[= <- <-]|Hin] & Ht).
      * rewrite (proj2 (validate_field_thrown n fs (get body n)) Ht).
        reflexivity.
      * destruct (validate_field host n fs (get body n)); [|reflexivity].
        rewrite (proj2 IH); [reflexivity|]. eauto.
Qed.

(** X12: the validator answers 500 for one reason only: some rule of
    kind string carries a non-empty pattern that the [RegExp] constructor
    rejects, and the payload holds a string for that rule to test (an
    empty one counting only when the rule is optional). No payload can
    provoke it under a schema whose patterns are regular expressions. *)
Theorem internal_error_only_from_pattern (schema : Schema) (req : Request) :
  ((exists r, validateRequest host schema req = Respond 500 r)
   <-> exists name fs, In (name, fs) schema
                       /\ throws_on host fs (get (body req) name))
  /\ (patterns_compile host schema ->
      forall c r, validateRequest host schema req = Respond c r -> c = 400).
Proof.
  assert (H500 : (exists r, validateRequest host schema req = Respond 500 r)
                 <-> validate host schema (body req) = Thrown).
  { unfold validateRequest.
    destruct (validate host schema (body req)) as [[|e errors]|]; cbn.
    - split; [intros [r H]; discriminate H | discriminate].
    - split; [intros [r H]; discriminate H | discriminate].
    - split; [reflexivity | eauto]. }
  split; [rewrite H500; apply validate_thrown|].
  intros Hcompile c r. unfold validateRequest.
  destruct (validate host schema (body req)) as [[|e errors]|] eqn:Hv; cbn.
  - discriminate.
  - intros [= <- _]. reflexivity.
  - exfalso. apply validate_thrown in Hv
      as (name & fs & Hin & s & p & _ & _ & _ & Hp & Hne & Hr).
    destruct (Hcompile name fs p Hin Hp Hne) as [r' Hr']. congruence.
Qed.

Lemma validate_member (schema : Schema) (body : list (string * Value))
  (errors : list ValidationError) (e : ValidationError) :
  validate host schema body = Normal errors -> In e errors ->
  exists name fs pushed,
    In (name, fs) schema
    /\ validate_field host name fs (get body name) = Normal pushed
    /\ In e pushed.
Proof.
  revert errors. induction schema as [|[n fs] rest IH]; intros errors.
  - intros [= <-] [].
  - rewrite validate_cons.
    destruct (validate_field host n fs (get body n)) as [pushed|] eqn:Hp;
      [|discriminate].
    destruct (validate host rest body) as [es|] eqn:Hes; [|discriminate].
    intros [= <-] Hin. apply in_app_or in Hin as [Hin|Hin].
    + exists n, fs, pushed. split; [now left|]. split; assumption.
    + destruct (IH es eq_refl Hin) as (name & fs' & pushed' & H1 & H2 & H3).
      exists name, fs', pushed'. split; [now right|]. split; assumption.
Qed.

Lemma bound_error (mk : Z -> Z -> ValidationError) (bound : option Z)
  (test : Z -> bool) (n : Z) (e : ValidationError) :
  In e match bound with
       | Some b => if negb (b =? 0) && test b then [mk b n] else []
       | None => []
       end ->
  exists b, bound = Some b /\ test b = true /\ e = mk b n.
Proof.
  destruct bound as [b|]; [|intros []].
  destruct (negb (b =? 0) && test b) eqn:Hb; [|intros []].
  intros [<-|[]]. apply andb_true_iff in Hb as [_ Hb]. eauto.
Qed.

Ltac justify :=
  cbn [justified];
  repeat first
    [ assumption | reflexivity | lia
    | match goal with
      | |- _ /\ _ => split
      | |- exists _, _ => eexists
      end ].

Lemma string_errors_justified (name : string) (fs : FieldSchema) (s : string)
  (errors : list ValidationError) (e : ValidationError) :
  type fs = Some "string" ->
  string_checks host name fs s = Normal errors -> In e errors ->
  justified host name fs (VStr s) e.
Proof.
  intros Ht Hs Hin.
  assert (Hshape :
            exists pat_errors,
              errors
              = (match minLength fs with
                 | Some b =>
                     if negb (b =? 0) && (strlen s <? b)
                     then [MinLength name b (strlen s)] else []
                 | None => []
                 end)
                ++ (match maxLength fs with
                    | Some b =>
                        if negb (b =? 0) && (b <? strlen s)
                        then [MaxLength name b (strlen s)] else []
                    | None => []
                    end)
                ++ pat_errors
                ++ ((if match format fs with
                         | Some f => String.eqb f "url"
                         | None => false
                         end && negb (isValidUrl host s)
                     then [InvalidUrl name] else [])
                    ++ (if match format fs with
                            | Some f => String.eqb f "email"
                            | None => false
                            end && negb (isValidEmail s)
                        then [InvalidEmail name] else []))
              /\ (forall x, In x pat_errors ->
                    exists p r, x = InvalidPattern name p
                                /\ pattern fs = Some p
                                /\ RegExp_new host p = Some r
                                /\ RegExp_test host r s = false)).
  { destruct (string_checks_cases name fs s)
      as [[Hno _]|(p & Hp & Hne & [(r & Hr & _)|[Hr Hthrow]])].
    - exists []. rewrite (string_checks_no_pattern host name fs s Hno) in Hs.
      injection Hs as <-. split; [reflexivity | intros x []].
    - rewrite (string_checks_compiled host name fs s p r Hp Hne Hr) in Hs.
      injection Hs as <-. eexists. split; [reflexivity|].
      intros x. destruct (RegExp_test host r s) eqn:Htest; [intros []|].
      intros [<-|[]]. exists p, r. repeat split; assumption.
    - rewrite Hthrow in Hs. discriminate Hs. }
  destruct Hshape as (pat_errors & -> & Hpat).
  repeat (apply in_app_or in Hin as [Hin|Hin]).
  - apply (bound_error (MinLength name) (minLength fs)
             (fun b => strlen s <? b)) in Hin as (b & Hb & Htest & ->).
    apply Z.ltb_lt in Htest. justify.
  - apply (bound_error (MaxLength name) (maxLength fs)
             (fun b => b <? strlen s)) in Hin as (b & Hb & Htest & ->).
    apply Z.ltb_lt in Htest. justify.
  - destruct (Hpat e Hin) as (p & r & -> & Hp & Hr & Htest).
    cbn [justified]. repeat (split; [assumption || reflexivity|]).
    exists s, r. repeat split; assumption.
  - destruct (format fs) as [f|] eqn:Hfmt; [|destruct Hin].
    destruct (String.eqb f "url") eqn:Hf; [|destruct Hin].
    apply String.eqb_eq in Hf. subst f. unfold isValidUrl in Hin.
    destruct (URL_new host s) eqn:Hu; [destruct Hin|].
    destruct Hin as [<-|[]]. justify.
  - destruct (format fs) as [f|] eqn:Hfmt; [|destruct Hin].
    destruct (String.eqb f "email") eqn:Hf; [|destruct Hin].
    apply String.eqb_eq in Hf. subst f.
    destruct (isValidEmail s) eqn:Hu; [destruct Hin|].
    destruct Hin as [<-|[]]. justify.
Qed.

Lemma field_errors_justified (name : string) (fs : FieldSchema) (v : Value)
  (pushed : list ValidationError) (e : ValidationError) :
  validate_field host name fs v = Normal pushed -> In e pushed ->
  justified host name fs v e.
Proof.
  intros Hf Hin. destruct (missing_or_present fs v) as [Hm|Hpresent].
  - destruct (required fs) eqn:Hreq.
    + rewrite required_and_missing in Hf;
        [|exact Hreq| unfold missing in Hm; tauto].
      injection Hf as <-. destruct Hin as [<-|[]]. cbn.
      unfold missing in Hm. tauto.
    + unfold validate_field in Hf. rewrite Hreq in Hf.
      destruct Hm as [->|[->|[H _]]]; [| |congruence];
        injection Hf as <-; destruct Hin.
  - rewrite (validate_field_present host name fs v Hpresent) in Hf.
    destruct (type fs) as [t|] eqn:Ht.
    + cbn [truthy_str default from_option] in Hf. unfold id in Hf.
      destruct (negb (String.eqb t "") && negb (validateType v t)) eqn:Hk.
      * injection Hf as <-. destruct Hin as [<-|[]]. cbn.
        apply andb_true_iff in Hk as [_ Hk]. apply negb_true_iff in Hk.
        auto.
      * unfold is_type in Hf. rewrite Ht in Hf.
        destruct v as [| | | |s|items|props|];
          try (injection Hf as <-; destruct Hin).
        -- destruct (String.eqb t "string") eqn:Hs.
           ++ apply String.eqb_eq in Hs. subst t.
              destruct (string_checks host name fs s) as [errors|] eqn:He;
                [|discriminate Hf].
              injection Hf as <-. rewrite !app_nil_r in Hin.
              exact (string_errors_justified name fs s errors e Ht He Hin).
           ++ injection Hf as <-. destruct Hin.
        -- destruct (String.eqb t "array") eqn:Hs.
           ++ apply String.eqb_eq in Hs. subst t.
              injection Hf as <-. cbn [app] in Hin. rewrite app_nil_r in Hin.
              unfold array_checks in Hin. apply in_app_or in Hin as [Hin|Hin].
              ** apply (bound_error (MinItems name) (minItems fs)
                          (fun b => Z.of_nat (length items) <? b))
                   in Hin as (b & Hb & Htest & ->).
                 apply Z.ltb_lt in Htest. justify.
              ** apply (bound_error (MaxItems name) (maxItems fs)
                          (fun b => b <? Z.of_nat (length items)))
                   in Hin as (b & Hb & Htest & ->).
                 apply Z.ltb_lt in Htest. justify.
           ++ injection Hf as <-. destruct Hin.
        -- destruct (String.eqb t "object") eqn:Hs.
           ++ apply String.eqb_eq in Hs. subst t.
              injection Hf as <-. cbn [app] in Hin.
              unfold object_checks in Hin.
              destruct (requiredFields fs) as [names|] eqn:Hn; [|destruct Hin].
              apply in_flat_map in Hin as (sub & Hsub & Hin).
              destruct (has_property props sub) eqn:Hp; [destruct Hin|].
              destruct Hin as [<-|[]]. cbn [justified].
              split; [reflexivity|]. split; [exact Ht|].
              exists props, names. repeat split; assumption.
           ++ injection Hf as <-. destruct Hin.
    + cbn [truthy_str andb] in Hf. unfold is_type in Hf. rewrite Ht in Hf.
      destruct v; injection Hf as <-; destruct Hin.
Qed.

(** X13: the validator raises no false alarm. Every error of the result
    belongs to a rule of the schema and is owed to it: the rule asks for
    what the error says and the value of the field fails it, by the very
    figures that the error carries (a MIN_LENGTH error carries the bound of
    the rule and the length of the string, which is below the bound, and
    so on). *)
Theorem every_error_is_justified (schema : Schema)
  (body : list (string * Value)) (errors : list ValidationError)
  (e : ValidationError) :
  validate host schema body = Normal errors -> In e errors ->
  exists name fs,
    In (name, fs) schema /\ justified host name fs (get body name) e.
Proof.
  intros Hv Hin.
  destruct (validate_member schema body errors e Hv Hin)
    as (name & fs & pushed & Hs & Hf & He).
  exists name, fs. split; [exact Hs|].
  exact (field_errors_justified name fs (get body name) pushed e Hf He).
Qed.

End Facts.

Lemma wrong_type_stops_the_rule_example :
  validate RefHost.host brokenSchema [("language", VBool true)]
  = Normal [InvalidType "language" "string" "boolean"].
Proof.
  destruct (wrong_type_stops_the_rule RefHost.host [] []
              [("language", VBool true)] "language"
              {| type := Some "string"; required := false;
                 minLength := None; maxLength := None;
                 pattern := Some "("; format := None;
                 minItems := None; maxItems := None;
                 requiredFields := None |} "string"
              ltac:(discriminate) ltac:(discriminate) ltac:(discriminate)
              eq_refl eq_refl)
    as (_ & _ & H).
  exact H.
Defined.

Lemma validate_ignores_other_fields_example :
  validate RefHost.host languageSchema
    [("language", VStr "en"); ("debug", VBool true)]
  = validate RefHost.host languageSchema [("language", VStr "en")].
Proof.
  apply (validate_ignores_other_fields RefHost.host languageSchema).
  intros name fs [[= <- <-]|[]]. reflexivity.
Defined.

Lemma internal_error_broken_pattern :
  exists r,
    validateRequest RefHost.host brokenSchema
      (with_body [("language", VStr "en")]) = Respond 500 r.
Proof.
  apply (proj1 (internal_error_only_from_pattern RefHost.host brokenSchema
                  (with_body [("language", VStr "en")]))).
  eexists "language", _. split; [left; reflexivity|].
  exists "en", "(". repeat split; try reflexivity.
  - left. reflexivity.
  - discriminate.
Defined.

Lemma every_error_is_justified_example :
  exists name fs,
    In (name, fs) languageSchema
    /\ justified RefHost.host name fs
         (get [("language", VStr "x")] name) (MinLength "language" 2 1).
Proof.
  apply (every_error_is_justified RefHost.host languageSchema
           [("language", VStr "x")]
           [ MinLength "language" 2 1;
             InvalidPattern "language" "^(en|de|fr)$" ]).
  - vm_compute. reflexivity.
  - left. reflexivity.
Defined.

(** X14: the five kinds that describe a shape exclude one another: no
    value passes the type check of two of them, so that an array is no
    object and [null] and [undefined] are of no kind at all. Kind
    ['float'] is kind ['number'], every integer is a number, and a kind
    that the check does not know accepts every value. *)
Theorem kinds_exclude_one_another (v : Value) (k1 k2 : string) :
  (In k1 shape_kinds -> In k2 shape_kinds ->
   validateType v k1 = true -> validateType v k2 = true -> k1 = k2)
  /\ validateType v "float" = validateType v "number"
  /\ (validateType v "integer" = true -> validateType v "number" = true)
  /\ (forall k, In k shape_kinds ->
        validateType VNull k = false /\ validateType VUndefined k = false)
  /\ (~ In k1 ("integer" :: "float" :: shape_kinds) ->
      validateType v k1 = true).
Proof.
  split.
  { unfold shape_kinds. cbn [In].
    intros H1 H2.
    destruct H1 as [<-|[<-|[<-|[<-|[<-|[]]]]]];
      destruct H2 as [<-|[<-|[<-|[<-|[<-|[]]]]]];
      try reflexivity;
      destruct v as [| | |x| | | |]; cbn; try discriminate;
      try (destruct x; discriminate). }
  split; [reflexivity|].
  split.
  { destruct v as [| | |x| | | |]; try discriminate.
    destruct x; try discriminate; reflexivity. }
  split.
  { unfold shape_kinds. cbn [In].
    intros k [<-|[<-|[<-|[<-|[<-|[]]]]]]; split; reflexivity. }
  intros Hk. unfold validateType.
  repeat match goal with
         | |- context [String.eqb k1 ?s] =>
             let E := fresh "E" in
             destruct (String.eqb k1 s) eqn:E;
             [apply String.eqb_eq in E; subst k1; exfalso; apply Hk;
              unfold shape_kinds; cbn [In]; tauto|]
         end.
  reflexivity.
Qed.

End ValidatorMore.

(** ** The body that goes to the log *)

Module SanitizeFacts.
Import Js Sanitize.

Lemma own_set_eq (props : list (string * Value)) (k : string) (v : Value) :
  own (set props k v) k = Some v.
Proof.
  induction props as [|[k' v'] rest IH]; cbn [set own].
  - rewrite String.eqb_refl. reflexivity.
  - destruct (String.eqb k' k) eqn:He; cbn [own].
    + rewrite String.eqb_refl. reflexivity.
    + rewrite He. exact IH.
Qed.

Lemma own_set_ne (props : list (string * Value)) (k k' : string) (v : Value) :
  k <> k' -> own (set props k v) k' = own props k'.
Proof.
  intros Hne. induction props as [|[k0 v0] rest IH]; cbn [set own].
  - apply String.eqb_neq in Hne. rewrite Hne. reflexivity.
  - destruct (String.eqb k0 k) eqn:He; cbn [own].
    + apply String.eqb_eq in He. subst k0.
      apply String.eqb_neq in Hne. rewrite Hne. reflexivity.
    + destruct (String.eqb k0 k'); [reflexivity | exact IH].
Qed.

Lemma keys_set (props : list (string * Value)) (k : string) (v v0 : Value) :
  own props k = Some v0 -> map fst (set props k v) = map fst props.
Proof.
  induction props as [|[k' v'] rest IH]; [discriminate|].
  cbn [set own]. destruct (String.eqb k' k) eqn:He.
  - intros _. apply String.eqb_eq in He. subst k'. reflexivity.
  - intros H. cbn [map fst]. f_equal. exact (IH H).
Qed.

Lemma get_set_eq (props : list (string * Value)) (k : string) (v : Value) :
  get (set props k v) k = v.
Proof. unfold get. rewrite own_set_eq. reflexivity. Qed.

Lemma get_set_ne (props : list (string * Value)) (k k' : string) (v : Value) :
  k <> k' -> get (set props k v) k' = get props k'.
Proof. intros Hne. unfold get. rewrite own_set_ne by exact Hne. reflexivity. Qed.

(** A truthy value under a name that [Object.prototype] does not have is
    an own property. *)
Lemma truthy_own (props : list (string * Value)) (k : string) :
  inherited k = false -> truthy (get props k) = true ->
  exists v, own props k = Some v.
Proof.
  intros Hi. unfold get. destruct (own props k) as [v|]; [eauto|].
  destruct (String.eqb k "__proto__") eqn:He.
  - apply String.eqb_eq in He. subst k. discriminate Hi.
  - rewrite Hi. discriminate.
Qed.

Lemma redact_get (props : list (string * Value)) (field k : string) :
  get (redact props field) k
  = if String.eqb field k && truthy (get props field)
    then VStr "[REDACTED]" else get props k.
Proof.
  unfold redact. destruct (truthy (get props field)) eqn:Ht.
  - destruct (String.eqb field k) eqn:He; cbn [andb].
    + apply String.eqb_eq in He. subst k. apply get_set_eq.
    + apply String.eqb_neq in He. apply get_set_ne. exact He.
  - rewrite andb_false_r. reflexivity.
Qed.

Lemma redact_keys (props : list (string * Value)) (field : string) :
  inherited field = false ->
  map fst (redact props field) = map fst props.
Proof.
  intros Hi. unfold redact. destruct (truthy (get props field)) eqn:Ht;
    [|reflexivity].
  destruct (truthy_own props field Hi Ht) as [v Hv].
  exact (keys_set props field _ v Hv).
Qed.

Lemma set_same (props : list (string * Value)) (k : string) (v : Value) :
  own props k = Some v -> set props k v = props.
Proof.
  induction props as [|[k' v'] rest IH]; [discriminate|].
  cbn [set own]. destruct (String.eqb k' k) eqn:He.
  - intros [= ->]. apply String.eqb_eq in He. subst k'. reflexivity.
  - intros H. f_equal. exact (IH H).
Qed.

Lemma fold_redact_get (fields : list string) (props : list (string * Value))
  (k : string) :
  get (fold_left redact fields props) k
  = if existsb (String.eqb k) fields && truthy (get props k)
    then VStr "[REDACTED]" else get props k.
Proof.
  revert props. induction fields as [|f rest IH]; intros props;
    [reflexivity|].
  cbn [fold_left existsb]. rewrite IH, redact_get.
  rewrite (String.eqb_sym k f).
  destruct (String.eqb f k) eqn:He; cbn [andb orb].
  - apply String.eqb_eq in He. subst f.
    destruct (truthy (get props k)) eqn:Ht.
    + destruct (existsb (String.eqb k) rest); reflexivity.
    + rewrite Ht, andb_false_r. reflexivity.
  - reflexivity.
Qed.

Lemma fold_redact_keys (fields : list string) (props : list (string * Value)) :
  forallb (fun f => negb (inherited f)) fields = true ->
  map fst (fold_left redact fields props) = map fst props.
Proof.
  revert props. induction fields as [|f rest IH]; intros props H;
    [reflexivity|].
  cbn [forallb] in H. apply andb_true_iff in H as [Hf Hrest].
  apply negb_true_iff in Hf.
  cbn [fold_left]. rewrite (IH _ Hrest). apply redact_keys. exact Hf.
Qed.

Lemma fold_redact_fixed (fields : list string) (props : list (string * Value)) :
  (forall f, In f fields -> redact props f = props) ->
  fold_left redact fields props = props.
Proof.
  induction fields as [|f rest IH]; intros H; [reflexivity|].
  cbn [fold_left]. rewrite (H f (or_introl eq_refl)).
  apply IH. intros f' Hf'. apply H. now right.
Qed.

Lemma sensitive_member (k : string) :
  In k sensitiveFields <-> existsb (String.eqb k) sensitiveFields = true.
Proof.
  rewrite existsb_exists. split.
  - intros H. exists k. split; [exact H | apply String.eqb_refl].
  - intros (x & Hx & He). apply String.eqb_eq in He. subst x. exact Hx.
Qed.

(** X15: what [sanitizeRequestBody] does to a body. Under each of the
    names [apiKey], [password], [token], [secret] and [key] a truthy value
    is replaced by ['[REDACTED]'], while a falsy one (an empty string, 0,
    [false], [null]) stays as it is; every other property keeps its value,
    nested objects included, so that a secret inside one is not redacted;
    the properties keep their names and their order; and sanitizing twice
    is sanitizing once. *)
Theorem sanitizeRequestBody_redacts (body : list (string * Value))
  (k : string) :
  (In k sensitiveFields ->
   get (sanitizeRequestBody body) k
   = if truthy (get body k) then VStr "[REDACTED]" else get body k)
  /\ (~ In k sensitiveFields ->
      get (sanitizeRequestBody body) k = get body k)
  /\ map fst (sanitizeRequestBody body) = map fst body
  /\ sanitizeRequestBody (sanitizeRequestBody body) = sanitizeRequestBody body.
Proof.
  unfold sanitizeRequestBody.
  split.
  { intros Hk. rewrite fold_redact_get, (proj1 (sensitive_member k) Hk).
    reflexivity. }
  split.
  { intros Hk. rewrite fold_redact_get.
    destruct (existsb (String.eqb k) sensitiveFields) eqn:He; [|reflexivity].
    exfalso. apply Hk, sensitive_member, He. }
  split; [apply fold_redact_keys; reflexivity|].
  apply fold_redact_fixed. intros f Hf.
  pose proof (fold_redact_get sensitiveFields body f) as Hg.
  rewrite (proj1 (sensitive_member f) Hf) in Hg. cbn [andb] in Hg.
  remember (fold_left redact sensitiveFields body) as S eqn:HS.
  unfold redact. destruct (truthy (get S f)) eqn:Ht; [|reflexivity].
  apply set_same.
  assert (Hi : inherited f = false).
  { unfold sensitiveFields in Hf. cbn [In] in Hf.
    destruct Hf as [<-|[<-|[<-|[<-|[<-|[]]]]]]; reflexivity. }
  destruct (truthy_own S f Hi Ht) as [v Hv].
  rewrite Hv. f_equal.
  assert (Hv' : get S f = v) by (unfold get; rewrite Hv; reflexivity).
  rewrite <- Hv', Hg. rewrite Hg in Ht.
  destruct (truthy (get body f)) eqn:E; [reflexivity | congruence].
Qed.

(** A body with a key, an empty password and a nested secret. *)
Example sanitizeRequestBody_example :
  sanitizeRequestBody
    [ ("question", VStr "hi"); ("apiKey", VStr "secret123");
      ("password", VStr "");
      ("user", VObj [("token", VStr "t0ken")]) ]
  = [ ("question", VStr "hi"); ("apiKey", VStr "[REDACTED]");
      ("password", VStr "");
      ("user", VObj [("token", VStr "t0ken")]) ].
Proof. vm_compute. reflexivity. Qed.

End SanitizeFacts.

(** ** E-mail addresses and data URLs *)

Module DataUrlFacts.
Import Js Regex RegexLang RegexFacts Validation CustomValidators Text Handlers.

Lemma lang_chr (a : ascii) (s : string) :
  lang (chr a) s <-> s = String a "".
Proof.
  unfold chr. split.
  - intros H. apply lang_class_inv in H as (c & -> & Hc).
    apply Ascii.eqb_eq in Hc. now subst.
  - intros ->. constructor. apply Ascii.eqb_refl.
Qed.

(** X16: the e-mail test accepts exactly the strings of the form
    [local@domain.tail] in which the three parts are not empty and hold
    neither white space nor [@]; the parts may hold dots. So an accepted
    address has one [@], no white space, and a dot after the [@] that is
    neither the first character after it nor the last. *)
Theorem isValidEmail_form (email : string) :
  isValidEmail email = true
  <-> exists local domain tail,
        email = local +:+ "@" +:+ domain +:+ "." +:+ tail
        /\ local <> "" /\ domain <> "" /\ tail <> ""
        /\ all_chars not_space_or_at local = true
        /\ all_chars not_space_or_at domain = true
        /\ all_chars not_space_or_at tail = true.
Proof.
  unfold isValidEmail, emailRegex. rewrite matches_lang. split.
  - intros H.
    apply lang_cat_inv in H as (a & r1 & -> & Ha & H).
    apply lang_cat_inv in H as (at_ & r2 & -> & Hat & H).
    apply lang_cat_inv in H as (b & r3 & -> & Hb & H).
    apply lang_cat_inv in H as (dot_ & c & -> & Hdot & Hc).
    apply lang_chr in Hat, Hdot. subst.
    apply lang_plus_class in Ha as [Ha1 Ha2], Hb as [Hb1 Hb2], Hc as [Hc1 Hc2].
    exists a, b, c. repeat split; assumption.
  - intros (a & b & c & -> & Ha & Hb & Hc & Ha' & Hb' & Hc').
    apply lang_cat; [apply lang_plus_class; auto|].
    apply (lang_cat _ _ "@"); [apply lang_chr; reflexivity|].
    apply lang_cat; [apply lang_plus_class; auto|].
    apply (lang_cat _ _ "."); [apply lang_chr; reflexivity|].
    apply lang_plus_class; auto.
Qed.

Lemma lang_payload (marker s : string) :
  lang (Cat (lit marker) (Plus (Class is_base64_char))) s
  <-> exists payload,
        s = marker +:+ payload /\ payload <> ""
        /\ all_chars is_base64_char payload = true.
Proof.
  split.
  - intros H. apply lang_cat_inv in H as (m & p & -> & Hm & Hp).
    apply lang_lit in Hm. subst m. apply lang_plus_class in Hp as [H1 H2].
    eauto.
  - intros (p & -> & H1 & H2).
    apply lang_cat; [apply lang_lit; reflexivity | apply lang_plus_class; auto].
Qed.

Lemma lang_image_format (s : string) :
  lang (Alt (lit "png")
          (Alt (lit "jpeg")
             (Alt (lit "jpg") (Alt (lit "gif") (Alt (lit "webp") (lit "bmp"))))))
    s
  <-> In s image_formats.
Proof.
  unfold image_formats. cbn [In]. split.
  - intros H.
    repeat (apply lang_alt_inv in H as [H|H];
            [apply lang_lit in H; subst; tauto|]).
    apply lang_lit in H. subst. tauto.
  - intros [<-|[<-|[<-|[<-|[<-|[<-|[]]]]]]].
    + apply lang_alt_l, lang_lit. reflexivity.
    + apply lang_alt_r, lang_alt_l, lang_lit. reflexivity.
    + apply lang_alt_r, lang_alt_r, lang_alt_l, lang_lit. reflexivity.
    + apply lang_alt_r, lang_alt_r, lang_alt_r, lang_alt_l, lang_lit.
      reflexivity.
    + apply lang_alt_r, lang_alt_r, lang_alt_r, lang_alt_r, lang_alt_l,
        lang_lit. reflexivity.
    + apply lang_alt_r, lang_alt_r, lang_alt_r, lang_alt_r, lang_alt_r,
        lang_lit. reflexivity.
Qed.

Lemma image_url_shape (v : Value) :
  isImageDataUrl v = true
  <-> exists format payload,
        v = VStr ("data:image/" +:+ format +:+ ";base64," +:+ payload)
        /\ In format image_formats /\ payload <> ""
        /\ all_chars is_base64_char payload = true.
Proof.
  destruct v as [| | | |s| | |];
    try (split; [discriminate | intros (? & ? & H & _); discriminate H]).
  unfold isImageDataUrl, imageDataUrlRegex. rewrite matches_lang. split.
  - intros H. apply lang_cat_inv in H as (m & r & -> & Hm & H).
    apply lang_lit in Hm. subst m.
    apply lang_cat_inv in H as (f & r' & -> & Hf & H).
    apply lang_image_format in Hf.
    apply lang_payload in H as (p & -> & H1 & H2).
    exists f, p. repeat split; assumption.
  - intros (f & p & [= ->] & Hf & H1 & H2).
    apply lang_cat; [apply lang_lit; reflexivity|].
    apply lang_cat; [apply lang_image_format; exact Hf|].
    apply lang_payload. eauto.
Qed.

Lemma pdf_url_shape (v : Value) :
  isPdfDataUrl v = true
  <-> exists payload,
        v = VStr ("data:application/pdf;base64," +:+ payload)
        /\ payload <> "" /\ all_chars is_base64_char payload = true.
Proof.
  destruct v as [| | | |s| | |];
    try (split; [discriminate | intros (? & H & _); discriminate H]).
  unfold isPdfDataUrl, pdfDataUrlRegex. rewrite matches_lang, lang_payload.
  split.
  - intros (p & -> & H). eauto.
  - intros (p & [= ->] & H). eauto.
Qed.

Lemma lang_nonempty_class (p : ascii -> bool) (s : string) :
  lang (Cat (Class p) (Star (Class p))) s
  <-> s <> "" /\ all_chars p s = true.
Proof.
  split.
  - intros H. apply lang_cat_inv in H as (a & b & -> & Ha & Hb).
    apply lang_class_inv in Ha as (c & -> & Hc).
    apply lang_star_class in Hb.
    split; [discriminate|].
    change (p c && all_chars p b = true). now rewrite Hc, Hb.
  - intros [Hne H]. destruct s as [|c s]; [congruence|].
    change (p c && all_chars p s = true) in H.
    apply andb_true_iff in H as [Hc Hs].
    apply (lang_cat _ _ (String c "") s).
    + now constructor.
    + now apply lang_star_class.
Qed.

Lemma base64_url_shape (v ty : Value) :
  isBase64DataUrl v ty = true
  <-> exists first type subtype payload,
        v = VStr ("data:" +:+ String first type +:+ "/" +:+ subtype
                  +:+ ";base64," +:+ payload)
        /\ is_alpha first = true /\ all_chars is_alnum type = true
        /\ subtype <> "" /\ all_chars is_alnum subtype = true
        /\ payload <> "" /\ all_chars is_base64_char payload = true.
Proof.
  destruct v as [| | | |s| | |];
    try (split; [discriminate
                | intros (? & ? & ? & ? & H & _); discriminate H]).
  unfold isBase64DataUrl, base64DataUrlRegex. rewrite matches_lang. split.
  - intros H. apply lang_cat_inv in H as (m & r & -> & Hm & H).
    apply lang_lit in Hm. subst m.
    apply lang_cat_inv in H as (media & r' & -> & Hmedia & H).
    apply lang_payload in H as (p & -> & Hp1 & Hp2).
    apply lang_cat_inv in Hmedia as (t & r'' & -> & Ht & H).
    apply lang_cat_inv in H as (sl & sub & -> & Hsl & Hsub).
    apply lang_chr in Hsl. subst sl.
    apply lang_nonempty_class in Hsub as [Hs1 Hs2].
    apply lang_cat_inv in Ht as (a & b & -> & Ha & Hb).
    apply lang_class_inv in Ha as (c & -> & Hc).
    apply lang_star_class in Hb.
    exists c, b, sub, p. split; [|repeat split; assumption].
    f_equal. cbn [String.append].
    now rewrite !append_assoc.
  - intros (c & t & sub & p & [= ->] & Hc & Ht & Hs1 & Hs2 & Hp1 & Hp2).
    apply lang_cat; [apply lang_lit; reflexivity|].
    replace (String c t +:+ "/" +:+ sub +:+ ";base64," +:+ p)
      with ((String c t +:+ "/" +:+ sub) +:+ ";base64," +:+ p)
      by (cbn [String.append]; now rewrite !append_assoc).
    apply lang_cat; [|apply lang_payload; eauto].
    apply lang_cat.
    + apply (lang_cat _ _ (String c "") t); [now constructor|].
      now apply lang_star_class.
    + apply (lang_cat _ _ "/"); [apply lang_chr; reflexivity|].
      now apply lang_nonempty_class.
Qed.

(** X17: what the three exported data URL validators accept. An image
    URL is [data:image/], one of the six formats, [;base64,] and a
    payload; a PDF URL is [data:application/pdf;base64,] and a payload;
    a base64 URL is [data:], a type that starts with a letter and goes on
    with letters and digits, a slash, a subtype of one or more letters and
    digits, [;base64,] and a payload. A payload is one or more characters
    among letters, digits, [+], [/] and [=]. Nothing else is accepted; in
    particular no value that is not a string, no empty payload, and no
    subtype with a [+], a [-] or a dot. *)
Theorem data_url_validators_accept (v : Value) :
  (isImageDataUrl v = true
   <-> exists format payload,
         v = VStr ("data:image/" +:+ format +:+ ";base64," +:+ payload)
         /\ In format image_formats /\ payload <> ""
         /\ all_chars is_base64_char payload = true)
  /\ (isPdfDataUrl v = true
      <-> exists payload,
            v = VStr ("data:application/pdf;base64," +:+ payload)
            /\ payload <> "" /\ all_chars is_base64_char payload = true)
  /\ (forall ty,
        isBase64DataUrl v ty = true
        <-> exists first type subtype payload,
              v = VStr ("data:" +:+ String first type +:+ "/" +:+ subtype
                        +:+ ";base64," +:+ payload)
              /\ is_alpha first = true /\ all_chars is_alnum type = true
              /\ subtype <> "" /\ all_chars is_alnum subtype = true
              /\ payload <> "" /\ all_chars is_base64_char payload = true).
Proof.
  split; [apply image_url_shape|].
  split; [apply pdf_url_shape|].
  intros ty. apply base64_url_shape.
Qed.

(** X18: an image data URL and a PDF data URL are base64 data URLs, and
    no value is both an image data URL and a PDF data URL. *)
Theorem image_and_pdf_are_base64_urls (v ty : Value) :
  (isImageDataUrl v = true -> isBase64DataUrl v ty = true)
  /\ (isPdfDataUrl v = true -> isBase64DataUrl v ty = true)
  /\ (isImageDataUrl v = true -> isPdfDataUrl v = false).
Proof.
  split; [|split].
  - intros H. apply image_url_shape in H as (f & p & -> & Hf & Hp1 & Hp2).
    apply base64_url_shape.
    exists "i"%char, "mage", f, p.
    split; [reflexivity|].
    split; [reflexivity|]. split; [reflexivity|].
    split; [|split; [|split; assumption]].
    + unfold image_formats in Hf. cbn [In] in Hf.
      destruct Hf as [<-|[<-|[<-|[<-|[<-|[<-|[]]]]]]]; discriminate.
    + unfold image_formats in Hf. cbn [In] in Hf.
      destruct Hf as [<-|[<-|[<-|[<-|[<-|[<-|[]]]]]]]; reflexivity.
  - intros H. apply pdf_url_shape in H as (p & -> & Hp1 & Hp2).
    apply base64_url_shape.
    exists "a"%char, "pplication", "pdf", p.
    repeat split; try assumption. discriminate.
  - intros H. apply image_url_shape in H as (f & p & -> & _).
    destruct (isPdfDataUrl _) eqn:E; [|reflexivity].
    apply pdf_url_shape in E as (q & E & _). discriminate E.
Qed.

Lemma image_and_pdf_are_base64_urls_example :
  isImageDataUrl (VStr "data:image/png;base64,iVBORw0KGgo=") = true
  /\ isBase64DataUrl (VStr "data:image/png;base64,iVBORw0KGgo=") VUndefined
     = true
  /\ isPdfDataUrl (VStr "data:image/png;base64,iVBORw0KGgo=") = false.
Proof.
  assert (H : isImageDataUrl (VStr "data:image/png;base64,iVBORw0KGgo=")
              = true) by reflexivity.
  split; [exact H|].
  split.
  - exact (proj1 (image_and_pdf_are_base64_urls
                    (VStr "data:image/png;base64,iVBORw0KGgo=") VUndefined) H).
  - exact (proj2 (proj2 (image_and_pdf_are_base64_urls
                    (VStr "data:image/png;base64,iVBORw0KGgo=") VUndefined)) H).
Defined.

Lemma split_nonempty (sep : ascii) (s : string) : split sep s <> [].
Proof.
  destruct s as [|c s]; cbn [split]; [discriminate|].
  destruct (Ascii.eqb c sep); [discriminate|].
  destruct (split sep s); discriminate.
Qed.

Lemma split_no_sep (sep : ascii) (s : string) :
  all_chars (not_char sep) s = true -> split sep s = [s].
Proof.
  induction s as [|c s IH]; [reflexivity|].
  cbn [all_chars split]. unfold not_char at 1.
  intros H. apply andb_true_iff in H as [Hc Hs].
  apply negb_true_iff in Hc. rewrite Hc, (IH Hs). reflexivity.
Qed.

Lemma split_at_sep (sep : ascii) (pre rest : string) :
  all_chars (not_char sep) pre = true ->
  split sep (pre +:+ String sep rest) = pre :: split sep rest.
Proof.
  induction pre as [|c pre IH].
  - intros _. change ("" +:+ String sep rest) with (String sep rest).
    cbn [split]. now rewrite Ascii.eqb_refl.
  - cbn [all_chars]. unfold not_char at 1.
    intros H. apply andb_true_iff in H as [Hc Hs].
    apply negb_true_iff in Hc.
    change (String c pre +:+ String sep rest)
      with (String c (pre +:+ String sep rest)).
    cbn [split]. rewrite Hc, (IH Hs). reflexivity.
Qed.

Lemma all_chars_impl (p q : ascii -> bool) (s : string) :
  (forall c, p c = true -> q c = true) ->
  all_chars p s = true -> all_chars q s = true.
Proof.
  intros Hpq. induction s as [|c s IH]; [reflexivity|].
  cbn [all_chars]. intros H. apply andb_true_iff in H as [Hc Hs].
  now rewrite (Hpq c Hc), (IH Hs).
Qed.

Lemma base64_char_not_comma (c : ascii) :
  is_base64_char c = true -> not_char "," c = true.
Proof.
  intros H. unfold not_char. destruct (Ascii.eqb_spec c ","); [|reflexivity].
  subst c. discriminate H.
Qed.

Lemma payload_after_comma (pre payload : string) :
  all_chars (not_char ",") pre = true ->
  all_chars is_base64_char payload = true ->
  nth_error (split "," (pre +:+ String "," payload)) 1 = Some payload.
Proof.
  intros Hpre Hp. rewrite (split_at_sep _ _ _ Hpre).
  rewrite split_no_sep; [reflexivity|].
  exact (all_chars_impl _ _ _ base64_char_not_comma Hp).
Qed.

(** X19: a data URL that the validators accept passes the format test of
    its handler, and the handler's [base64Data] is the payload of the URL:
    [POST /ocr] on an image data URL and [POST /pdf/extract] on a PDF data
    URL go on with the characters after [;base64,]. *)
Theorem accepted_url_gives_payload (url : string) :
  (isImageDataUrl (VStr url) = true ->
   exists format payload,
     url = "data:image/" +:+ format +:+ ";base64," +:+ payload
     /\ ocr_prelude url = Base64Data (Some payload))
  /\ (isPdfDataUrl (VStr url) = true ->
      exists payload,
        url = "data:application/pdf;base64," +:+ payload
        /\ pdf_prelude url = Base64Data (Some payload)).
Proof.
  split.
  - intros H. apply image_url_shape in H as (f & p & [= ->] & Hf & Hp1 & Hp2).
    exists f, p. split; [reflexivity|].
    unfold ocr_prelude.
    change (String.prefix "data:image/"
              ("data:image/" +:+ f +:+ ";base64," +:+ p))
      with (String.prefix "" (f +:+ ";base64," +:+ p)).
    assert (Hpre : String.prefix "" (f +:+ ";base64," +:+ p) = true)
      by (destruct (f +:+ _); reflexivity).
    rewrite Hpre. cbn [negb]. f_equal.
    unfold image_formats in Hf. cbn [In] in Hf.
    destruct Hf as [<-|[<-|[<-|[<-|[<-|[<-|[]]]]]]].
    + exact (payload_after_comma "data:image/png;base64" p eq_refl Hp2).
    + exact (payload_after_comma "data:image/jpeg;base64" p eq_refl Hp2).
    + exact (payload_after_comma "data:image/jpg;base64" p eq_refl Hp2).
    + exact (payload_after_comma "data:image/gif;base64" p eq_refl Hp2).
    + exact (payload_after_comma "data:image/webp;base64" p eq_refl Hp2).
    + exact (payload_after_comma "data:image/bmp;base64" p eq_refl Hp2).
  - intros H. apply pdf_url_shape in H as (p & [= ->] & Hp1 & Hp2).
    exists p. split; [reflexivity|].
    unfold pdf_prelude.
    change (String.prefix "data:application/pdf;base64,"
              ("data:application/pdf;base64," +:+ p))
      with (String.prefix "" p).
    assert (Hpre : String.prefix "" p = true) by (destruct p; reflexivity).
    rewrite Hpre. cbn [negb]. f_equal.
    exact (payload_after_comma "data:application/pdf;base64" p eq_refl Hp2).
Qed.

Lemma accepted_url_gives_payload_example :
  isPdfDataUrl (VStr "data:application/pdf;base64,JVBERi0=") = true
  /\ exists payload,
       "data:application/pdf;base64,JVBERi0="
       = "data:application/pdf;base64," +:+ payload
       /\ pdf_prelude "data:application/pdf;base64,JVBERi0="
          = Base64Data (Some payload).
Proof.
  assert (H : isPdfDataUrl (VStr "data:application/pdf;base64,JVBERi0=")
              = true) by reflexivity.
  split; [exact H|].
  exact (proj2 (accepted_url_gives_payload
                  "data:application/pdf;base64,JVBERi0=") H).
Defined.

(** The format test of [POST /ocr] is weaker than [isImageDataUrl]: a
    string that only starts with [data:image/] passes it, and without a
    comma the handler goes on with [undefined]. *)
Example ocr_prelude_without_payload :
  isImageDataUrl (VStr "data:image/svg+xml;utf8") = false
  /\ ocr_prelude "data:image/svg+xml;utf8" = Base64Data None.
Proof. split; reflexivity. Qed.

End DataUrlFacts.

(** ** Trimming, and the key a request resolves to *)

Module TrimFacts.
Import Js Express Auth Fixtures RegexFacts.

Lemma rev_onto (acc s : string) :
  string_rev_onto acc s = string_rev s +:+ acc.
Proof.
  unfold string_rev. revert acc.
  induction s as [|c s IH]; intros acc; [reflexivity|].
  cbn [string_rev_onto]. rewrite (IH (String c acc)), (IH (String c "")).
  now rewrite append_assoc.
Qed.

Lemma rev_cons (c : ascii) (s : string) :
  string_rev (String c s) = string_rev s +:+ String c "".
Proof. unfold string_rev at 1. cbn [string_rev_onto]. apply rev_onto. Qed.

Lemma rev_app (a b : string) :
  string_rev (a +:+ b) = string_rev b +:+ string_rev a.
Proof.
  induction a as [|c a IH].
  - change (string_rev b = string_rev b +:+ "").
    now rewrite append_nil_r.
  - change (String c a +:+ b) with (String c (a +:+ b)).
    rewrite !rev_cons, IH. now rewrite append_assoc.
Qed.

Lemma rev_involutive (s : string) : string_rev (string_rev s) = s.
Proof.
  induction s as [|c s IH]; [reflexivity|].
  rewrite rev_cons, rev_app, IH. reflexivity.
Qed.

Lemma rev_empty (s : string) : string_rev s = "" -> s = "".
Proof.
  intros H. rewrite <- (rev_involutive s), H. reflexivity.
Qed.

Lemma trim_start_app (a b : string) :
  trim_start (a +:+ b)
  = match trim_start a with
    | EmptyString => trim_start b
    | String c r => String c r +:+ b
    end.
Proof.
  induction a as [|c a IH]; [reflexivity|].
  change (String c a +:+ b) with (String c (a +:+ b)).
  cbn [trim_start]. destruct (is_space c); [exact IH | reflexivity].
Qed.

Lemma trim_end_cons (c : ascii) (s : string) :
  string_rev (trim_start (string_rev (String c s)))
  = match string_rev (trim_start (string_rev s)) with
    | EmptyString => if is_space c then "" else String c ""
    | String d r => String c (String d r)
    end.
Proof.
  rewrite rev_cons, trim_start_app.
  destruct (trim_start (string_rev s)) as [|d r] eqn:E.
  - cbn [trim_start]. destruct (is_space c); reflexivity.
  - rewrite rev_app.
    change (string_rev (String c "")) with (String c "").
    change (String c "" +:+ string_rev (String d r))
      with (String c (string_rev (String d r))).
    destruct (string_rev (String d r)) eqn:E'; [|reflexivity].
    apply rev_empty in E'. discriminate E'.
Qed.

Lemma trim_start_idempotent (s : string) :
  trim_start (trim_start s) = trim_start s.
Proof.
  induction s as [|c s IH]; [reflexivity|].
  cbn [trim_start]. destruct (is_space c) eqn:E; [exact IH|].
  cbn [trim_start]. now rewrite E.
Qed.

Lemma trim_end_idempotent (s : string) :
  string_rev (trim_start (string_rev
    (string_rev (trim_start (string_rev s)))))
  = string_rev (trim_start (string_rev s)).
Proof.
  rewrite rev_involutive, trim_start_idempotent. reflexivity.
Qed.

Lemma trim_start_trim_end (s : string) :
  trim_start (string_rev (trim_start (string_rev s)))
  = string_rev (trim_start (string_rev (trim_start s))).
Proof.
  induction s as [|c s IH]; [reflexivity|].
  rewrite trim_end_cons. cbn [trim_start].
  destruct (is_space c) eqn:E.
  - rewrite <- IH.
    destruct (string_rev (trim_start (string_rev s))); [reflexivity|].
    cbn [trim_start]. now rewrite E.
  - rewrite trim_end_cons.
    destruct (string_rev (trim_start (string_rev s)));
      cbn [trim_start]; rewrite E; reflexivity.
Qed.

Lemma trim_idempotent (s : string) : trim (trim s) = trim s.
Proof.
  unfold trim.
  rewrite (trim_start_trim_end (trim_start s)), trim_start_idempotent.
  apply trim_end_idempotent.
Qed.

Lemma trim_empty : trim "" = "".
Proof. reflexivity. Qed.

Lemma first_usable_trimmed (keys : list Value) (k : string) :
  first_usable keys = Some k ->
  exists s, In (VStr s) keys /\ k = trim s /\ k <> "".
Proof.
  induction keys as [|v rest IH]; [discriminate|].
  cbn [first_usable]. destruct (usable v) eqn:Hu.
  - destruct v as [| | | |s| | |]; try discriminate.
    intros [= <-]. exists s. split; [now left|]. split; [reflexivity|].
    unfold usable in Hu. apply andb_true_iff in Hu as [_ Hu].
    apply Z.ltb_lt in Hu. destruct (trim s); [discriminate Hu | discriminate].
  - intros H. destruct (IH H) as (s & Hin & Hk). exists s.
    split; [now right | exact Hk].
Qed.

(** X20: the key a request resolves to is normalised: it is the trimmed
    form of one of the five candidates, it is not empty, and trimming it
    again changes nothing, so it neither starts nor ends with white
    space. *)
Theorem resolved_key_is_trimmed (req : Request) (k : string) :
  getApiKeyFromRequest req = Some k ->
  (exists s, In (VStr s) (locations req) /\ k = trim s)
  /\ k <> "" /\ trim k = k.
Proof.
  intros H. apply first_usable_trimmed in H as (s & Hin & -> & Hne).
  split; [eauto|]. split; [exact Hne | apply trim_idempotent].
Qed.

Lemma resolved_key_is_trimmed_example :
  getApiKeyFromRequest (with_key "  secret123 ") = Some "secret123"
  /\ trim "secret123" = "secret123".
Proof.
  assert (H : getApiKeyFromRequest (with_key "  secret123 ")
              = Some "secret123") by (vm_compute; reflexivity).
  split; [exact H|].
  exact (proj2 (proj2 (resolved_key_is_trimmed _ _ H))).
Defined.

(** X21: a configured key with white space at its start or end matches
    no request. The resolved key is always trimmed and the comparison
    with [API_KEY] is exact, so with such a key every request is answered
    401, in every mode, whatever key it carries. *)
Theorem padded_configured_key_rejects_all (D : Type) (env : Env) (now : Z)
  (req : Request) (valid : string) :
  API_KEY env = Some valid -> trim valid <> valid ->
  exists r, @authenticateRequest D env now req = Respond 401 r.
Proof.
  intros Hkey Hpad.
  assert (Hne : String.eqb valid "" = false).
  { apply String.eqb_neq. intros ->. now apply Hpad. }
  unfold authenticateRequest. rewrite Hkey. cbn [env_set]. rewrite Hne.
  cbn [negb]. rewrite andb_false_r.
  destruct (getApiKeyFromRequest req) as [k|] eqn:Hk; [|eauto].
  destruct (first_usable_trimmed _ _ Hk) as (s & _ & -> & Hk').
  apply String.eqb_neq in Hk'. rewrite Hk'.
  unfold isValidApiKey. rewrite Hk', Hkey. cbn [env_set]. rewrite Hne.
  cbn [negb default from_option]. unfold id.
  destruct (String.eqb (trim s) valid) eqn:E; [|cbn [negb]; eauto].
  apply String.eqb_eq in E. exfalso. apply Hpad. rewrite <- E.
  apply trim_idempotent.
Qed.

Lemma padded_configured_key_rejects_all_example :
  exists r,
    @authenticateRequest unit
      {| NODE_ENV := Some "production"; API_KEY := Some "secret123 " |}
      1700000000000 (with_key "secret123 ")
    = Respond 401 r.
Proof.
  apply (padded_configured_key_rejects_all unit
           {| NODE_ENV := Some "production"; API_KEY := Some "secret123 " |}
           1700000000000 (with_key "secret123 ") "secret123 " eq_refl).
  vm_compute. discriminate.
Defined.

End TrimFacts.

(** ** The text a recogniser returns, cleaned *)

Module CleanFacts.
Import Js Text RegexLang RegexFacts TrimFacts.

Lemma trim_halves (s : string) : trim s = trim_end (trim_start s).
Proof. reflexivity. Qed.

Lemma trim_end_step (c : ascii) (s : string) :
  trim_end (String c s)
  = match trim_end s with
    | EmptyString => if is_space c then "" else String c ""
    | String d r => String c (String d r)
    end.
Proof. apply trim_end_cons. Qed.

Lemma trim_halves_commute (s : string) :
  trim_start (trim_end s) = trim_end (trim_start s).
Proof. apply trim_start_trim_end. Qed.

Lemma nonempty_empty : nonempty "" = false.
Proof. reflexivity. Qed.

Lemma nonempty_cons (c : ascii) (s : string) : nonempty (String c s) = true.
Proof.
  unfold nonempty, strlen. apply Z.ltb_lt. cbn [String.length]. lia.
Qed.

Lemma nonempty_false (s : string) : nonempty s = false -> s = "".
Proof.
  destruct s; [reflexivity|]. rewrite nonempty_cons. discriminate.
Qed.

Lemma join_cons_char (sep : string) (c : ascii) (p : string)
  (ps : list string) :
  join sep (String c p :: ps) = String c (join sep (p :: ps)).
Proof. destruct ps; reflexivity. Qed.

Lemma join_two (sep x y : string) (l : list string) :
  join sep (x :: y :: l) = x +:+ sep +:+ join sep (y :: l).
Proof. reflexivity. Qed.

Lemma fields_cons_sep (p : ascii -> bool) (c : ascii) (s : string) :
  p c = true -> fields p (String c s) = "" :: fields p s.
Proof. intros H. cbn [fields]. now rewrite H. Qed.

Lemma fields_nonempty (p : ascii -> bool) (s : string) :
  exists piece pieces, fields p s = piece :: pieces.
Proof.
  destruct s as [|c s]; cbn [fields]; [eauto|].
  destruct (p c); [eauto|]. destruct (fields p s); eauto.
Qed.

Lemma fields_cons_other (p : ascii -> bool) (c : ascii) (s piece : string)
  (pieces : list string) :
  p c = false -> fields p s = piece :: pieces ->
  fields p (String c s) = String c piece :: pieces.
Proof. intros H E. cbn [fields]. now rewrite H, E. Qed.

Lemma fields_app (p : ascii -> bool) (c : ascii) (a b : string) :
  p c = true ->
  fields p (a +:+ String c b) = fields p a ++ fields p b.
Proof.
  intros Hc. induction a as [|x a IH].
  - change ("" +:+ String c b) with (String c b).
    now rewrite (fields_cons_sep p c b Hc).
  - rewrite append_cons. cbn [fields]. rewrite IH.
    destruct (p x); [reflexivity|].
    destruct (fields_nonempty p a) as (piece & pieces & ->). reflexivity.
Qed.

Lemma split_fields (sep : ascii) (s : string) :
  split sep s = fields (fun c => Ascii.eqb c sep) s.
Proof.
  induction s as [|c s IH]; [reflexivity|].
  cbn [split fields]. now rewrite IH.
Qed.

Lemma join_split (sep : ascii) (s : string) :
  join (String sep "") (split sep s) = s.
Proof.
  induction s as [|c s IH]; [reflexivity|].
  cbn [split]. destruct (Ascii.eqb_spec c sep) as [->|Hne].
  - pose proof (DataUrlFacts.split_nonempty sep s) as Hn.
    destruct (split sep s) as [|piece pieces]; [congruence|].
    rewrite join_two, IH. reflexivity.
  - pose proof (DataUrlFacts.split_nonempty sep s) as Hn.
    destruct (split sep s) as [|piece pieces]; [congruence|].
    rewrite join_cons_char, IH. reflexivity.
Qed.

Lemma fields_free (p : ascii -> bool) (s : string) :
  Forall (fun w => all_chars (fun c => negb (p c)) w = true) (fields p s).
Proof.
  induction s as [|c s IH]; [repeat constructor|].
  cbn [fields]. destruct (p c) eqn:E.
  - constructor; [reflexivity | exact IH].
  - destruct (fields p s) as [|piece pieces].
    + repeat constructor. cbn [all_chars]. now rewrite E.
    + inversion IH as [|? ? H1 H2]; subst. constructor; [|exact H2].
      cbn [all_chars]. now rewrite E, H1.
Qed.

Lemma fields_of_free (p : ascii -> bool) (s : string) :
  all_chars (fun c => negb (p c)) s = true -> fields p s = [s].
Proof.
  induction s as [|c s IH]; [reflexivity|].
  cbn [all_chars]. intros H. apply andb_true_iff in H as [Hc Hs].
  apply negb_true_iff in Hc. cbn [fields]. now rewrite Hc, (IH Hs).
Qed.

Lemma words_are_words (s : string) :
  Forall (fun w => is_word w = true) (words s).
Proof.
  unfold words. pose proof (fields_free is_space s) as H.
  induction H as [|w l Hw Hl IH]; [constructor|].
  cbn [List.filter]. destruct (nonempty w) eqn:E; [|exact IH].
  constructor; [|exact IH]. unfold is_word. now rewrite E, Hw.
Qed.

Lemma words_of_word (w : string) : is_word w = true -> words w = [w].
Proof.
  unfold is_word, words. intros H. apply andb_true_iff in H as [H1 H2].
  rewrite (fields_of_free is_space w H2). cbn [List.filter]. now rewrite H1.
Qed.

Lemma words_space_cons (c : ascii) (s : string) :
  is_space c = true -> words (String c s) = words s.
Proof.
  intros H. unfold words. rewrite (fields_cons_sep is_space c s H).
  reflexivity.
Qed.

Lemma words_app_space (c : ascii) (a b : string) :
  is_space c = true -> words (a +:+ String c b) = words a ++ words b.
Proof.
  intros H. unfold words. rewrite (fields_app is_space c a b H).
  apply List.filter_app.
Qed.

Lemma words_join (c : ascii) (l : list string) :
  is_space c = true ->
  words (join (String c "") l) = concat (map words l).
Proof.
  intros H. induction l as [|x l IH]; [reflexivity|].
  destruct l as [|y l].
  - cbn [join map concat]. now rewrite app_nil_r.
  - rewrite join_two. change (String c "" +:+ join (String c "") (y :: l))
      with (String c (join (String c "") (y :: l))).
    rewrite (words_app_space c _ _ H), IH. reflexivity.
Qed.

Lemma words_trim_start (s : string) : words (trim_start s) = words s.
Proof.
  induction s as [|c s IH]; [reflexivity|].
  cbn [trim_start]. destruct (is_space c) eqn:E; [|reflexivity].
  now rewrite (words_space_cons c s E).
Qed.

Lemma words_all_space (t : string) :
  all_chars is_space t = true -> words t = [].
Proof.
  induction t as [|c t IH]; [reflexivity|].
  cbn [all_chars]. intros H. apply andb_true_iff in H as [Hc Ht].
  rewrite (words_space_cons c t Hc). exact (IH Ht).
Qed.

Lemma words_app_spaces (a t : string) :
  all_chars is_space t = true -> words (a +:+ t) = words a.
Proof.
  destruct t as [|c t]; [intros _; now rewrite append_nil_r|].
  cbn [all_chars]. intros H. apply andb_true_iff in H as [Hc Ht].
  rewrite (words_app_space c a t Hc), (words_all_space t Ht).
  apply app_nil_r.
Qed.

Lemma trim_end_tail (s : string) :
  exists t, all_chars is_space t = true /\ s = trim_end s +:+ t.
Proof.
  induction s as [|c s (t & Ht & IH)]; [exists ""; split; reflexivity|].
  rewrite trim_end_step. destruct (trim_end s) as [|d r] eqn:E.
  - change ("" +:+ t) with t in IH. subst s.
    destruct (is_space c) eqn:Ec.
    + exists (String c t). split; [|reflexivity].
      cbn [all_chars]. now rewrite Ec, Ht.
    + exists t. split; [exact Ht | reflexivity].
  - exists t. split; [exact Ht|].
    rewrite append_cons. now rewrite <- IH.
Qed.

Lemma words_trim_end (s : string) : words (trim_end s) = words s.
Proof.
  destruct (trim_end_tail s) as (t & Ht & E).
  rewrite E at 2. now rewrite (words_app_spaces _ t Ht).
Qed.

Lemma words_trim (s : string) : words (trim s) = words s.
Proof.
  rewrite trim_halves, words_trim_end. apply words_trim_start.
Qed.

Lemma words_of_lines (l : list string) :
  concat (map words (List.filter nonempty (map trim l)))
  = concat (map words l).
Proof.
  induction l as [|x l IH]; [reflexivity|].
  cbn [map List.filter]. destruct (nonempty (trim x)) eqn:E.
  - cbn [map concat]. now rewrite IH, words_trim.
  - cbn [concat]. rewrite IH, <- (words_trim x), (nonempty_false _ E).
    reflexivity.
Qed.

Lemma words_of_cleaned_lines (text : string) :
  words (join (String newline "")
           (List.filter nonempty (map trim (split newline text))))
  = words text.
Proof.
  rewrite (words_join newline _ eq_refl), words_of_lines.
  rewrite <- (words_join newline _ eq_refl), join_split. reflexivity.
Qed.

Lemma trim_end_collapse (s : string) :
  trim_end (collapse s)
  = match fields is_space s with
    | piece :: pieces => join " " (piece :: List.filter nonempty pieces)
    | [] => ""
    end.
Proof.
  induction s as [|c s IH]; [reflexivity|].
  destruct (is_space c) eqn:Ec.
  - rewrite (fields_cons_sep is_space c s Ec).
    cbn [collapse]. rewrite Ec.
    destruct s as [|c' s']; [reflexivity|].
    destruct (is_space c') eqn:Ec'.
    + rewrite IH, (fields_cons_sep is_space c' s' Ec').
      cbn [List.filter]. rewrite nonempty_empty. reflexivity.
    + rewrite trim_end_step, IH.
      destruct (fields_nonempty is_space s') as (p' & ps' & E).
      rewrite (fields_cons_other is_space c' s' p' ps' Ec' E).
      cbn [List.filter]. rewrite nonempty_cons.
      rewrite join_cons_char, join_two, join_cons_char. reflexivity.
  - cbn [collapse]. rewrite Ec. rewrite trim_end_step, IH.
    destruct (fields_nonempty is_space s) as (p & ps & E).
    rewrite (fields_cons_other is_space c s p ps Ec E), E.
    rewrite join_cons_char, Ec.
    destruct (join " " (p :: List.filter nonempty ps)); reflexivity.
Qed.

Lemma trim_start_join_words (l : list string) :
  Forall (fun w => is_word w = true) l ->
  trim_start (join " " l) = join " " l.
Proof.
  intros H. destruct H as [|w l Hw Hl]; [reflexivity|].
  unfold is_word in Hw. apply andb_true_iff in Hw as [H1 H2].
  destruct w as [|c w]; [discriminate H1|].
  rewrite join_cons_char. cbn [all_chars] in H2.
  apply andb_true_iff in H2 as [Hc _]. apply negb_true_iff in Hc.
  cbn [trim_start]. now rewrite Hc.
Qed.

Lemma trim_collapse (s : string) :
  trim (collapse s) = join " " (words s).
Proof.
  rewrite trim_halves, <- trim_halves_commute, trim_end_collapse.
  pose proof (words_are_words s) as Hw. unfold words in *.
  pose proof (fields_free is_space s) as Hf.
  destruct (fields is_space s) as [|p ps]; [reflexivity|].
  cbn [List.filter] in *. destruct p as [|c p].
  - rewrite nonempty_empty in *.
    destruct (List.filter nonempty ps) as [|w l] eqn:E; [reflexivity|].
    rewrite join_two.
    change ("" +:+ " " +:+ join " " (w :: l))
      with (String " " (join " " (w :: l))).
    cbn [trim_start].
    change (is_space " ") with true. cbv iota.
    now apply trim_start_join_words.
  - rewrite nonempty_cons in *. now apply trim_start_join_words.
Qed.

Lemma clean_words (text : string) :
  cleanExtractedText text = join " " (words text).
Proof.
  unfold cleanExtractedText. destruct (String.eqb_spec text "") as [->|_].
  - reflexivity.
  - now rewrite trim_collapse, words_of_cleaned_lines.
Qed.

Lemma words_of_joined (l : list string) :
  Forall (fun w => is_word w = true) l -> words (join " " l) = l.
Proof.
  intros H. rewrite (words_join " " l eq_refl).
  induction H as [|w l Hw Hl IH]; [reflexivity|].
  cbn [map concat]. rewrite IH, (words_of_word w Hw). reflexivity.
Qed.

(** X22: the cleaned text is the words of the text joined by single
    spaces, where the words are the pieces of the text between white
    space (blanks, tabs, line breaks and the like) that are not empty. So
    the result has no line break, no white space at its start or end and
    no two blanks in a row, it is empty exactly when the text has no word,
    its words are those of the text in their order, and cleaning a cleaned
    text changes nothing. *)
Theorem cleanExtractedText_words (text : string) :
  cleanExtractedText text = join " " (words text)
  /\ Forall (fun w => is_word w = true) (words text)
  /\ words (cleanExtractedText text) = words text
  /\ cleanExtractedText (cleanExtractedText text) = cleanExtractedText text.
Proof.
  pose proof (words_are_words text) as Hw.
  split; [apply clean_words|]. split; [exact Hw|].
  rewrite !clean_words. rewrite (words_of_joined _ Hw).
  split; reflexivity.
Qed.

Example cleanExtractedText_example :
  let text :=
    String.concat (String newline "")
      [ "  Invoice   No. 42 "; "   "; ""; "Total:" +:+ String "009" "12.50 " ] in
  cleanExtractedText text = "Invoice No. 42 Total: 12.50".
Proof. vm_compute. reflexivity. Qed.

End CleanFacts.

(** ** The history of the popup, and truncated texts *)

Module PopupFacts.
Import Js Text Popup RegexFacts.

Lemma addToHistory_take (now stamp : Z) (q a : string)
  (history : list HistoryItem) :
  addToHistory now stamp q a history
  = take 50 ({| id := now; question := q; answer := a;
                timestamp := stamp |} :: history).
Proof.
  unfold addToHistory. cbv zeta.
  destruct (Z.ltb_spec 50
              (Z.of_nat (length ({| id := now; question := q; answer := a;
                                    timestamp := stamp |} :: history))))
    as [H|H]; [reflexivity|].
  symmetry. apply take_ge. lia.
Qed.

Lemma take_app_take_le {A : Type} (n m : nat) (l1 l2 : list A) :
  (n <= m)%nat -> take n (l1 ++ take m l2) = take n (l1 ++ l2).
Proof.
  revert n. induction l1 as [|x l1 IH]; intros n H.
  - cbn [app]. rewrite take_take. f_equal. lia.
  - destruct n as [|n]; [reflexivity|].
    cbn [app take]. f_equal. apply IH. lia.
Qed.

Lemma take_app_take {A : Type} (n : nat) (l1 l2 : list A) :
  take n (l1 ++ take n l2) = take n (l1 ++ l2).
Proof. apply take_app_take_le. lia. Qed.

Lemma after_calls_take (calls : list Call) (history : list HistoryItem) :
  calls <> [] \/ (length history <= 50)%nat ->
  after_calls history calls
  = take 50 (rev (map item_of calls) ++ history).
Proof.
  revert history. induction calls as [|c calls IH]; intros history H.
  - destruct H as [H|H]; [congruence|].
    cbn. symmetry. apply take_ge. exact H.
  - unfold after_calls. cbn [fold_left].
    fold (after_calls
            (addToHistory (call_now c) (call_stamp c) (call_question c)
               (call_answer c) history) calls).
    rewrite IH.
    + rewrite addToHistory_take. fold (item_of c).
      rewrite take_app_take. cbn [map rev].
      now rewrite <- app_assoc.
    + right. rewrite addToHistory_take. rewrite length_take. lia.
Qed.

(** X23: the history is the last fifty entries, newest first. After any
    calls of [addToHistory], starting from the empty history or from a
    stored one, the history holds the entries of the calls from the last
    one back, then the entries it started with, cut after fifty; so it
    never has more than fifty entries and the entries dropped are the
    oldest. *)
Theorem history_is_latest_fifty (calls : list Call)
  (history : list HistoryItem) :
  calls <> [] \/ (length history <= 50)%nat ->
  after_calls history calls = take 50 (rev (map item_of calls) ++ history)
  /\ (length (after_calls history calls) <= 50)%nat.
Proof.
  intros H. rewrite (after_calls_take calls history H).
  split; [reflexivity|]. rewrite length_take. lia.
Qed.

Lemma history_is_latest_fifty_example :
  after_calls []
    [ {| call_now := 1; call_stamp := 1; call_question := "q1";
         call_answer := "a1" |};
      {| call_now := 2; call_stamp := 2; call_question := "q2";
         call_answer := "a2" |} ]
  = [ {| id := 2; question := "q2"; answer := "a2"; timestamp := 2 |};
      {| id := 1; question := "q1"; answer := "a1"; timestamp := 1 |} ].
Proof.
  refine (eq_trans (proj1 (history_is_latest_fifty _ [] _)) _).
  - left. discriminate.
  - reflexivity.
Defined.

Lemma strlen_app (a b : string) : strlen (a +:+ b) = strlen a + strlen b.
Proof.
  unfold strlen. induction a as [|c a IH]; [reflexivity|].
  rewrite append_cons. cbn [String.length]. lia.
Qed.

Lemma length_take_chars (n : nat) (s : string) :
  String.length (take_chars n s) = Nat.min n (String.length s).
Proof.
  revert s. induction n as [|n IH]; intros [|c s]; try reflexivity.
  cbn [take_chars String.length Nat.min]. now rewrite IH.
Qed.

Lemma take_chars_prefix (n : nat) (s : string) :
  String.prefix (take_chars n s) s = true.
Proof.
  revert s. induction n as [|n IH]; intros [|c s]; try reflexivity.
  cbn [take_chars String.prefix].
  destruct (ascii_dec c c); [apply IH | congruence].
Qed.

Lemma truncateText_cut (text : string) (maxLength : Z) :
  0 <= maxLength -> maxLength < strlen text ->
  truncateText text maxLength = substring0 text maxLength +:+ "..."
  /\ strlen (substring0 text maxLength) = maxLength
  /\ String.prefix (substring0 text maxLength) text = true.
Proof.
  intros H0 H. unfold truncateText.
  destruct (Z.leb_spec (strlen text) maxLength) as [H'|_]; [lia|].
  split; [reflexivity|]. split.
  - unfold substring0, strlen in *. rewrite length_take_chars. lia.
  - apply take_chars_prefix.
Qed.

(** X24: a text is shown whole when it has at most [maxLength]
    characters; otherwise what is shown is its first [maxLength]
    characters followed by three dots, which is [maxLength + 3]
    characters, so up to two more than the text itself had. The page
    content that [POST /ask-ai] puts in the prompt is cut by the same rule
    at 8000 characters, so it has at most 8003. *)
Theorem truncateText_bound (text : string) (maxLength : Z) :
  0 <= maxLength ->
  (strlen text <= maxLength -> truncateText text maxLength = text)
  /\ (maxLength < strlen text ->
      exists head,
        truncateText text maxLength = head +:+ "..."
        /\ strlen head = maxLength
        /\ String.prefix head text = true)
  /\ strlen (truncateText text maxLength) <= maxLength + 3
  /\ AskAI.truncatedText text = truncateText text AskAI.maxContextLength.
Proof.
  intros H0. split; [|split; [|split]].
  - intros H. unfold truncateText.
    destruct (Z.leb_spec (strlen text) maxLength); [reflexivity | lia].
  - intros H. exists (substring0 text maxLength).
    apply (truncateText_cut text maxLength H0 H).
  - destruct (Z.le_gt_cases (strlen text) maxLength) as [H|H].
    + unfold truncateText.
      destruct (Z.leb_spec (strlen text) maxLength); lia.
    + destruct (truncateText_cut text maxLength H0 H) as (-> & Hl & _).
      rewrite strlen_app, Hl. change (strlen "...") with 3. lia.
  - unfold AskAI.truncatedText, truncateText.
    destruct (Z.ltb_spec AskAI.maxContextLength (strlen text));
      destruct (Z.leb_spec (strlen text) AskAI.maxContextLength);
      try reflexivity; lia.
Qed.

Lemma truncateText_bound_example :
  truncateText "What does this page say about pricing?" 10 = "What does ..."
  /\ strlen (truncateText "What does this page say about pricing?" 10)
     <= 10 + 3.
Proof.
  split; [reflexivity|].
  apply (truncateText_bound "What does this page say about pricing?" 10).
  lia.
Defined.

(** X25: the entry just added is the one at the top. After
    [addToHistory] the new entry is first, followed by the 49 most recent
    of the entries there were; looking an entry up by the id of the new
    one finds the new one, even when an older entry has the same id; and
    the list shown starts with the new entry, its question cut at 60
    characters and its answer at 80, and has at most ten lines. *)
Theorem added_entry_is_first (now stamp : Z) (q a : string)
  (history : list HistoryItem) :
  let item := {| id := now; question := q; answer := a;
                 timestamp := stamp |} in
  let history' := addToHistory now stamp q a history in
  history' = item :: take 49 history
  /\ find_item now history' = Some item
  /\ (exists lines,
        rendered history'
        = (now, truncateText q 60, truncateText a 80) :: lines
        /\ lines = rendered (take 9 history)
        /\ (length lines <= 9)%nat).
Proof.
  cbv zeta. rewrite addToHistory_take. cbn [take].
  split; [reflexivity|]. split.
  - unfold find_item. cbn [List.find id]. now rewrite Z.eqb_refl.
  - exists (rendered (take 9 history)). split; [|split; [reflexivity|]].
    + unfold rendered. rewrite firstn_cons, !take_take.
      change (Nat.min 9 49) with 9%nat. change (Nat.min 10 9) with 9%nat.
      reflexivity.
    + unfold rendered. rewrite length_map, !length_take. lia.
Qed.

End PopupFacts.

(** ** Origins *)

Module CorsFacts.
Import Js Text Cors RegexFacts.

Lemma prefix_empty (s : string) : String.prefix "" s = true.
Proof. destruct s; reflexivity. Qed.

Lemma includes_split (c : ascii) (s : string) :
  includes c s = true ->
  exists pre post, s = pre +:+ String c post /\ includes c pre = false.
Proof.
  induction s as [|x s IH]; [discriminate|].
  cbn [includes]. destruct (Ascii.eqb_spec x c) as [->|Hne].
  - intros _. exists "", s. split; reflexivity.
  - cbn [orb]. intros H. destruct (IH H) as (pre & post & -> & Hpre).
    exists (String x pre), post. split; [reflexivity|].
    cbn [includes]. apply Ascii.eqb_neq in Hne. now rewrite Hne, Hpre.
Qed.

Lemma includes_app (c : ascii) (pre post : string) :
  includes c (pre +:+ String c post) = true.
Proof.
  induction pre as [|x pre IH].
  - change (includes c (String c post) = true). cbn [includes].
    now rewrite Ascii.eqb_refl.
  - rewrite append_cons. cbn [includes]. rewrite IH. apply orb_true_r.
Qed.

Lemma replace_first_char (c : ascii) (pre post : string) :
  includes c pre = false ->
  replace_first (String c "") (pre +:+ String c post) = pre +:+ post.
Proof.
  induction pre as [|x pre IH].
  - intros _. change ("" +:+ String c post) with (String c post).
    change ("" +:+ post) with post.
    cbn [replace_first String.prefix].
    destruct (ascii_dec c c); [|congruence].
    rewrite prefix_empty. reflexivity.
  - cbn [includes]. intros H. apply orb_false_iff in H as [Hx Hpre].
    apply Ascii.eqb_neq in Hx.
    rewrite !append_cons. cbn [replace_first String.prefix].
    destruct (ascii_dec c x); [congruence|].
    now rewrite (IH Hpre).
Qed.

Lemma origin_matches_rule (origin allowed : string) :
  origin_matches origin allowed = true
  <-> (includes "*" allowed = false /\ origin = allowed)
      \/ (exists pre post,
            allowed = pre +:+ "*" +:+ post
            /\ includes "*" pre = false
            /\ String.prefix (pre +:+ post) origin = true).
Proof.
  unfold origin_matches. destruct (includes "*" allowed) eqn:E.
  - destruct (includes_split _ _ E) as (pre & post & -> & Hpre).
    rewrite (replace_first_char "*" pre post Hpre). split.
    + intros H. right. exists pre, post. repeat split; assumption.
    + intros [[H _]|(pre' & post' & Heq & Hpre' & H)]; [discriminate H|].
      assert (Hr : replace_first "*" (pre +:+ String "*" post)
                   = pre' +:+ post').
      { rewrite Heq. apply (replace_first_char "*" pre' post' Hpre'). }
      rewrite (replace_first_char "*" pre post Hpre) in Hr.
      now rewrite Hr.
  - split.
    + intros H. apply String.eqb_eq in H. left. split; [reflexivity|exact H].
    + intros [[_ ->]|(pre & post & -> & _ & _)]; [apply String.eqb_refl|].
      change ("*" +:+ post) with (String "*" post) in E.
      rewrite includes_app in E. discriminate E.
Qed.

(** X26: which origins CORS lets in. A request without an origin is let
    in. Otherwise the origin must satisfy one entry of the list: an entry
    without a star only by being equal to it; an entry with a star by
    starting with the entry less its first star. So the star stands for
    any text only at the end of an entry; in an entry such as
    [https://*.example.com] it stands for nothing, and the entry [*] lets
    every origin in. With the default list the origins let in are
    [http://localhost:3000] and every origin that starts with
    [chrome-extension://]. *)
Theorem origin_allowed_rule (ALLOWED_ORIGINS : option string)
  (origin : string) :
  origin <> "" ->
  (origin_allowed ALLOWED_ORIGINS (Some origin) = true
   <-> exists allowed,
         In allowed (allowedOrigins ALLOWED_ORIGINS)
         /\ ((includes "*" allowed = false /\ origin = allowed)
             \/ (exists pre post,
                   allowed = pre +:+ "*" +:+ post
                   /\ includes "*" pre = false
                   /\ String.prefix (pre +:+ post) origin = true)))
  /\ (origin_allowed None (Some origin) = true
      <-> origin = "http://localhost:3000"
          \/ String.prefix "chrome-extension://" origin = true)
  /\ (In "*" (allowedOrigins ALLOWED_ORIGINS) ->
      origin_allowed ALLOWED_ORIGINS (Some origin) = true).
Proof.
  intros Hne. apply String.eqb_neq in Hne.
  assert (Hrule : forall env,
    origin_allowed env (Some origin) = true
    <-> exists allowed,
          In allowed (allowedOrigins env)
          /\ origin_matches origin allowed = true).
  { intros env. unfold origin_allowed. rewrite Hne. apply existsb_exists. }
  split; [|split].
  - rewrite Hrule. split; intros (a & Hin & H); exists a; (split; [exact Hin|]);
      now apply origin_matches_rule.
  - unfold origin_allowed. rewrite Hne.
    unfold allowedOrigins. cbn [existsb].
    change (origin_matches origin "http://localhost:3000")
      with (String.eqb origin "http://localhost:3000").
    change (origin_matches origin "chrome-extension://*")
      with (String.prefix "chrome-extension://" origin).
    rewrite orb_false_r, orb_true_iff, String.eqb_eq. reflexivity.
  - intros Hin. apply Hrule. exists "*". split; [exact Hin|].
    apply prefix_empty.
Qed.

Lemma origin_allowed_rule_example :
  origin_allowed None (Some "chrome-extension://abcdefgh") = true
  /\ origin_allowed (Some "https://*.example.com")
       (Some "https://app.example.com") = false.
Proof.
  split.
  - apply (proj1 (proj2 (origin_allowed_rule None
                           "chrome-extension://abcdefgh"
                           ltac:(discriminate)))).
    right. reflexivity.
  - destruct (origin_allowed (Some "https://*.example.com")
                (Some "https://app.example.com")) eqn:E; [|reflexivity].
    apply (proj1 (origin_allowed_rule (Some "https://*.example.com")
                    "https://app.example.com" ltac:(discriminate))) in E.
    destruct E as (a & Hin & H). cbn in Hin. destruct Hin as [<-|[]].
    exfalso.
    assert (Hm : origin_matches "https://app.example.com"
                   "https://*.example.com" = false) by reflexivity.
    apply origin_matches_rule in H. congruence.
Defined.

End CorsFacts.

(** ** What the handlers of the routes can rely on *)

Module RouteFacts.
Import Js Express Validation Auth Routes Spec Handlers Validator ValidatorMore.

Lemma authenticated_body (D : Type) (env : Env) (now : Z)
  (req req' : Request) :
  @authenticateRequest D env now req = Next req' -> body req' = body req.
Proof.
  unfold authenticateRequest.
  destruct (development env && negb (env_set (API_KEY env)));
    [intros [= <-]; reflexivity|].
  destruct (getApiKeyFromRequest req) as [k|]; [|discriminate].
  destruct (String.eqb k ""); [discriminate|].
  destruct (negb (isValidApiKey env (VStr k))); [discriminate|].
  intros [= <-]. reflexivity.
Qed.

Lemma validated_body (host : Host) (schema : Schema) (req req' : Request) :
  validateRequest host schema req = Next req' ->
  req' = req /\ validate host schema (body req) = Normal [].
Proof.
  unfold validateRequest.
  destruct (validate host schema (body req)) as [errors|]; [|discriminate].
  destruct errors as [|e rest]; [|discriminate].
  intros [= <-]. split; reflexivity.
Qed.

Lemma entered_body (host : Host) (env : Env) (now : Z) (schema : Schema)
  (req req' : Request) :
  enter host env now schema req = Next req' ->
  body req' = body req /\ validate host schema (body req) = Normal [].
Proof.
  unfold enter, guards. cbn [run].
  destruct (@authenticateRequest ValidationError env now req)
    as [req1|] eqn:Hauth; [|discriminate].
  destruct (validateRequest host schema req1) as [req2|] eqn:Hval;
    [|discriminate].
  intros [= <-].
  apply validated_body in Hval as [-> Hval].
  rewrite (authenticated_body _ env now req req1 Hauth) in Hval.
  split; [exact (authenticated_body _ env now req req1 Hauth) | exact Hval].
Qed.

Lemma required_string_present (host : Host) (schema : Schema)
  (props : list (string * Value)) (name : string) (fs : FieldSchema) :
  In (name, fs) schema -> required fs = true -> type fs = Some "string" ->
  validate host schema props = Normal [] ->
  exists s,
    get props name = VStr s /\ s <> ""
    /\ string_checks host name fs s = Normal [].
Proof.
  intros Hin Hreq Ht Hval.
  destruct (validate_includes host schema props name fs [] Hin Hval)
    as (pushed & Hfield & Hsub).
  assert (Hnil : pushed = []).
  { destruct pushed as [|e rest]; [reflexivity|].
    destruct (Hsub e (or_introl eq_refl)). }
  subst pushed.
  destruct (get props name) as [| |b|x|s|items|ps|] eqn:Hv;
    try (rewrite (required_and_missing host name fs _ Hreq) in Hfield;
         [discriminate Hfield | tauto]);
    try (rewrite (validate_field_wrong_type host name fs _ "string")
           in Hfield;
         [discriminate Hfield
         | intros [H|[H|[_ H]]]; discriminate H
         | exact Ht
         | reflexivity]).
  destruct s as [|c s].
  - rewrite (required_and_missing host name fs _ Hreq) in Hfield;
      [discriminate Hfield | tauto].
  - exists (String c s). split; [reflexivity|]. split; [discriminate|].
    rewrite (validate_field_string host name fs (String c s)) in Hfield;
      [|right; discriminate | exact Ht].
    destruct (string_checks host name fs (String c s)) as [errs|];
      [|discriminate Hfield].
    injection Hfield as Hfield. rewrite !app_nil_r in Hfield. now subst.
Qed.

(** X27: the handlers can rely on their required strings. A request that
    reaches the handler of [POST /ocr] has a string that is not empty in
    [image], so [image.startsWith] is defined; one that reaches
    [POST /pdf/extract] has one in [pdfData]; one that reaches
    [POST /ask-ai] has a [question] of 1 to 2000 characters. The body is
    the one that was sent. *)
Theorem handlers_receive_their_strings (host : Host) (env : Env) (now : Z)
  (req req' : Request) :
  (enter host env now ocrSchema req = Next req' ->
   body req' = body req
   /\ exists image, get (body req') "image" = VStr image /\ image <> "")
  /\ (enter host env now pdfExtractSchema req = Next req' ->
      body req' = body req
      /\ exists pdfData,
           get (body req') "pdfData" = VStr pdfData /\ pdfData <> "")
  /\ (enter host env now AskAI.askAISchema req = Next req' ->
      body req' = body req
      /\ exists question,
           get (body req') "question" = VStr question
           /\ 1 <= strlen question <= 2000).
Proof.
  split; [|split]; intros H; apply entered_body in H as [Hb Hval];
    rewrite Hb; (split; [reflexivity|]).
  - destruct (required_string_present host ocrSchema (body req) "image" _
                (or_introl eq_refl) eq_refl eq_refl Hval) as (s & Hs & Hne & _).
    eauto.
  - destruct (required_string_present host pdfExtractSchema (body req)
                "pdfData" _ (or_introl eq_refl) eq_refl eq_refl Hval)
      as (s & Hs & Hne & _).
    eauto.
  - destruct (required_string_present host AskAI.askAISchema (body req)
                "question" _ (or_introl eq_refl) eq_refl eq_refl Hval)
      as (s & Hs & Hne & Hchecks).
    exists s. split; [exact Hs|].
    rewrite string_checks_no_pattern in Hchecks by reflexivity.
    cbn [minLength maxLength format] in Hchecks.
    change (negb (1 =? 0)) with true in Hchecks.
    change (negb (2000 =? 0)) with true in Hchecks.
    cbn [andb] in Hchecks.
    destruct (Z.ltb_spec (strlen s) 1); [discriminate Hchecks|].
    destruct (Z.ltb_spec 2000 (strlen s)); [discriminate Hchecks|].
    lia.
Qed.

Lemma handlers_receive_their_strings_example :
  exists image,
    get (body (Fixtures.with_body
                 [("image", VStr "data:image/png;base64,iVBORw0KGgo=")]))
      "image" = VStr image
    /\ image <> "".
Proof.
  apply (proj1 (handlers_receive_their_strings RefHost.host
                  Fixtures.dev_no_key 1700000000000
                  (Fixtures.with_body
                     [("image", VStr "data:image/png;base64,iVBORw0KGgo=")])
                  (Fixtures.with_body
                     [("image", VStr "data:image/png;base64,iVBORw0KGgo=")]))).
  vm_compute. reflexivity.
Defined.

Lemma no_key_resolved (req : Request) :
  Popup.carries_no_key req -> get (body req) "apiKey" = VUndefined ->
  getApiKeyFromRequest req = None.
Proof.
  intros (H1 & H2 & H3 & H4) H5.
  unfold getApiKeyFromRequest, locations, header.
  rewrite H1, H2, H3, H4, H5. reflexivity.
Qed.

(** X28: the question the popup sends carries no key, so the gateway lets
    it in only under the development bypass. The popup posts the
    question, the page content and its address with the header
    [Content-Type] alone; its stored key is not sent. Outside the bypass
    the answer is 401 "Authentication required". Under the bypass the
    request reaches the handler exactly when the question has at most
    2000 characters and the address is one [new URL] accepts. *)
Theorem popup_question_needs_the_bypass (host : Host) (env : Env) (now : Z)
  (req : Request) (question : string) (pageContent : list (string * Value))
  (href : string) :
  Popup.carries_no_key req ->
  body req = Popup.ask_body question pageContent href ->
  question <> "" ->
  getApiKeyFromRequest req = None
  /\ (development env && negb (env_set (API_KEY env)) = false ->
      enter host env now AskAI.askAISchema req
      = Respond 401 (reply "Authentication required"
                       "API key is required for this endpoint"))
  /\ (development env && negb (env_set (API_KEY env)) = true ->
      (enter host env now AskAI.askAISchema req = Next req
       <-> strlen question <= 2000 /\ URL_new host href = true)).
Proof.
  intros Hkey Hbody Hq.
  assert (Hnone : getApiKeyFromRequest req = None).
  { apply no_key_resolved; [exact Hkey|]. rewrite Hbody. reflexivity. }
  split; [exact Hnone|].
  unfold enter, guards. cbn [run]. unfold authenticateRequest.
  rewrite Hnone. split; intros ->; [reflexivity|].
  unfold validateRequest. rewrite Hbody.
  unfold AskAI.askAISchema. rewrite !validate_cons.
  change (get (Popup.ask_body question pageContent href) "question")
    with (VStr question).
  change (get (Popup.ask_body question pageContent href) "context")
    with (VObj pageContent).
  change (get (Popup.ask_body question pageContent href) "url")
    with (VStr href).
  change (get (Popup.ask_body question pageContent href) "selectedText")
    with VUndefined.
  rewrite (validate_field_string host "question" _ question)
    by (first [right; exact Hq | reflexivity]).
  rewrite (validate_field_string host "url" _ href)
    by (first [left; reflexivity | reflexivity]).
  rewrite !string_checks_no_pattern by reflexivity.
  cbn [minLength maxLength format].
  change (negb (1 =? 0)) with true. change (negb (2000 =? 0)) with true.
  cbn [andb].
  change (String.eqb "url" "url") with true.
  change (String.eqb "url" "email") with false.
  cbn [andb].
  assert (Hlen : (strlen question <? 1) = false).
  { apply Z.ltb_ge. unfold strlen. destruct question; [congruence|].
    cbn [String.length]. lia. }
  rewrite Hlen.
  unfold isValidUrl.
  destruct (Z.ltb_spec 2000 (strlen question)) as [Hlong|Hshort];
    destruct (URL_new host href) eqn:Hurl; cbn;
    (split; [intros H; first [discriminate H | split; [lia | reflexivity]]
            | intros [H1 H2]; first [lia | discriminate H2 | reflexivity]]).
Qed.

Lemma popup_question_needs_the_bypass_example :
  enter RefHost.host Fixtures.prod_with_key 1700000000000
    AskAI.askAISchema
    (Fixtures.with_body
       (Popup.ask_body "What is this page about?" []
          "chrome-extension://abcdefgh/popup.html"))
  = Respond 401 (reply "Authentication required"
                   "API key is required for this endpoint").
Proof.
  apply (popup_question_needs_the_bypass RefHost.host Fixtures.prod_with_key
           1700000000000
           (Fixtures.with_body
              (Popup.ask_body "What is this page about?" []
                 "chrome-extension://abcdefgh/popup.html"))
           "What is this page about?" []
           "chrome-extension://abcdefgh/popup.html").
  - repeat split.
  - reflexivity.
  - discriminate.
  - reflexivity.
Defined.

End RouteFacts.

(** ** The batch route and the detailed health check *)

Module BatchFacts.
Import Js Text Batch.

Section Facts.

Variable recognise : nat -> option string -> Recognition.
Variable split_error : Value -> Value.

Lemma is_failed_not_successful (r : Settled) :
  is_failed r = negb (is_successful r).
Proof. destruct r; reflexivity. Qed.

Lemma partition_lengths (l : list Settled) :
  (length (List.filter is_successful l) + length (List.filter is_failed l)
   = length l)%nat.
Proof.
  induction l as [|r l IH]; [reflexivity|].
  cbn [List.filter]. rewrite is_failed_not_successful.
  destruct (is_successful r); cbn [negb length]; lia.
Qed.

Lemma process_success (i : nat) (v : Value) :
  success (reported (process recognise split_error i v)) = true ->
  exists s t c,
    v = VStr s
    /\ recognise i (nth_error (split "," s) 1) = Recognised t c
    /\ reported (process recognise split_error i v)
       = {| index := Some i; success := true;
            text := Some (cleanExtractedText t); confidence := Some c;
            error := None |}.
Proof.
  unfold process. destruct v as [| | | |s| | |]; try discriminate.
  destruct (recognise _ _) as [t c| |] eqn:E; try discriminate.
  intros _. exists s, t, c.
  split; [reflexivity|]. split; [exact E | reflexivity].
Qed.

(** X29: the batch route. It refuses with 400 anything but an array of
    one to ten images, and otherwise always answers 200 with one result
    per image, in the order of the images. The summary adds up: [total]
    is the number of images and [successful + failed = total]. A result
    says [success] only for an image that is a string and that the
    recogniser read, and then carries the position of its image and the
    cleaned text; so an image that is not a string, for which no
    validation is done on this route, is reported as failed and does not
    fail the batch. *)
Theorem batch_summary_adds_up (images : Value) :
  ((exists results summary,
       batch recognise split_error images = BatchDone results summary)
   <-> exists items,
         images = VArr items /\ (1 <= length items <= 10)%nat)
  /\ (forall results summary,
        batch recognise split_error images = BatchDone results summary ->
        exists items,
          images = VArr items
          /\ length results = length items
          /\ total summary = Z.of_nat (length items)
          /\ successful summary + failed summary = total summary
          /\ 0 <= successful summary /\ 0 <= failed summary
          /\ forall i r,
               results !! i = Some r ->
               exists v,
                 items !! i = Some v
                 /\ (success r = true ->
                     exists s t c,
                       v = VStr s
                       /\ recognise i (nth_error (split "," s) 1)
                          = Recognised t c
                       /\ r = {| index := Some i; success := true;
                                 text := Some (cleanExtractedText t);
                                 confidence := Some c; error := None |})).
Proof.
  split.
  - split.
    + intros (results & summary & H). unfold batch in H.
      destruct images as [| | | | |items| |]; try discriminate H.
      exists items. split; [reflexivity|].
      destruct (Z.eqb_spec (Z.of_nat (length items)) 0); [discriminate H|].
      destruct (Z.ltb_spec 10 (Z.of_nat (length items))); [discriminate H|].
      lia.
    + intros (items & -> & Hlen). unfold batch.
      destruct (Z.eqb_spec (Z.of_nat (length items)) 0); [lia|].
      destruct (Z.ltb_spec 10 (Z.of_nat (length items))); [lia|].
      eauto.
  - intros results summary H. unfold batch in H.
    destruct images as [| | | | |items| |]; try discriminate H.
    destruct (Z.of_nat (length items) =? 0); [discriminate H|].
    destruct (10 <? Z.of_nat (length items)); [discriminate H|].
    injection H as <- <-. exists items. split; [reflexivity|].
    split; [now rewrite length_map, length_imap|].
    split; [reflexivity|].
    cbn [total successful failed].
    pose proof (partition_lengths (imap (process recognise split_error) items))
      as Hp.
    rewrite length_imap in Hp.
    split; [lia|]. split; [lia|]. split; [lia|].
    intros i r Hr. rewrite list_lookup_fmap in Hr.
    rewrite list_lookup_imap in Hr.
    destruct (items !! i) as [v|] eqn:Hv; [|discriminate Hr].
    cbn in Hr. injection Hr as <-.
    exists v. split; [reflexivity|].
    intros Hs. destruct (process_success i v Hs) as (s & t & c & H1 & H2 & H3).
    exists s, t, c. repeat split; assumption.
Qed.

End Facts.

Lemma batch_summary_adds_up_example :
  exists items,
    VArr [VStr "data:image/png;base64,AAAA"; VNum (S754_zero false)]
    = VArr items
    /\ (1 <= length items <= 10)%nat.
Proof.
  apply (proj1 (proj1 (batch_summary_adds_up
                         (fun _ _ => Recognised "x" VNull) (fun _ => VNull)
                         (VArr [VStr "data:image/png;base64,AAAA";
                                VNum (S754_zero false)])))).
  eexists. eexists. reflexivity.
Defined.

End BatchFacts.

Module HealthFacts.
Import Js Health.

(** X30: the detailed health check answers 200 exactly when the OpenAI
    key is set, the calls to OpenAI and to Tesseract return, and the heap
    is used to less than 90 percent; every other answer is 503. Without
    the key the answer is 503 whatever the services do, OpenAI is not
    called, and both the [openai] and the [environment] check say
    [unhealthy]. *)
Theorem detailed_health (OPENAI_API_KEY : option string)
  (openai tesseract : Probe) (heapUsed heapTotal : spec_float) :
  let answer :=
    detailed OPENAI_API_KEY openai tesseract heapUsed heapTotal in
  (code answer = 200
   <-> (exists c k, OPENAI_API_KEY = Some (String c k))
       /\ openai = Returns /\ tesseract = Returns
       /\ isMemoryHealthy heapUsed heapTotal = true)
  /\ (code answer = 200 \/ code answer = 503)
  /\ (success answer = true <-> code answer = 200)
  /\ (status answer = healthy <-> code answer = 200)
  /\ (OPENAI_API_KEY = None \/ OPENAI_API_KEY = Some "" ->
      code answer = 503
      /\ answer = detailed OPENAI_API_KEY Returns tesseract heapUsed heapTotal
      /\ (tesseract <> ThrowsNothing ->
          status answer = degraded
          /\ In ("openai", unhealthy) (checks answer)
          /\ In ("environment", unhealthy) (checks answer))).
Proof.
  cbv zeta. unfold detailed, checkOpenAI, checkTesseract,
    checkSystemResources, checkEnvironmentVariables.
  destruct (isMemoryHealthy heapUsed heapTotal);
    destruct OPENAI_API_KEY as [[|c k]|]; destruct openai;
    destruct tesseract; vm_compute;
    repeat match goal with
           | |- _ /\ _ => split
           | |- _ -> _ => intro
           | H : _ /\ _ |- _ => destruct H
           | H : _ \/ _ |- _ => destruct H
           | H : ex _ |- _ => destruct H
           | H : _ = _ |- _ => discriminate H
           | H : ?x = ?x -> False |- _ => destruct (H eq_refl)
           | |- _ = _ => reflexivity
           | |- ex _ => eexists
           end;
    try (left; reflexivity); try (right; reflexivity);
    try (right; right; right; left; reflexivity).
Qed.

Lemma detailed_health_example :
  code (detailed None Returns Returns (binary64 10) (binary64 100)) = 503.
Proof.
  apply (detailed_health None Returns Returns (binary64 10) (binary64 100)).
  left. reflexivity.
Defined.

End HealthFacts.
